(** * Oh: ANSI terminal output to SVG -- parsing and cache core

    A shallow embedding of the core of [Oh.c], [Oh-parse.c] and
    [Oh-cache.c]: the SGR escape parser [parse_ansi_line], the hash and
    fingerprint functions, the per-line and incremental caches, the
    command line, the reading of the input, tab expansion, XML escaping
    and the width of the grid.

    Conventions.
    - A C string ([char *], NUL terminated) is a [string] holding the bytes
      before the terminator.
    - [int] and [unsigned int] values are integers in [Z]; conversions that
      wrap or saturate are written out ([to_int32], [to_uint32]).  The
      [int] sums of the program (segment counts, visible positions, the
      hit and miss counters) stay below [MAX_SEGMENTS * MAX_LINE_LENGTH]
      and [MAX_LINES], far from [INT_MAX], and are plain sums.
    - The [segments] array of a [LineData] is a list of [MAX_SEGMENTS]
      slots, updated in place by index.
    - Output parameters are modelled by passing the previous contents of
      the destination and returning the new contents.
    - What lies outside the process is explicit: the answers of the shell
      and of the libraries are the fields of [Env], the files are a finite
      map from paths to contents, the time is an argument.  A file written
      by jansson is modelled by the document it holds.
    - [log_output] and [progress_output] calls (text to stderr) are left
      out. *)

From Stdlib Require Import ZArith Lia String Ascii List.
From Stdlib Require Import Decimal DecimalString DecimalZ DecimalN DecimalPos.
From stdpp Require Import base option list gmap strings.
From Equations Require Import Equations.

Local Open Scope string_scope.
Local Open Scope Z_scope.

(** ** Constants of [Oh.h] *)

Definition MAX_LINE_LENGTH : Z := 4096.
Definition MAX_LINES : Z := 10000.
Definition MAX_SEGMENTS : Z := 1000.
Definition MAX_PATH_LENGTH : Z := 512.
Definition MAX_HASH_LENGTH : Z := 64.
Definition MAX_COLOR_LENGTH : Z := 16.
Definition MAX_FONT_NAME_LENGTH : Z := 64.
Definition MAX_CACHE_KEY_LENGTH : Z := 128.
Definition DEFAULT_PADDING : Z := 20.
Definition BG_COLOR : string := "#1e1e1e".
Definition TEXT_COLOR : string := "#ffffff".

(** ** The C library, as far as the program uses it *)

Module C.

Definition ESC : ascii := "027"%char.

Definition code (c : ascii) : Z := Z.of_N (N_of_ascii c).

(** [strlen] *)
Definition strlen (s : string) : Z := Z.of_nat (String.length s).

(** The first [n] bytes of a string. *)
Fixpoint take (n : nat) (s : string) : string :=
  match n, s with
  | S k, String c r => String c (take k r)
  | _, _ => ""
  end.

(** [snprintf (buf, size, ...)] stores at most [size - 1] bytes of the
    formatted text; its return value is the length of the whole text. *)
Definition snprintf (size : Z) (formatted : string) : string :=
  take (Z.to_nat (size - 1)) formatted.

(** Integer conversions. *)
Definition to_uint32 (z : Z) : Z := z mod 2 ^ 32.
Definition to_int32 (z : Z) : Z := (z + 2 ^ 31) mod 2 ^ 32 - 2 ^ 31.
Definition INT_MIN : Z := - 2 ^ 31.
Definition INT_MAX : Z := 2 ^ 31 - 1.
Definition LONG_MIN : Z := - 2 ^ 63.
Definition LONG_MAX : Z := 2 ^ 63 - 1.
Definition ULONG_MAX : Z := 2 ^ 64 - 1.

Definition is_int (z : Z) : bool := (INT_MIN <=? z) && (z <=? INT_MAX).

(** ["%d"] and ["%u"] *)
Definition fmt_d (z : Z) : string := NilEmpty.string_of_int (Z.to_int z).
Definition fmt_u (z : Z) : string := NilEmpty.string_of_uint (N.to_uint (Z.to_N z)).

(** A finite [double]: the value [mantissa * 2 ^ exponent].  Infinities
    and NaN are not modelled. *)
Record double := { mantissa : Z; exponent : Z }.

Definition round_half_even (num den : Z) : Z :=
  let q := num / den in
  let r := num mod den in
  if 2 * r <? den then q
  else if den <? 2 * r then q + 1
  else if Z.even q then q else q + 1.

(** ["%.2f"]: the exact value rounded to hundredths, ties to even. *)
Definition fmt_2f (d : double) : string :=
  let m := Z.abs (mantissa d) in
  let h := if 0 <=? exponent d then m * 2 ^ exponent d * 100
           else round_half_even (m * 100) (2 ^ (- exponent d)) in
  (if mantissa d <? 0 then "-" else "") +:+
  fmt_u (h / 100) +:+ "." +:+ fmt_u (h mod 100 / 10) +:+ fmt_u (h mod 10).

(** [isspace] in the C locale *)
Definition isspace (c : ascii) : bool :=
  let n := code c in (n =? 32) || ((9 <=? n) && (n <=? 13)).

Definition digit_of (c : ascii) : option Z :=
  let n := code c in
  if (48 <=? n) && (n <=? 57) then Some (n - 48) else None.

Fixpoint skip_spaces (s : string) : string :=
  match s with
  | String c r => if isspace c then skip_spaces r else s
  | EmptyString => s
  end.

(** The decimal digits at the front of [s], accumulated the way
    [strtol] does. *)
Fixpoint digits_acc (s : string) (acc : Z) : Z :=
  match s with
  | String c r =>
      match digit_of c with
      | Some d => digits_acc r (10 * acc + d)
      | None => acc
      end
  | EmptyString => acc
  end.

(** Leading white space, an optional sign, then digits. *)
Definition sign_and_digits (s : string) : bool * Z :=
  match skip_spaces s with
  | String "-" r => (true, digits_acc r 0)
  | String "+" r => (false, digits_acc r 0)
  | r => (false, digits_acc r 0)
  end.

(** [strtol (s, NULL, 10)]: saturates at the bounds of [long]. *)
Definition strtol (s : string) : Z :=
  let '(neg, m) := sign_and_digits s in
  let v := if neg then - m else m in
  Z.max LONG_MIN (Z.min LONG_MAX v).

(** [atoi (s)] is [(int) strtol (s, NULL, 10)]. *)
Definition atoi (s : string) : Z := to_int32 (strtol s).

(** [strtoul (s, NULL, 10)]: saturates at [ULONG_MAX]; a minus sign
    negates in unsigned arithmetic. *)
Definition strtoul (s : string) : Z :=
  let '(neg, m) := sign_and_digits s in
  if ULONG_MAX <? m then ULONG_MAX
  else if neg then (- m) mod 2 ^ 64 else m.

(** [strchr (s, d)]: the text before the first [d], and the text after
    it when there is one. *)
Fixpoint split_at (d : ascii) (s : string) : string * option string :=
  match s with
  | EmptyString => ("", None)
  | String c r =>
      if Ascii.eqb c d then ("", Some r)
      else let '(a, b) := split_at d r in (String c a, b)
  end.

(** The tokens that successive [strtok (_, d)] calls return: the
    maximal non-empty runs of bytes other than [d]. *)
Fixpoint strtok_from (d : ascii) (s : string) (cur : string) : list string :=
  match s with
  | EmptyString => if String.eqb cur "" then [] else [cur]
  | String c r =>
      if Ascii.eqb c d
      then (if String.eqb cur "" then strtok_from d r ""
            else cur :: strtok_from d r "")
      else strtok_from d r (cur +:+ String c "")
  end.

Definition strtok (s : string) (d : ascii) : list string := strtok_from d s "".

(** Whether a byte occurs in a string. *)
Fixpoint mem (d : ascii) (s : string) : bool :=
  match s with
  | EmptyString => false
  | String c r => Ascii.eqb c d || mem d r
  end.

End C.

(** ** Data model ([Oh.h]) *)

Record TextSegment := {
  text : string;
  fg_color : string;
  bg_color : string;
  bold : Z;
  visible_pos : Z
}.

Record LineData := {
  segments : list TextSegment;
  segment_count : Z;
  visible_length : Z
}.

(** [ansi_colors], with its terminator entry. *)
Definition ansi_colors : list (Z * string) :=
  [ (30, "#000000"); (31, "#cd3131"); (32, "#0dbc79"); (33, "#e5e510");
    (34, "#2472c8"); (35, "#bc3fbc"); (36, "#11a8cd"); (37, "#e5e5e5");
    (90, "#666666"); (91, "#f14c4c"); (92, "#23d18b"); (93, "#f5f543");
    (94, "#3b8eea"); (95, "#d670d6"); (96, "#29b8db"); (97, "#e5e5e5");
    (0, "") ].

Fixpoint get_ansi_color_from (table : list (Z * string)) (code : Z) : string :=
  match table with
  | [] => TEXT_COLOR
  | (c, color) :: more =>
      if (c =? 0) && String.eqb color "" then TEXT_COLOR
      else if c =? code then color
      else get_ansi_color_from more code
  end.

Definition get_ansi_color (code : Z) : string :=
  get_ansi_color_from ansi_colors code.

(** ** [Oh-parse.c] *)

(** [utf8_strlen]: the bytes that are not UTF-8 continuation bytes. *)
Fixpoint utf8_strlen (str : string) : Z :=
  match str with
  | EmptyString => 0
  | String p more =>
      (if Z.land (C.code p) 192 =? 128 then 0 else 1) + utf8_strlen more
  end.

(** The local variables of [parse_ansi_line] together with the record it
    fills in.  [current_text] holds the first [current_text_pos] bytes of
    the C buffer of that name. *)
Record ParseState := {
  line_data : LineData;
  fg : string;
  bg : string;
  is_bold : Z;
  cur_visible_pos : Z;
  current_text : string
}.

Definition current_text_pos (st : ParseState) : Z := C.strlen (current_text st).

(** The guard in front of both "save text" blocks. *)
Definition can_save (st : ParseState) : bool :=
  (0 <? current_text_pos st) && (segment_count (line_data st) <? MAX_SEGMENTS).

(** The body shared by both "save text" blocks: fill the next slot of the
    array, advance the visible position, count the segment. *)
Definition save_segment (st : ParseState) : ParseState :=
  let ld := line_data st in
  let seg := {| text := current_text st; fg_color := fg st; bg_color := bg st;
                bold := is_bold st; visible_pos := cur_visible_pos st |} in
  {| line_data :=
       {| segments := <[Z.to_nat (segment_count ld) := seg]> (segments ld);
          segment_count := segment_count ld + 1;
          visible_length := visible_length ld |};
     fg := fg st; bg := bg st; is_bold := is_bold st;
     cur_visible_pos := cur_visible_pos st + utf8_strlen (current_text st);
     current_text := current_text st |}.

Definition reset_text (st : ParseState) : ParseState :=
  {| line_data := line_data st; fg := fg st; bg := bg st; is_bold := is_bold st;
     cur_visible_pos := cur_visible_pos st; current_text := "" |}.

(** Lines 157-180: save the accumulated text in front of an escape. *)
Definition save_before_escape (st : ParseState) : ParseState :=
  if can_save st then reset_text (save_segment st) else st.

(** Lines 240-260: save the remaining text at the end of the line. *)
Definition save_remaining (st : ParseState) : ParseState :=
  if can_save st then save_segment st else st.

Definition set_style (f b : string) (bo : Z) (st : ParseState) : ParseState :=
  {| line_data := line_data st; fg := f; bg := b; is_bold := bo;
     cur_visible_pos := cur_visible_pos st; current_text := current_text st |}.

Definition reset_style (st : ParseState) : ParseState :=
  set_style TEXT_COLOR "" 0 st.

(** One SGR code (lines 208-225). *)
Definition apply_code (code : Z) (st : ParseState) : ParseState :=
  if code =? 0 then reset_style st
  else if code =? 1 then set_style (fg st) (bg st) 1 st
  else if (30 <=? code) && (code <=? 37) then set_style (get_ansi_color code) (bg st) (is_bold st) st
  else if (90 <=? code) && (code <=? 97) then set_style (get_ansi_color code) (bg st) (is_bold st) st
  else if (40 <=? code) && (code <=? 47) then set_style (fg st) (get_ansi_color (code - 10)) (is_bold st) st
  else st.

(** Lines 198-229: an empty body resets, otherwise every [;]-separated
    token is converted with [atoi] and applied in order. *)
Definition process_codes (codes : string) (st : ParseState) : ParseState :=
  if C.strlen codes =? 0 then reset_style st
  else fold_left (fun s code_str => apply_code (C.atoi code_str) s) (C.strtok codes ";") st.

(** Lines 189-191: copy bytes into [codes] up to an ['m'], the end of the
    line, or 63 bytes.  Returns the codes and the rest of the line. *)
Fixpoint scan_codes (ptr : string) (codes : string) : string * string :=
  match ptr with
  | EmptyString => (codes, ptr)
  | String c more =>
      if negb (Ascii.eqb c "m") && (C.strlen codes <? 64 - 1)
      then scan_codes more (codes +:+ String c "")
      else (codes, ptr)
  end.

(** Line 195: [if ( *ptr == 'm') ptr++]. *)
Definition skip_m (ptr : string) : string :=
  match ptr with
  | String "m" more => more
  | _ => ptr
  end.

(** Line 155: [*ptr == '\033' && *(ptr + 1) == '[']. *)
Definition at_introducer (c : ascii) (more : string) : bool :=
  Ascii.eqb c C.ESC &&
  match more with String "[" _ => true | _ => false end.

(** [ptr + 2] when [ptr] is [String c more]. *)
Definition after_introducer (more : string) : string :=
  match more with String _ body => body | EmptyString => "" end.

(** Lines 232-235: a regular byte. *)
Definition add_char (c : ascii) (st : ParseState) : ParseState :=
  if current_text_pos st <? MAX_LINE_LENGTH - 1
  then {| line_data := line_data st; fg := fg st; bg := bg st; is_bold := is_bold st;
          cur_visible_pos := cur_visible_pos st;
          current_text := current_text st +:+ String c "" |}
  else st.

(** Lines 183-195 at an introducer [ESC [ body]: what is copied into
    [codes], and where [ptr] stands afterwards. *)
Definition escape_codes (more : string) : string :=
  fst (scan_codes (after_introducer more) "").
Definition escape_rest (more : string) : string :=
  skip_m (snd (scan_codes (after_introducer more) "")).

(** The main loop (lines 154-237).  Every iteration consumes at least one
    byte of the line. *)
Equations? parse_loop (ptr : string) (st : ParseState) : ParseState
  by wf (String.length ptr) lt :=
parse_loop EmptyString st := st;
parse_loop (String c more) st with at_introducer c more := {
  | true := parse_loop (escape_rest more)
                       (process_codes (escape_codes more) (save_before_escape st));
  | false := parse_loop more (add_char c st) }.
Proof.
  assert (Hscan : forall p codes,
             (String.length (snd (scan_codes p codes)) <= String.length p)%nat).
  { induction p as [|d p IH]; intros codes; cbn; [lia|].
    destruct (negb (Ascii.eqb d "m") && (C.strlen codes <? 64 - 1)); cbn; [|lia].
    specialize (IH (codes +:+ String d "")). lia. }
  assert (Hskip : forall p, (String.length (skip_m p) <= String.length p)%nat).
  { intros [|d p]; cbn; [lia|]. destruct d as [[] [] [] [] [] [] [] []]; cbn; lia. }
  assert (Hafter : (String.length (after_introducer more) <= String.length more)%nat).
  { destruct more; cbn; lia. }
  unfold escape_rest.
  specialize (Hskip (snd (scan_codes (after_introducer more) ""))).
  specialize (Hscan (after_introducer more) ""). cbn. lia.
Qed.

(** Lines 138-150: the state in which the loop is entered.  The array
    keeps whatever the caller's record held. *)
Definition start_state (dst : LineData) : ParseState :=
  {| line_data := {| segments := segments dst; segment_count := 0; visible_length := 0 |};
     fg := TEXT_COLOR; bg := ""; is_bold := 0;
     cur_visible_pos := 0; current_text := "" |}.

(** Lines 239-263: what is left in the record once the loop has ended. *)
Definition finish (st : ParseState) : LineData :=
  let st := save_remaining st in
  {| segments := segments (line_data st);
     segment_count := segment_count (line_data st);
     visible_length := cur_visible_pos st |}.

(** Lines 138-263: the parse proper, writing into the caller's record. *)
Definition parse_fresh (line : string) (dst : LineData) : LineData :=
  finish (parse_loop line (start_state dst)).

Definition blank_segment : TextSegment :=
  {| text := ""; fg_color := ""; bg_color := ""; bold := 0; visible_pos := 0 |}.
Definition blank_line : LineData :=
  {| segments := replicate (Z.to_nat MAX_SEGMENTS) blank_segment;
     segment_count := 0; visible_length := 0 |}.

Definition valid_segments (ld : LineData) : list TextSegment :=
  take (Z.to_nat (segment_count ld)) (segments ld).

(** ** The world outside the process *)

(** JSON documents as the jansson library builds and reads them. *)
#[local] Unset Elimination Schemes.
Inductive json :=
| JNull
| JBool (b : bool)
| JInteger (z : Z)
| JString (s : string)
| JArray (items : list json)
| JObject (members : list (string * json)).
#[local] Set Elimination Schemes.

(** What a path of the file system holds: a complete JSON document, or a
    file that was opened for writing and not completed (it does not parse). *)
Inductive file_content :=
| FileJson (j : json)
| FileTruncated.

(** The collaborators the code calls out to.
    - [popen_fgets command]: the first line printed by [command] run
      through [popen], or [None] when [popen] or [fgets] fail.
    - [utf8_check_string]: the strings jansson accepts in [json_string].
    - [fopen_w]: whether a path can be opened for writing. *)
Record Env := {
  popen_fgets : string -> option string;
  utf8_check_string : string -> bool;
  fopen_w : string -> bool
}.

Module Jansson.

Definition json_string (env : Env) (value : string) : option json :=
  if utf8_check_string env value then Some (JString value) else None.

Definition json_integer (value : Z) : option json := Some (JInteger value).

Fixpoint set_member (key : string) (value : json) (members : list (string * json))
  : list (string * json) :=
  match members with
  | [] => [(key, value)]
  | (k, v) :: more =>
      if String.eqb k key then (k, value) :: more
      else (k, v) :: set_member key value more
  end.

(** [json_object_set_new]: an absent ([NULL]) value is an error and the
    object stays as it is. *)
Definition json_object_set_new (object : json) (key : string) (value : option json) : json :=
  match object, value with
  | JObject members, Some v => JObject (set_member key v members)
  | _, _ => object
  end.

(** [json_array_append_new]: likewise for an absent value. *)
Definition json_array_append_new (array : json) (value : option json) : json :=
  match array, value with
  | JArray items, Some v => JArray (items ++ [v])%list
  | _, _ => array
  end.

Fixpoint get_member (key : string) (members : list (string * json)) : option json :=
  match members with
  | [] => None
  | (k, v) :: more => if String.eqb k key then Some v else get_member key more
  end.

Definition json_object_get (object : json) (key : string) : option json :=
  match object with
  | JObject members => get_member key members
  | _ => None
  end.

(** The steps of [json_dump_file (json, path, flags)]: [fopen (path, "w")]
    empties the file, then the document is written and the file closed. *)
Inductive fs_step :=
| OpenTruncate (path : string)
| WriteDocument (path : string) (j : json)
| Rename (from to : string).

Definition run_step (fs : gmap string file_content) (step : fs_step)
  : gmap string file_content :=
  match step with
  | OpenTruncate path => <[path := FileTruncated]> fs
  | WriteDocument path j => <[path := FileJson j]> fs
  | Rename from to =>
      match fs !! from with
      | Some c => <[to := c]> (delete from fs)
      | None => fs
      end
  end.

Definition run_steps (steps : list fs_step) (fs : gmap string file_content)
  : gmap string file_content :=
  fold_left run_step steps fs.

Definition json_dump_file_steps (j : json) (path : string) : list fs_step :=
  [OpenTruncate path; WriteDocument path j].

Definition json_dump_file (env : Env) (fs : gmap string file_content)
    (j : json) (path : string) : Z * gmap string file_content :=
  if fopen_w env path then (0, run_steps (json_dump_file_steps j path) fs)
  else (-1, fs).

(** [json_load_file]: the document at [path], if the file holds one. *)
Definition json_load_file (fs : gmap string file_content) (path : string) : option json :=
  match fs !! path with
  | Some (FileJson j) => Some j
  | _ => None
  end.

End Jansson.

(** ** [Oh-cache.c] *)

Import Jansson.

(** The command line built at line 16. *)
Definition hash_command (input : string) : string :=
  C.snprintf (MAX_LINE_LENGTH + 50) ("printf '%s' '" +:+ input +:+ "' | cksum").

(** Lines 24-29: [hash = hash * 31 + *data] in [unsigned int]. *)
Fixpoint fallback_hash_from (data : string) (hash : Z) : Z :=
  match data with
  | EmptyString => hash
  | String d more => fallback_hash_from more (C.to_uint32 (hash * 31 + C.code d))
  end.

Definition fallback_hash (input : string) : Z := fallback_hash_from input 0.

(** [generate_hash]: [result] is a 64-byte buffer, so [fgets] keeps at
    most 63 bytes of the line. *)
Definition generate_hash (env : Env) (input : string) : Z :=
  match popen_fgets env (hash_command input) with
  | Some result => C.to_uint32 (C.strtoul (C.take 63 result))
  | None => fallback_hash input
  end.

Record Config := {
  input_file : string;
  output_file : string;
  font_family : string;
  font_size : Z;
  font_width : C.double;
  font_height : C.double;
  font_weight : Z;
  width : Z;
  height : Z;
  wrap : Z;
  tab_size : Z;
  font_width_explicit : Z;
  font_height_explicit : Z
}.

(** What ["%s|%d|%.2f|%.2f|%d|%d|%d|%s|%d|%s|%s|%d"] formats (lines 40-45). *)
Definition config_format (config : Config) : string :=
  let wrap_str := if wrap config =? 0 then "false" else "true" in
  font_family config +:+ "|" +:+ C.fmt_d (font_size config) +:+ "|" +:+
  C.fmt_2f (font_width config) +:+ "|" +:+ C.fmt_2f (font_height config) +:+ "|" +:+
  C.fmt_d (font_weight config) +:+ "|" +:+ C.fmt_d (width config) +:+ "|" +:+
  C.fmt_d (height config) +:+ "|" +:+ wrap_str +:+ "|" +:+
  C.fmt_d (tab_size config) +:+ "|" +:+ BG_COLOR +:+ "|" +:+ TEXT_COLOR +:+ "|" +:+
  C.fmt_d DEFAULT_PADDING.

(** The contents of [config_string], a 1024-byte buffer. *)
Definition config_string (config : Config) : string :=
  C.snprintf 1024 (config_format config).

Definition generate_config_hash (env : Env) (config : Config) : string :=
  C.snprintf MAX_HASH_LENGTH (C.fmt_u (generate_hash env (config_string config))).

Definition get_cache_key (line_hash config_hash : string) : string :=
  C.snprintf MAX_CACHE_KEY_LENGTH (config_hash +:+ "_" +:+ line_hash).

(** What ["%s|%s|%s|%s|%d"] formats at line 108. *)
Definition segment_format (seg : TextSegment) : string :=
  text seg +:+ "|" +:+ fg_color seg +:+ "|" +:+ bg_color seg +:+ "|" +:+
  (if bold seg =? 0 then "false" else "true") +:+ "|" +:+ C.fmt_d (visible_pos seg).

(** The contents of [segment_string], a [MAX_LINE_LENGTH * 2] byte buffer. *)
Definition segment_string (seg : TextSegment) : string :=
  C.snprintf (MAX_LINE_LENGTH * 2) (segment_format seg).

(** The path [cache_dir/cache_key.json] before it is cut to the buffer. *)
Definition cache_file_format (cache_dir cache_key : string) : string :=
  cache_dir +:+ "/" +:+ cache_key +:+ ".json".

(** The JSON document of lines 89-117. *)
Definition line_cache_json (env : Env) (now : Z) (cache_key : string)
    (line_data : LineData) : json :=
  let root := JObject [] in
  let root := json_object_set_new root "cache_key" (json_string env cache_key) in
  let root := json_object_set_new root "visible_length"
                (json_integer (visible_length line_data)) in
  let segments_array :=
    fold_left (fun array seg =>
                 json_array_append_new array (json_string env (segment_string seg)))
              (valid_segments line_data) (JArray []) in
  let root := json_object_set_new root "segments" (Some segments_array) in
  json_object_set_new root "timestamp" (json_integer now).

(** [save_line_cache]: the return value and the file system afterwards. *)
Definition save_line_cache (env : Env) (now : Z) (cache_dir : string)
    (fs : gmap string file_content) (cache_key : string) (line_data : LineData)
  : Z * gmap string file_content :=
  let cache_file := cache_file_format cache_dir cache_key in
  if MAX_PATH_LENGTH <=? C.strlen cache_file then (-1, fs)
  else json_dump_file env fs (line_cache_json env now cache_key line_data) cache_file.

(** The global variables of [Oh.c] that the cache code reads or writes.
    [hash_cache] holds the rows of the C array of that name. *)
Record Globals := {
  cache_dir : string;
  incremental_cache_file : string;
  cache_stats_segment_hits : Z;
  cache_stats_segment_misses : Z;
  cache_stats_svg_hits : Z;
  cache_stats_svg_misses : Z;
  input_lines : list string;
  hash_cache : list string;
  input_line_count : Z;
  global_input_hash : string;
  previous_input_hash : string
}.

Definition count_segment_hit (g : Globals) : Globals :=
  {| cache_dir := cache_dir g; incremental_cache_file := incremental_cache_file g;
     cache_stats_segment_hits := cache_stats_segment_hits g + 1;
     cache_stats_segment_misses := cache_stats_segment_misses g;
     cache_stats_svg_hits := cache_stats_svg_hits g;
     cache_stats_svg_misses := cache_stats_svg_misses g;
     input_lines := input_lines g; hash_cache := hash_cache g;
     input_line_count := input_line_count g;
     global_input_hash := global_input_hash g;
     previous_input_hash := previous_input_hash g |}.

Definition count_segment_miss (g : Globals) : Globals :=
  {| cache_dir := cache_dir g; incremental_cache_file := incremental_cache_file g;
     cache_stats_segment_hits := cache_stats_segment_hits g;
     cache_stats_segment_misses := cache_stats_segment_misses g + 1;
     cache_stats_svg_hits := cache_stats_svg_hits g;
     cache_stats_svg_misses := cache_stats_svg_misses g;
     input_lines := input_lines g; hash_cache := hash_cache g;
     input_line_count := input_line_count g;
     global_input_hash := global_input_hash g;
     previous_input_hash := previous_input_hash g |}.

(** Lines 210-223: at most five fields, each ended at the next ['|']. *)
Fixpoint split_fields (fields : nat) (current : string) : list string :=
  match fields with
  | O => []
  | S k =>
      match C.split_at "|" current with
      | (part, Some next) => part :: split_fields k next
      | (part, None) => [part]
      end
  end.

(** Lines 226-272: every field that was found is stored; the others keep
    what the slot held before.  The three [strcpy] calls have no bound:
    this is what they do for fields that fit their arrays (see
    [fields_fit] and [fits_struct]). *)
Definition fill_fields (parts : list string) (slot : TextSegment) : TextSegment :=
  {| text := default (text slot) (parts !! 0%nat);
     fg_color := default (fg_color slot) (parts !! 1%nat);
     bg_color := default (bg_color slot) (parts !! 2%nat);
     bold := match parts !! 3%nat with
             | Some p => if String.eqb p "true" then 1 else 0
             | None => bold slot
             end;
     visible_pos := match parts !! 4%nat with
                    | Some p => C.atoi p
                    | None => visible_pos slot
                    end |}.

(** Lines 196-274 for one string of the array. *)
Definition load_segment (segment_data : string) (line_data : LineData) : LineData :=
  let segment_copy := C.take (Z.to_nat (MAX_LINE_LENGTH * 2 - 1)) segment_data in
  let parts := split_fields 5 segment_copy in
  {| segments := alter (fill_fields parts) (Z.to_nat (segment_count line_data))
                       (segments line_data);
     segment_count := segment_count line_data + 1;
     visible_length := visible_length line_data |}.

(** One round of the loop at line 193. *)
Definition load_item (line_data : LineData) (item : json) : LineData :=
  if segment_count line_data <? MAX_SEGMENTS then
    match item with
    | JString segment_data => load_segment segment_data line_data
    | _ => line_data
    end
  else line_data.

(** Lines 179-277: fill the record from a parsed document. *)
Definition load_from_json (root : json) (dst : LineData) : LineData :=
  let line_data :=
    {| segments := segments dst; segment_count := 0;
       visible_length :=
         match json_object_get root "visible_length" with
         | Some (JInteger v) => C.to_int32 v
         | _ => 0
         end |} in
  match json_object_get root "segments" with
  | Some (JArray items) => fold_left load_item items line_data
  | _ => line_data
  end.

(** [load_line_cache]: return value, globals and destination afterwards. *)
Definition load_line_cache (g : Globals) (fs : gmap string file_content)
    (cache_key : string) (dst : LineData) : Z * Globals * LineData :=
  let cache_file := cache_file_format (cache_dir g) cache_key in
  if MAX_PATH_LENGTH <=? C.strlen cache_file then (-1, count_segment_miss g, dst)
  else
    match json_load_file fs cache_file with
    | None => (-1, count_segment_miss g, dst)
    | Some root => (0, count_segment_hit g, load_from_json root dst)
    end.

(** [parse_ansi_line] with its cache look-up in front (lines 108-136) and
    its cache write behind (lines 265-270).  A null [line_hash] or
    [config_hash] is [None]. *)
Definition parse_ansi_line (env : Env) (now : Z) (g : Globals)
    (fs : gmap string file_content) (line : string)
    (line_hash config_hash : option string) (dst : LineData)
  : Z * Globals * gmap string file_content * LineData :=
  let fresh g :=
    let line_data := parse_fresh line dst in
    match line_hash, config_hash with
    | Some lh, Some ch =>
        let '(_, fs') := save_line_cache env now (cache_dir g) fs (get_cache_key lh ch) line_data in
        (0, g, fs', line_data)
    | _, _ => (0, g, fs, line_data)
    end in
  match line_hash, config_hash with
  | Some lh, Some ch =>
      if (0 <? C.strlen lh) && (0 <? C.strlen ch) then
        match load_line_cache g fs (get_cache_key lh ch) dst with
        | (0, g', loaded) => (0, g', fs, loaded)
        | (_, g', _) => fresh g'
        end
      else fresh g
  | _, _ => fresh g
  end.

(** Lines 391-394 of [read_input]: one decimal hash per input line. *)
Definition hash_input_lines (env : Env) (lines : list string) : list string :=
  map (fun line => C.snprintf MAX_HASH_LENGTH (C.fmt_u (generate_hash env line))) lines.

(** [generate_global_input_hash]: the new value of [global_input_hash]. *)
Definition generate_global_input_hash (env : Env) (g : Globals) : string :=
  let combined_hashes :=
    fold_left (fun acc h => acc +:+ h)
              (take (Z.to_nat (input_line_count g)) (hash_cache g)) "" in
  C.snprintf MAX_HASH_LENGTH (C.fmt_u (generate_hash env combined_hashes)).

(** [load_incremental_cache]: return value and new [previous_input_hash]. *)
Definition load_incremental_cache (g : Globals) (fs : gmap string file_content)
  : Z * string :=
  match json_load_file fs (incremental_cache_file g) with
  | None => (-1, previous_input_hash g)
  | Some root =>
      match json_object_get root "global_input_hash" with
      | Some (JString hash_value) =>
          (0, C.take (Z.to_nat (MAX_HASH_LENGTH - 1)) hash_value)
      | _ => (0, previous_input_hash g)
      end
  end.

(** The JSON document of lines 439-473. *)
Definition incremental_cache_json (env : Env) (now : Z) (g : Globals)
    (config_hash : string) : json :=
  let root := JObject [] in
  let root := json_object_set_new root "global_input_hash"
                (json_string env (global_input_hash g)) in
  let root := json_object_set_new root "config_hash" (json_string env config_hash) in
  let root := json_object_set_new root "line_count" (json_integer (input_line_count g)) in
  let line_hashes_array :=
    fold_left (fun array h => json_array_append_new array (json_string env h))
              (take (Z.to_nat (input_line_count g)) (hash_cache g)) (JArray []) in
  let root := json_object_set_new root "line_hashes" (Some line_hashes_array) in
  let root := json_object_set_new root "timestamp" (json_integer now) in
  let cache_stats := JObject [] in
  let cache_stats := json_object_set_new cache_stats "segment_hits"
                       (json_integer (cache_stats_segment_hits g)) in
  let cache_stats := json_object_set_new cache_stats "segment_misses"
                       (json_integer (cache_stats_segment_misses g)) in
  let cache_stats := json_object_set_new cache_stats "svg_hits"
                       (json_integer (cache_stats_svg_hits g)) in
  let cache_stats := json_object_set_new cache_stats "svg_misses"
                       (json_integer (cache_stats_svg_misses g)) in
  json_object_set_new root "cache_stats" (Some cache_stats).

(** The file system operations [save_incremental_cache] performs when the
    file can be opened: those of its one [json_dump_file] call (line 476). *)
Definition save_incremental_cache_steps (env : Env) (now : Z) (g : Globals)
    (config_hash : string) : list fs_step :=
  json_dump_file_steps (incremental_cache_json env now g config_hash)
                       (incremental_cache_file g).

Definition save_incremental_cache (env : Env) (now : Z) (g : Globals)
    (fs : gmap string file_content) (config_hash : string)
  : Z * gmap string file_content :=
  json_dump_file env fs (incremental_cache_json env now g config_hash)
                 (incremental_cache_file g).

(** ** [Oh-parse.c]: tabs and XML escaping *)

(** The inner loop of [expand_tabs] (lines 15-17): [n] spaces. *)
Fixpoint spaces (n : nat) : string :=
  match n with
  | O => ""
  | S k => String " " (spaces k)
  end.

(** [expand_tabs] (lines 9-24): the string written to [output].  The
    function is given no size for [output]. *)
Fixpoint expand_tabs (input : string) (tab_size : Z) : string :=
  match input with
  | EmptyString => ""
  | String c src =>
      (if Ascii.eqb c "009" then spaces (Z.to_nat tab_size) else String c "")
      +:+ expand_tabs src tab_size
  end.

(** [size_t] is an unsigned 64-bit type; [output_size - 1] wraps at 0. *)
Definition to_size_t (z : Z) : Z := z mod 2 ^ 64.

(** The loop of [xml_escape] (lines 32-68) from [src] on, with [remaining]
    bytes left: the bytes written from [dst] on.  Every subtraction from
    [remaining] is behind a guard that keeps it from wrapping. *)
Fixpoint xml_escape_loop (src : string) (remaining : Z) : string :=
  match src with
  | EmptyString => ""
  | String c more =>
      if 5 <? remaining then
        if Ascii.eqb c "&" then
          if 5 <=? remaining then "&amp;" +:+ xml_escape_loop more (remaining - 5)
          else xml_escape_loop more remaining
        else if Ascii.eqb c "<" then
          if 4 <=? remaining then "&lt;" +:+ xml_escape_loop more (remaining - 4)
          else xml_escape_loop more remaining
        else if Ascii.eqb c ">" then
          if 4 <=? remaining then "&gt;" +:+ xml_escape_loop more (remaining - 4)
          else xml_escape_loop more remaining
        else if Ascii.eqb c "034" then
          if 6 <=? remaining then "&quot;" +:+ xml_escape_loop more (remaining - 6)
          else xml_escape_loop more remaining
        else if Ascii.eqb c "'" then
          if 6 <=? remaining then "&apos;" +:+ xml_escape_loop more (remaining - 6)
          else xml_escape_loop more remaining
        else String c (xml_escape_loop more (remaining - 1))
      else ""
  end.

(** [xml_escape] (lines 27-70): the string left in [output]. *)
Definition xml_escape (input : string) (output_size : Z) : string :=
  xml_escape_loop input (to_size_t (output_size - 1)).

(** The loop of [xml_escape_url] (lines 78-90). *)
Fixpoint xml_escape_url_loop (src : string) (remaining : Z) : string :=
  match src with
  | EmptyString => ""
  | String c more =>
      if 5 <? remaining then
        if Ascii.eqb c "&" then
          if 5 <=? remaining then "&amp;" +:+ xml_escape_url_loop more (remaining - 5)
          else xml_escape_url_loop more remaining
        else String c (xml_escape_url_loop more (remaining - 1))
      else ""
  end.

(** [xml_escape_url] (lines 73-92). *)
Definition xml_escape_url (input : string) (output_size : Z) : string :=
  xml_escape_url_loop input (to_size_t (output_size - 1)).

(** ** [Oh.c]: fonts and the grid *)

(** Further constants of [Oh.h]. *)
Definition MAX_URL_LENGTH : Z := 256.
Definition DEFAULT_FONT_SIZE : Z := 14.
Definition DEFAULT_WIDTH : Z := 80.
Definition DEFAULT_HEIGHT : Z := 0.
Definition DEFAULT_TAB_SIZE : Z := 8.
Definition DEFAULT_FONT_WEIGHT : Z := 400.

(** The rows of [font_ratios] and [google_fonts] in front of the
    terminator (lines 28-50). *)
Definition font_ratios : list (string * Z) :=
  [("Consolas", 60); ("Monaco", 60); ("Courier New", 60); ("Inconsolata", 60);
   ("JetBrains Mono", 55); ("Source Code Pro", 55); ("Fira Code", 58);
   ("Roboto Mono", 60); ("Ubuntu Mono", 50); ("Menlo", 60)].

Definition google_fonts : list (string * string) :=
  [("Inconsolata",
    "https://fonts.googleapis.com/css2?family=Inconsolata:wght@400;700&display=swap");
   ("JetBrains Mono",
    "https://fonts.googleapis.com/css2?family=JetBrains+Mono:wght@400;700&display=swap");
   ("Source Code Pro",
    "https://fonts.googleapis.com/css2?family=Source+Code+Pro:wght@400;700&display=swap");
   ("Fira Code",
    "https://fonts.googleapis.com/css2?family=Fira+Code:wght@400;700&display=swap");
   ("Roboto Mono",
    "https://fonts.googleapis.com/css2?family=Roboto+Mono:wght@400;700&display=swap")].

(** [get_font_ratio] (lines 287-294): the first row of that name, else 60. *)
Fixpoint get_font_ratio_from (rows : list (string * Z)) (font_family : string) : Z :=
  match rows with
  | [] => 60
  | (name, ratio) :: more =>
      if String.eqb name font_family then ratio else get_font_ratio_from more font_family
  end.

Definition get_font_ratio (font_family : string) : Z :=
  get_font_ratio_from font_ratios font_family.

(** [get_google_font_url] (lines 315-322); [None] is the null pointer. *)
Fixpoint get_google_font_url_from (rows : list (string * string)) (font_family : string)
  : option string :=
  match rows with
  | [] => None
  | (name, url) :: more =>
      if String.eqb name font_family then Some url
      else get_google_font_url_from more font_family
  end.

Definition get_google_font_url (font_family : string) : option string :=
  get_google_font_url_from google_fonts font_family.

(** The loop at lines 447-462 of [process_lines_single_pass], seen from the
    [visible_length] each call of [parse_ansi_line] left in [line_data[i]]:
    the running [max_width] and [max_width_line]. *)
Fixpoint longest_line_from (i : Z) (lengths : list Z) (max_width max_width_line : Z)
  : Z * Z :=
  match lengths with
  | [] => (max_width, max_width_line)
  | visible :: more =>
      if max_width <? visible then longest_line_from (i + 1) more visible i
      else longest_line_from (i + 1) more max_width max_width_line
  end.

Definition longest_line (lengths : list Z) : Z * Z :=
  longest_line_from 0 lengths 0 0.

(** Lines 475-482: the number of columns of the grid. *)
Definition grid_width (config_width max_width : Z) : Z :=
  if (config_width =? 80) && (80 <? max_width) then
    if 100 <? max_width then 100 else max_width
  else config_width.

(** ** [Oh-cache.c]: the key of an SVG fragment *)

(** [get_svg_fragment_cache_key] (lines 292-294). *)
Definition get_svg_fragment_cache_key (line_hash config_hash : string) (line_number : Z)
  : string :=
  C.snprintf MAX_CACHE_KEY_LENGTH
    ("svg_" +:+ config_hash +:+ "_" +:+ C.fmt_d line_number +:+ "_" +:+ line_hash).

(** ** [Oh.c]: the cache paths *)

(** [setup_cache_directories] (lines 270-284): the contents of
    [cache_dir], [svg_cache_dir] and [incremental_cache_file] for the value
    of [HOME]; [None] when [HOME] is not set and the program exits.  The
    two [mkdir] calls are left out: the file map has no directories. *)
Definition setup_cache_directories (home : option string)
  : option (string * string * string) :=
  match home with
  | None => None
  | Some home =>
      Some (C.snprintf MAX_PATH_LENGTH (home +:+ "/.cache/Oh"),
            C.snprintf MAX_PATH_LENGTH (home +:+ "/.cache/Oh/svg"),
            C.snprintf MAX_PATH_LENGTH (home +:+ "/.cache/Oh/incremental.json"))
  end.

(** ** [Oh.c]: reading the input *)

(** [fgets (line, size, stream)] on a stream that is not at its end, with
    [room = size - 1]: the bytes stored (through the first newline, at
    most [room]) and the rest of the stream. *)
Fixpoint fgets_from (room : nat) (stream : string) : string * string :=
  match room, stream with
  | S k, String c rest =>
      if Ascii.eqb c "010" then (String c "", rest)
      else let '(line, rest') := fgets_from k rest in (String c line, rest')
  | _, _ => ("", stream)
  end.

Definition fgets (size : Z) (stream : string) : string * string :=
  fgets_from (Z.to_nat (size - 1)) stream.
#[global] Arguments fgets : simpl never.

(** A buffer as a C string: the bytes in front of the first NUL. *)
Fixpoint until_nul (buffer : string) : string :=
  match buffer with
  | EmptyString => ""
  | String c more => if Ascii.eqb c "000" then "" else String c (until_nul more)
  end.

(** Lines 355-358: a final newline is overwritten by the terminator. *)
Definition strip_newline (line : string) : string :=
  let len := C.strlen line in
  if (0 <? len) &&
     match String.get (Z.to_nat (len - 1)) line with
     | Some c => Ascii.eqb c "010"
     | None => false
     end
  then C.take (Z.to_nat (len - 1)) line
  else line.

(** Lines 355-362: what one round of the loop stores in
    [input_lines[input_line_count]] for the bytes [fgets] delivered.
    [expanded_line] and the row have [MAX_LINE_LENGTH] bytes and
    [expand_tabs] and [strcpy] do not know it; this is what is stored for
    an expansion that fits them (see [expansions_fit]). *)
Definition read_line (chunk : string) (tab_size : Z) : string :=
  expand_tabs (strip_newline (until_nul chunk)) tab_size.

(** The loop at lines 354-364: [lines] are the rows stored so far.  At the end
    of the stream [fgets] returns [NULL]. *)
Equations? read_lines (stream : string) (tab_size : Z) (lines : list string)
  : list string by wf (String.length stream) lt :=
read_lines EmptyString tab_size lines := lines;
read_lines (String c more) tab_size lines :=
  if Z.of_nat (length lines) <? MAX_LINES then
    read_lines (snd (fgets MAX_LINE_LENGTH (String c more))) tab_size
               (lines ++ [read_line (fst (fgets MAX_LINE_LENGTH (String c more)))
                                    tab_size])%list
  else lines.
Proof.
  assert (Hrest : forall room s,
             (String.length (snd (fgets_from room s)) <= String.length s)%nat).
  { induction room as [|k IH]; intros [|d s]; cbn; try lia.
    destruct (Ascii.eqb d "010"); cbn; [lia|].
    specialize (IH s). destruct (fgets_from k s). cbn in *. lia. }
  unfold fgets.
  replace (Z.to_nat (MAX_LINE_LENGTH - 1)) with (S (Z.to_nat (MAX_LINE_LENGTH - 2)))
    by (unfold MAX_LINE_LENGTH; lia).
  generalize (Z.to_nat (MAX_LINE_LENGTH - 2)). intros room.
  cbn [fgets_from]. destruct (Ascii.eqb c "010"); cbn [snd String.length]; [lia|].
  specialize (Hrest room more).
  destruct (fgets_from room more). cbn [snd String.length] in *. lia.
Qed.

Definition set_height (h : Z) (config : Config) : Config :=
  {| input_file := input_file config; output_file := output_file config;
     font_family := font_family config; font_size := font_size config;
     font_width := font_width config; font_height := font_height config;
     font_weight := font_weight config; width := width config; height := h;
     wrap := wrap config; tab_size := tab_size config;
     font_width_explicit := font_width_explicit config;
     font_height_explicit := font_height_explicit config |}.

(** [read_input] (lines 336-402): return value, configuration and globals
    afterwards.  [open_r] gives the contents of a file that can be opened
    for reading, [stdin] the bytes of the standard input.  The rows of
    [input_lines] and [hash_cache] behind the lines read keep what they
    held.  The progress messages are left out. *)
Definition read_input (env : Env) (open_r : string -> option string) (stdin : string)
    (config : Config) (g : Globals) : Z * Config * Globals :=
  let input_source :=
    if 0 <? C.strlen (input_file config) then open_r (input_file config)
    else Some stdin in
  match input_source with
  | None => (-1, config, g)
  | Some stream =>
      let lines := read_lines stream (tab_size config) [] in
      let count := Z.of_nat (length lines) in
      let stored hashes :=
        {| cache_dir := cache_dir g; incremental_cache_file := incremental_cache_file g;
           cache_stats_segment_hits := cache_stats_segment_hits g;
           cache_stats_segment_misses := cache_stats_segment_misses g;
           cache_stats_svg_hits := cache_stats_svg_hits g;
           cache_stats_svg_misses := cache_stats_svg_misses g;
           input_lines := (lines ++ drop (length lines) (input_lines g))%list;
           hash_cache := hashes;
           input_line_count := count;
           global_input_hash := global_input_hash g;
           previous_input_hash := previous_input_hash g |} in
      if count =? 0 then (-1, config, stored (hash_cache g))
      else
        (0,
         if height config =? 0 then set_height count config else config,
         stored (hash_input_lines env lines ++ drop (length lines) (hash_cache g))%list)
  end.

(** ** Reference: the UTF-8 encoding

    The encoding of a code point in one to four bytes (RFC 3629).  This is
    not code of the program; it is what [utf8_strlen] is compared with. *)
Module Utf8.

Definition byte (z : Z) : ascii := ascii_of_N (Z.to_N z).

Definition continuation (z : Z) : ascii := byte (128 + z mod 64).

Definition encode (cp : Z) : string :=
  if cp <? 128 then String (byte cp) ""
  else if cp <? 2048 then
    String (byte (192 + cp / 64)) (String (continuation cp) "")
  else if cp <? 65536 then
    String (byte (224 + cp / 4096))
      (String (continuation (cp / 64)) (String (continuation cp) ""))
  else
    String (byte (240 + cp / 262144))
      (String (continuation (cp / 4096))
         (String (continuation (cp / 64)) (String (continuation cp) ""))).

Fixpoint encode_all (cps : list Z) : string :=
  match cps with
  | [] => ""
  | cp :: more => encode cp +:+ encode_all more
  end.

End Utf8.

(** ** Reference: the POSIX [cksum] checksum

    The algorithm of the POSIX [cksum] utility (IEEE Std 1003.1): the CRC
    with generator polynomial [0x04C11DB7], most significant bit first,
    initial value 0, over the bytes of the input followed by the input
    length (least significant byte first, as many bytes as the length
    needs), complemented at the end.  This is not code of the program; it
    is what [generate_hash] is compared with. *)
Module Cksum.

Fixpoint crc_bits (n : nat) (crc : Z) : Z :=
  match n with
  | O => crc
  | S k =>
      let shifted := Z.land (Z.shiftl crc 1) 0xFFFFFFFF in
      crc_bits k (if Z.testbit crc 31 then Z.lxor shifted 0x04C11DB7 else shifted)
  end.

Definition crc_byte (crc byte : Z) : Z :=
  crc_bits 8 (Z.lxor crc (Z.shiftl byte 24)).

Fixpoint crc_string (s : string) (crc : Z) : Z :=
  match s with
  | EmptyString => crc
  | String c more => crc_string more (crc_byte crc (C.code c))
  end.

Fixpoint crc_length (fuel : nat) (n : Z) (crc : Z) : Z :=
  match fuel with
  | O => crc
  | S k => if n =? 0 then crc
           else crc_length k (Z.shiftr n 8) (crc_byte crc (Z.land n 0xFF))
  end.

Definition posix_cksum (input : string) : Z :=
  let crc := crc_string input 0 in
  let crc := crc_length 8 (C.strlen input) crc in
  Z.land (Z.lxor crc 0xFFFFFFFF) 0xFFFFFFFF.

(** The line the utility prints for input read from a pipe. *)
Definition cksum_line (input : string) : string :=
  C.fmt_u (posix_cksum input) +:+ " " +:+ C.fmt_u (C.strlen input) +:+ String "010" "".

End Cksum.

(** ** Vocabulary of the statements *)

(** The record handed to the parser has the array of the C type. *)
Definition array_ok (ld : LineData) : Prop :=
  length (segments ld) = Z.to_nat MAX_SEGMENTS.

(** Whether the byte pair [ESC '['] occurs in a line. *)
Fixpoint has_introducer (s : string) : bool :=
  match s with
  | EmptyString => false
  | String c more => at_introducer c more || has_introducer more
  end.

(** Consecutive segments from column [pos] up to column [stop]. *)
Fixpoint tiles (pos : Z) (segs : list TextSegment) (stop : Z) : Prop :=
  match segs with
  | [] => pos = stop
  | seg :: more =>
      visible_pos seg = pos /\ tiles (pos + utf8_strlen (text seg)) more stop
  end.

(** The code points of a list of segments. *)
Fixpoint total_codepoints (segs : list TextSegment) : Z :=
  match segs with
  | [] => 0
  | seg :: more => utf8_strlen (text seg) + total_codepoints more
  end.

(** One iteration of the loop of [parse_ansi_line] on the rest of the
    line and the state; [Nat.iter n loop_step] is where the function stands
    after [n] iterations. *)
Definition loop_step (at_ : string * ParseState) : string * ParseState :=
  match at_ with
  | (EmptyString, st) => (EmptyString, st)
  | (String c more, st) =>
      if at_introducer c more
      then (escape_rest more, process_codes (escape_codes more) (save_before_escape st))
      else (more, add_char c st)
  end.

Fixpoint repeat_string (n : nat) (s : string) : string :=
  match n with
  | O => ""
  | S k => s +:+ repeat_string k s
  end.

(** The regular-byte branch of the loop applied to every byte of [s]. *)
Fixpoint add_chars (s : string) (st : ParseState) : ParseState :=
  match s with
  | EmptyString => st
  | String c more => add_chars more (add_char c st)
  end.

(** The value of a decimal numeral read most significant digit first on
    top of [acc], as [strtol] reads it. *)
Fixpoint uint_acc (d : uint) (acc : Z) : Z :=
  match d with
  | Nil => acc
  | D0 l => uint_acc l (10 * acc + 0)
  | D1 l => uint_acc l (10 * acc + 1)
  | D2 l => uint_acc l (10 * acc + 2)
  | D3 l => uint_acc l (10 * acc + 3)
  | D4 l => uint_acc l (10 * acc + 4)
  | D5 l => uint_acc l (10 * acc + 5)
  | D6 l => uint_acc l (10 * acc + 6)
  | D7 l => uint_acc l (10 * acc + 7)
  | D8 l => uint_acc l (10 * acc + 8)
  | D9 l => uint_acc l (10 * acc + 9)
  end.

(** Whether a string starts with a decimal digit. *)
Definition starts_with_digit (s : string) : bool :=
  match s with
  | String c _ => match C.digit_of c with Some _ => true | None => false end
  | EmptyString => false
  end.

(** A segment as the C type holds it: strings shorter than their arrays,
    an [int] position. *)
Definition fits_struct (seg : TextSegment) : bool :=
  (C.strlen (text seg) <? MAX_LINE_LENGTH) &&
  (C.strlen (fg_color seg) <? MAX_COLOR_LENGTH) &&
  (C.strlen (bg_color seg) <? MAX_COLOR_LENGTH) &&
  C.is_int (bold seg) && C.is_int (visible_pos seg).

(** A segment that the five-field format can carry: no ['|'] in its
    strings, and a [bold] flag that is 0 or 1. *)
Definition storable (seg : TextSegment) : bool :=
  negb (C.mem "|" (text seg)) && negb (C.mem "|" (fg_color seg)) &&
  negb (C.mem "|" (bg_color seg)) && ((bold seg =? 0) || (bold seg =? 1)).

(** An environment for examples: no [cksum] answer, every string accepted
    by jansson, every file writable. *)
Definition plain_env : Env :=
  {| popen_fgets := fun _ => None;
     utf8_check_string := fun _ => true;
     fopen_w := fun _ => true |}.

Definition plain_globals : Globals :=
  {| cache_dir := "/home/u/.cache/Oh";
     incremental_cache_file := "/home/u/.cache/Oh/incremental.json";
     cache_stats_segment_hits := 0; cache_stats_segment_misses := 0;
     cache_stats_svg_hits := 0; cache_stats_svg_misses := 0;
     input_lines := []; hash_cache := []; input_line_count := 0;
     global_input_hash := ""; previous_input_hash := "" |}.

(** A record with the given segments in the first slots of its array. *)
Definition line_of (segs : list TextSegment) (vl : Z) : LineData :=
  {| segments := (segs ++ replicate (Z.to_nat MAX_SEGMENTS - length segs) blank_segment)%list;
     segment_count := Z.of_nat (length segs);
     visible_length := vl |}.

(** The integer and the floating-point fields of [Config] that
    [generate_config_hash] prints. *)
Inductive int_field := FontSize | FontWeight | Width | Height | TabSize.
Inductive double_field := FontWidth | FontHeight.

Definition get_int (f : int_field) (c : Config) : Z :=
  match f with
  | FontSize => font_size c
  | FontWeight => font_weight c
  | Width => width c
  | Height => height c
  | TabSize => tab_size c
  end.

Definition set_int (f : int_field) (v : Z) (c : Config) : Config :=
  {| input_file := input_file c; output_file := output_file c;
     font_family := font_family c;
     font_size := match f with FontSize => v | _ => font_size c end;
     font_width := font_width c; font_height := font_height c;
     font_weight := match f with FontWeight => v | _ => font_weight c end;
     width := match f with Width => v | _ => width c end;
     height := match f with Height => v | _ => height c end;
     wrap := wrap c;
     tab_size := match f with TabSize => v | _ => tab_size c end;
     font_width_explicit := font_width_explicit c;
     font_height_explicit := font_height_explicit c |}.

Definition get_double (f : double_field) (c : Config) : C.double :=
  match f with
  | FontWidth => font_width c
  | FontHeight => font_height c
  end.

Definition set_double (f : double_field) (x : C.double) (c : Config) : Config :=
  {| input_file := input_file c; output_file := output_file c;
     font_family := font_family c; font_size := font_size c;
     font_width := match f with FontWidth => x | _ => font_width c end;
     font_height := match f with FontHeight => x | _ => font_height c end;
     font_weight := font_weight c; width := width c; height := height c;
     wrap := wrap c; tab_size := tab_size c;
     font_width_explicit := font_width_explicit c;
     font_height_explicit := font_height_explicit c |}.

Definition set_font_width_explicit (v : Z) (c : Config) : Config :=
  {| input_file := input_file c; output_file := output_file c;
     font_family := font_family c; font_size := font_size c;
     font_width := font_width c; font_height := font_height c;
     font_weight := font_weight c; width := width c; height := height c;
     wrap := wrap c; tab_size := tab_size c;
     font_width_explicit := v;
     font_height_explicit := font_height_explicit c |}.

(** Two configurations with the same values in the fields that
    [generate_config_hash] prints. *)
Definition same_printed_fields (c1 c2 : Config) : Prop :=
  font_family c1 = font_family c2 /\ font_size c1 = font_size c2 /\
  font_width c1 = font_width c2 /\ font_height c1 = font_height c2 /\
  font_weight c1 = font_weight c2 /\ width c1 = width c2 /\
  height c1 = height c2 /\ wrap c1 = wrap c2 /\ tab_size c1 = tab_size c2.

(** The defaults of [parse_arguments] with a font of 8.5 by 17 pixels. *)
Definition default_config : Config :=
  {| input_file := ""; output_file := ""; font_family := "Consolas";
     font_size := 14;
     font_width := {| C.mantissa := 17; C.exponent := -1 |};
     font_height := {| C.mantissa := 17; C.exponent := 0 |};
     font_weight := 400; width := 80; height := 0; wrap := 0; tab_size := 8;
     font_width_explicit := 0; font_height_explicit := 0 |}.

(** The argument between the quotes of a command
    [printf '%s' '...' | cksum], when the command has that shape and the
    argument has no quote of its own. *)
Definition quoted_argument (command : string) : option string :=
  let head := "printf '%s' '" in
  let tail := "' | cksum" in
  let n := String.length command in
  let h := String.length head in
  let t := String.length tail in
  if String.prefix head command && (h + t <=? n)%nat &&
     String.eqb (substring (n - t) t command) tail
  then let arg := substring h (n - h - t) command in
       if C.mem "'" arg then None else Some arg
  else None.

(** An environment in which the shell and [cksum] are there and do what
    POSIX says, for commands of the shape above. *)
Definition cksum_env : Env :=
  {| popen_fgets := fun command =>
       match quoted_argument command with
       | Some arg => Some (Cksum.cksum_line arg)
       | None => None
       end;
     utf8_check_string := fun _ => true;
     fopen_w := fun _ => true |}.

(** The globals after [read_input] has stored and hashed [lines]. *)
Definition after_read_input (env : Env) (lines : list string) : Globals :=
  {| cache_dir := cache_dir plain_globals;
     incremental_cache_file := incremental_cache_file plain_globals;
     cache_stats_segment_hits := 0; cache_stats_segment_misses := 0;
     cache_stats_svg_hits := 0; cache_stats_svg_misses := 0;
     input_lines := lines;
     hash_cache := hash_input_lines env lines;
     input_line_count := Z.of_nat (length lines);
     global_input_hash := ""; previous_input_hash := "" |}.

(** The global fingerprint of a run over [lines]. *)
Definition run_fingerprint (env : Env) (lines : list string) : string :=
  generate_global_input_hash env (after_read_input env lines).

(** The string [generate_global_input_hash] hashes in a run over [lines]
    (lines 384-389): the decimal line hashes one behind the other, with
    nothing between them. *)
Definition combined_hashes (env : Env) (lines : list string) : string :=
  fold_left (fun acc h => acc +:+ h) (hash_input_lines env lines) "".

(** Two lines of five bytes that differ by the generator polynomial of
    the CRC. *)
Definition line_a : string := "aaaaa".
Definition line_b : string :=
  String "`" (String "e" (String "160" (String "|" (String "214" "")))).

(** The invariant of the loop: the array is whole, the count is within
    it, and the segments written so far tile the columns from 0 to the
    running visible position. *)
Definition tiled (st : ParseState) : Prop :=
  array_ok (line_data st) /\
  0 <= segment_count (line_data st) <= MAX_SEGMENTS /\
  tiles 0 (valid_segments (line_data st)) (cur_visible_pos st).

(** Whether a file system step is a rename. *)
Definition is_rename (step : fs_step) : bool :=
  match step with
  | Rename _ _ => true
  | _ => false
  end.

(** What [parse_ansi_line] can leave in a style variable: a colour of the
    palette, seven bytes without a ['|']. *)
Definition palette_color (s : string) : Prop :=
  C.strlen s = 7 /\ C.mem "|" s = false.

(** A segment as the parser writes it. *)
Definition emitted_ok (seg : TextSegment) : Prop :=
  text seg <> "" /\
  C.strlen (text seg) <= MAX_LINE_LENGTH - 1 /\
  palette_color (fg_color seg) /\
  (bg_color seg = "" \/ palette_color (bg_color seg)) /\
  (bold seg = 0 \/ bold seg = 1).

(** The style variables and the text buffer between two iterations. *)
Definition style_ok (st : ParseState) : Prop :=
  palette_color (fg st) /\
  (bg st = "" \/ palette_color (bg st)) /\
  (is_bold st = 0 \/ is_bold st = 1) /\
  C.strlen (current_text st) <= MAX_LINE_LENGTH - 1.

Definition sound (st : ParseState) : Prop :=
  tiled st /\ style_ok st /\ Forall emitted_ok (valid_segments (line_data st)).

(** No byte [d] in the text buffer or in a segment written so far. *)
Definition free_of (d : ascii) (st : ParseState) : Prop :=
  C.mem d (current_text st) = false /\
  Forall (fun seg => C.mem d (text seg) = false) (valid_segments (line_data st)).

(** The number of tab bytes of a string. *)
Fixpoint count_tabs (s : string) : Z :=
  match s with
  | EmptyString => 0
  | String c more => (if Ascii.eqb c "009" then 1 else 0) + count_tabs more
  end.

(** A string with every byte replaced by what [entity] gives for it. *)
Fixpoint escape_all (entity : ascii -> string) (s : string) : string :=
  match s with
  | EmptyString => ""
  | String c more => entity c +:+ escape_all entity more
  end.

(** What [xml_escape] and [xml_escape_url] write for one byte. *)
Definition xml_entity (c : ascii) : string :=
  if Ascii.eqb c "&" then "&amp;"
  else if Ascii.eqb c "<" then "&lt;"
  else if Ascii.eqb c ">" then "&gt;"
  else if Ascii.eqb c "034" then "&quot;"
  else if Ascii.eqb c "'" then "&apos;"
  else String c "".

Definition url_entity (c : ascii) : string :=
  if Ascii.eqb c "&" then "&amp;" else String c "".

(** No ['<'], ['>'], double or single quote in a string. *)
Definition markup_free (s : string) : Prop :=
  C.mem "<" s = false /\ C.mem ">" s = false /\
  C.mem "034" s = false /\ C.mem "'" s = false.

(** A line that [read_input] stores as it is: no newline, tab or NUL
    byte, and short enough for [fgets] to deliver it with its newline. *)
Definition clean_line (line : string) : Prop :=
  C.mem "010" line = false /\ C.mem "009" line = false /\ C.mem "000" line = false /\
  C.strlen line < MAX_LINE_LENGTH - 1.

(** Lines with a newline behind each. *)
Fixpoint join_lines (lines : list string) : string :=
  match lines with
  | [] => ""
  | line :: more => line +:+ String "010" (join_lines more)
  end.

(** What is read from the bytes behind the last newline. *)
Definition unterminated (last : string) : list string :=
  match last with
  | EmptyString => []
  | String _ _ => [last]
  end.

(** ** [Oh.c]: the command line *)

(** How [parse_arguments] ends: with 0 and the configuration and
    [debug_mode] it has set, with -1, or in [exit (0)] after the help or
    version text.  [NotFinite] is no result of the C function: it marks
    where the model stops, at an [atof] result that is an infinity or NaN,
    which [C.double] cannot hold (the C function compares it with 1.0 and
    stores it). *)
Inductive arguments_result :=
| Parsed (config : Config) (debug_mode : Z)
| Failed
| Exited
| NotFinite.

(** Lines 137-149. *)
Definition initial_config : Config :=
  {| input_file := ""; output_file := ""; font_family := "Consolas";
     font_size := DEFAULT_FONT_SIZE;
     font_width := {| C.mantissa := 0; C.exponent := 0 |};
     font_height := {| C.mantissa := 0; C.exponent := 0 |};
     font_weight := DEFAULT_FONT_WEIGHT; width := DEFAULT_WIDTH;
     height := DEFAULT_HEIGHT; wrap := 0; tab_size := DEFAULT_TAB_SIZE;
     font_width_explicit := 0; font_height_explicit := 0 |}.

(** [d < 1.0]. *)
Definition lt_one (d : C.double) : bool :=
  if 0 <=? C.exponent d then C.mantissa d * 2 ^ C.exponent d <? 1
  else C.mantissa d <? 2 ^ (- C.exponent d).

Definition set_input_file (v : string) (c : Config) : Config :=
  {| input_file := v; output_file := output_file c;
     font_family := font_family c; font_size := font_size c;
     font_width := font_width c; font_height := font_height c;
     font_weight := font_weight c; width := width c; height := height c;
     wrap := wrap c; tab_size := tab_size c;
     font_width_explicit := font_width_explicit c;
     font_height_explicit := font_height_explicit c |}.

Definition set_output_file (v : string) (c : Config) : Config :=
  {| input_file := input_file c; output_file := v;
     font_family := font_family c; font_size := font_size c;
     font_width := font_width c; font_height := font_height c;
     font_weight := font_weight c; width := width c; height := height c;
     wrap := wrap c; tab_size := tab_size c;
     font_width_explicit := font_width_explicit c;
     font_height_explicit := font_height_explicit c |}.

Definition set_font_family (v : string) (c : Config) : Config :=
  {| input_file := input_file c; output_file := output_file c;
     font_family := v; font_size := font_size c;
     font_width := font_width c; font_height := font_height c;
     font_weight := font_weight c; width := width c; height := height c;
     wrap := wrap c; tab_size := tab_size c;
     font_width_explicit := font_width_explicit c;
     font_height_explicit := font_height_explicit c |}.

Definition set_wrap (v : Z) (c : Config) : Config :=
  {| input_file := input_file c; output_file := output_file c;
     font_family := font_family c; font_size := font_size c;
     font_width := font_width c; font_height := font_height c;
     font_weight := font_weight c; width := width c; height := height c;
     wrap := v; tab_size := tab_size c;
     font_width_explicit := font_width_explicit c;
     font_height_explicit := font_height_explicit c |}.

Definition set_font_height_explicit (v : Z) (c : Config) : Config :=
  {| input_file := input_file c; output_file := output_file c;
     font_family := font_family c; font_size := font_size c;
     font_width := font_width c; font_height := font_height c;
     font_weight := font_weight c; width := width c; height := height c;
     wrap := wrap c; tab_size := tab_size c;
     font_width_explicit := font_width_explicit c;
     font_height_explicit := v |}.

(** The loop at lines 151-264 over [argv[i]], [argv[i + 1]], ...  The
    [strcpy] calls have no bound; this is what they do for arguments that
    fit their arrays (see [arguments_in_model]). *)
Fixpoint parse_options (atof : string -> option C.double) (args : list string)
    (config : Config) (debug_mode : Z) : arguments_result :=
  match args with
  | [] => Parsed config debug_mode
  | arg :: rest =>
      if String.eqb arg "-h" || String.eqb arg "--help" then Exited
      else if String.eqb arg "-v" || String.eqb arg "--version" then Exited
      else if String.eqb arg "-i" || String.eqb arg "--input" then
        match rest with
        | [] => Failed
        | value :: rest' =>
            parse_options atof rest' (set_input_file value config) debug_mode
        end
      else if String.eqb arg "-o" || String.eqb arg "--output" then
        match rest with
        | [] => Failed
        | value :: rest' =>
            parse_options atof rest' (set_output_file value config) debug_mode
        end
      else if String.eqb arg "--font" then
        match rest with
        | [] => Failed
        | value :: rest' =>
            parse_options atof rest' (set_font_family value config) debug_mode
        end
      else if String.eqb arg "--font-size" then
        match rest with
        | [] => Failed
        | value :: rest' =>
            let size := C.atoi value in
            if (size <? 8) || (72 <? size) then Failed
            else parse_options atof rest' (set_int FontSize size config) debug_mode
        end
      else if String.eqb arg "--font-width" then
        match rest with
        | [] => Failed
        | value :: rest' =>
            match atof value with
            | None => NotFinite
            | Some width =>
                if lt_one width then Failed
                else parse_options atof rest'
                       (set_font_width_explicit 1 (set_double FontWidth width config))
                       debug_mode
            end
        end
      else if String.eqb arg "--font-height" then
        match rest with
        | [] => Failed
        | value :: rest' =>
            match atof value with
            | None => NotFinite
            | Some height =>
                if lt_one height then Failed
                else parse_options atof rest'
                       (set_font_height_explicit 1 (set_double FontHeight height config))
                       debug_mode
            end
        end
      else if String.eqb arg "--font-weight" then
        match rest with
        | [] => Failed
        | value :: rest' =>
            let weight := C.atoi value in
            if (weight <? 100) || (900 <? weight) then Failed
            else parse_options atof rest' (set_int FontWeight weight config) debug_mode
        end
      else if String.eqb arg "--width" then
        match rest with
        | [] => Failed
        | value :: rest' =>
            let width := C.atoi value in
            if width <? 1 then Failed
            else parse_options atof rest' (set_int Width width config) debug_mode
        end
      else if String.eqb arg "--height" then
        match rest with
        | [] => Failed
        | value :: rest' =>
            let height := C.atoi value in
            if height <? 1 then Failed
            else parse_options atof rest' (set_int Height height config) debug_mode
        end
      else if String.eqb arg "--wrap" then
        parse_options atof rest (set_wrap 1 config) debug_mode
      else if String.eqb arg "--tab-size" then
        match rest with
        | [] => Failed
        | value :: rest' =>
            let tab_size := C.atoi value in
            if (tab_size <? 1) || (16 <? tab_size) then Failed
            else parse_options atof rest' (set_int TabSize tab_size config) debug_mode
        end
      else if String.eqb arg "--debug" then
        parse_options atof rest config 1
      else Failed
  end.

(** [parse_arguments] (lines 135-267); [argv] begins with the program
    name, [debug_mode] is the value of the global before the call. *)
Definition parse_arguments (atof : string -> option C.double) (argv : list string)
    (debug_mode : Z) : arguments_result :=
  parse_options atof (tail argv) initial_config debug_mode.

(** The ranges [parse_arguments] enforces. *)
Definition validated (c : Config) : Prop :=
  8 <= font_size c <= 72 /\
  100 <= font_weight c <= 900 /\
  1 <= width c /\
  (height c = 0 \/ 1 <= height c) /\
  1 <= tab_size c <= 16 /\
  (wrap c = 0 \/ wrap c = 1) /\
  (font_width_explicit c = 0 \/
   font_width_explicit c = 1 /\ lt_one (font_width c) = false) /\
  (font_height_explicit c = 0 \/
   font_height_explicit c = 1 /\ lt_one (font_height c) = false).

(** The arguments on which the model is the program.  Every [strcpy] of
    an argument stays inside its array: each argument is shorter than
    [MAX_PATH_LENGTH] ([input_file], [output_file]) and the one behind
    [--font] is shorter than [MAX_FONT_NAME_LENGTH] ([font_family]).  And
    [atof] gives a finite number for each argument, so that [NotFinite]
    does not arise (the C function has no such result: it stores the
    infinity or NaN). *)
Fixpoint arguments_in_model (atof : string -> option C.double) (args : list string)
  : bool :=
  match args with
  | [] => true
  | arg :: rest =>
      (C.strlen arg <? MAX_PATH_LENGTH) &&
      match atof arg with Some _ => true | None => false end &&
      (if String.eqb arg "--font" then
         match rest with
         | value :: _ => C.strlen value <? MAX_FONT_NAME_LENGTH
         | [] => true
         end
       else true) &&
      arguments_in_model atof rest
  end.

(** The strings of a configuration fit their arrays. *)
Definition strings_fit (c : Config) : Prop :=
  C.strlen (input_file c) < MAX_PATH_LENGTH /\
  C.strlen (output_file c) < MAX_PATH_LENGTH /\
  C.strlen (font_family c) < MAX_FONT_NAME_LENGTH.

(** Two states of the parser that differ at most in the slots of the
    array that hold no segment yet. *)
Definition same_progress (st st' : ParseState) : Prop :=
  fg st = fg st' /\ bg st = bg st' /\ is_bold st = is_bold st' /\
  cur_visible_pos st = cur_visible_pos st' /\ current_text st = current_text st' /\
  segment_count (line_data st) = segment_count (line_data st') /\
  valid_segments (line_data st) = valid_segments (line_data st') /\
  array_ok (line_data st) /\ array_ok (line_data st') /\
  0 <= segment_count (line_data st) <= MAX_SEGMENTS.

(** The fields of a segment string fit the arrays [load_line_cache]
    copies them into with [strcpy] (lines 227, 236, 245): the text is
    shorter than [MAX_LINE_LENGTH], the colours than [MAX_COLOR_LENGTH].
    On other strings the program writes outside the arrays and
    [fill_fields] is not what it does. *)
Definition fields_fit (segment_data : string) : bool :=
  let parts := split_fields 5 (C.take (Z.to_nat (MAX_LINE_LENGTH * 2 - 1)) segment_data) in
  match parts !! 0%nat with Some p => C.strlen p <? MAX_LINE_LENGTH | None => true end &&
  match parts !! 1%nat with Some p => C.strlen p <? MAX_COLOR_LENGTH | None => true end &&
  match parts !! 2%nat with Some p => C.strlen p <? MAX_COLOR_LENGTH | None => true end.

Definition item_fits (item : json) : bool :=
  match item with
  | JString segment_data => fields_fit segment_data
  | _ => true
  end.

(** A cache document all of whose segment strings have fields that fit. *)
Definition document_fits (root : json) : bool :=
  match json_object_get root "segments" with
  | Some (JArray items) => forallb item_fits items
  | _ => true
  end.

(** No line read from [stream] expands beyond [MAX_LINE_LENGTH - 1]
    bytes.  [expanded_line] and a row of [input_lines] have
    [MAX_LINE_LENGTH] bytes (Oh.c, lines 360-362); on other input the
    program writes outside them and [read_line] is not what it does.
    Input without a tab is of this kind. *)
Definition expansions_fit (stream : string) (tab_size : Z) : bool :=
  forallb (fun line => C.strlen line <? MAX_LINE_LENGTH) (read_lines stream tab_size []).



(** ** Strings *)

Lemma append_cons c s t : String c s +:+ t = String c (s +:+ t).
Proof. reflexivity. Qed.

Lemma append_nil_l s : "" +:+ s = s.
Proof. reflexivity. Qed.

Lemma append_nil_r s : s +:+ "" = s.
Proof. induction s as [|c s IH]; [reflexivity|]. now rewrite append_cons, IH. Qed.

Lemma append_assoc s t u : (s +:+ t) +:+ u = s +:+ (t +:+ u).
Proof. induction s as [|c s IH]; [reflexivity|]. now rewrite !append_cons, IH. Qed.

Lemma length_append s t :
  String.length (s +:+ t) = (String.length s + String.length t)%nat.
Proof. induction s as [|c s IH]; [reflexivity|]. rewrite append_cons. cbn. now rewrite IH. Qed.

Lemma take_all n s : (String.length s <= n)%nat -> C.take n s = s.
Proof.
  revert n; induction s as [|c s IH]; intros [|n] H; cbn in *; try reflexivity; try lia.
  rewrite IH; [reflexivity | lia].
Qed.

Lemma snprintf_fits size s : C.strlen s < size -> C.snprintf size s = s.
Proof. unfold C.snprintf, C.strlen. intros H. apply take_all. lia. Qed.

Lemma mem_append d s t : C.mem d (s +:+ t) = C.mem d s || C.mem d t.
Proof.
  induction s as [|c s IH]; [reflexivity|].
  rewrite append_cons. cbn. now rewrite IH, orb_assoc.
Qed.

Lemma utf8_strlen_nonneg s : 0 <= utf8_strlen s.
Proof.
  induction s as [|c s IH]; cbn; [lia|].
  destruct (Z.land (C.code c) 192 =? 128); lia.
Qed.

Lemma utf8_strlen_append s t : utf8_strlen (s +:+ t) = utf8_strlen s + utf8_strlen t.
Proof. induction s as [|c s IH]; [reflexivity|]. rewrite append_cons. cbn. lia. Qed.

(** ** The parser *)

Lemma scan_codes_rest_length ptr codes :
  (String.length (snd (scan_codes ptr codes)) <= String.length ptr)%nat.
Proof.
  revert codes; induction ptr as [|c more IH]; intros codes; cbn; [lia|].
  destruct (negb (Ascii.eqb c "m") && (C.strlen codes <? 64 - 1)); cbn; [|lia].
  specialize (IH (codes +:+ String c "")). lia.
Qed.

Lemma skip_m_length ptr : (String.length (skip_m ptr) <= String.length ptr)%nat.
Proof.
  destruct ptr as [|c more]; cbn; [lia|].
  destruct c as [[] [] [] [] [] [] [] []]; cbn; lia.
Qed.

Lemma after_introducer_length more :
  (String.length (after_introducer more) <= String.length more)%nat.
Proof. destruct more; cbn; lia. Qed.

Lemma escape_rest_length more :
  (String.length (escape_rest more) <= String.length more)%nat.
Proof.
  unfold escape_rest.
  pose proof (skip_m_length (snd (scan_codes (after_introducer more) ""))).
  pose proof (scan_codes_rest_length (after_introducer more) "").
  pose proof (after_introducer_length more).
  lia.
Qed.

Lemma parse_loop_end st : parse_loop "" st = st.
Proof. now simp parse_loop. Qed.

Lemma parse_loop_escape c more st :
  at_introducer c more = true ->
  parse_loop (String c more) st =
  parse_loop (escape_rest more) (process_codes (escape_codes more) (save_before_escape st)).
Proof. intros H. simp parse_loop. rewrite H. reflexivity. Qed.

Lemma parse_loop_char c more st :
  at_introducer c more = false ->
  parse_loop (String c more) st = parse_loop more (add_char c st).
Proof. intros H. simp parse_loop. rewrite H. reflexivity. Qed.

(** Induction along the iterations of the loop. *)
Lemma parse_loop_induction (P : string -> ParseState -> ParseState -> Prop) :
  (forall st, P "" st st) ->
  (forall c more st r,
      at_introducer c more = true ->
      P (escape_rest more) (process_codes (escape_codes more) (save_before_escape st)) r ->
      P (String c more) st r) ->
  (forall c more st r,
      at_introducer c more = false ->
      P more (add_char c st) r ->
      P (String c more) st r) ->
  forall ptr st, P ptr st (parse_loop ptr st).
Proof.
  intros Hend Hesc Hchar ptr.
  remember (String.length ptr) as n eqn:Hn.
  revert ptr Hn. induction n as [n IH] using lt_wf_ind. intros ptr Hn st.
  destruct ptr as [|c more].
  - rewrite parse_loop_end. apply Hend.
  - destruct (at_introducer c more) eqn:Hi.
    + rewrite parse_loop_escape by exact Hi. apply Hesc; [exact Hi|].
      eapply IH; [|reflexivity].
      pose proof (escape_rest_length more). subst n. cbn. lia.
    + rewrite parse_loop_char by exact Hi. apply Hchar; [exact Hi|].
      eapply IH; [|reflexivity]. subst n. cbn. lia.
Qed.

(** *** What each step of the loop leaves alone *)

Lemma apply_code_frame code st :
  line_data (apply_code code st) = line_data st /\
  cur_visible_pos (apply_code code st) = cur_visible_pos st /\
  current_text (apply_code code st) = current_text st.
Proof.
  unfold apply_code, reset_style, set_style.
  repeat match goal with |- context [if ?b then _ else _] => destruct b end; cbn; auto.
Qed.

Lemma process_codes_frame codes st :
  line_data (process_codes codes st) = line_data st /\
  cur_visible_pos (process_codes codes st) = cur_visible_pos st /\
  current_text (process_codes codes st) = current_text st.
Proof.
  unfold process_codes. destruct (C.strlen codes =? 0); [cbn; auto|].
  generalize (C.strtok codes ";"). intros tokens. revert st.
  induction tokens as [|t tokens IH]; intros st; cbn; [auto|].
  destruct (IH (apply_code (C.atoi t) st)) as (H1 & H2 & H3).
  destruct (apply_code_frame (C.atoi t) st) as (G1 & G2 & G3).
  rewrite H1, H2, H3. auto.
Qed.

Lemma can_save_process_codes codes st :
  can_save (process_codes codes st) = can_save st.
Proof.
  destruct (process_codes_frame codes st) as (H1 & _ & H3).
  unfold can_save, current_text_pos. now rewrite H1, H3.
Qed.

Lemma add_char_frame c st :
  line_data (add_char c st) = line_data st /\
  cur_visible_pos (add_char c st) = cur_visible_pos st.
Proof. unfold add_char. destruct (_ <? _); cbn; auto. Qed.

(** *** Once the array is full nothing changes any more *)

Lemma can_save_full st :
  segment_count (line_data st) = MAX_SEGMENTS -> can_save st = false.
Proof.
  intros H. unfold can_save. rewrite H.
  rewrite Z.ltb_irrefl. apply andb_false_r.
Qed.

Lemma parse_loop_full ptr st :
  segment_count (line_data st) = MAX_SEGMENTS ->
  line_data (parse_loop ptr st) = line_data st /\
  cur_visible_pos (parse_loop ptr st) = cur_visible_pos st.
Proof.
  apply (parse_loop_induction
           (fun _ st r => segment_count (line_data st) = MAX_SEGMENTS ->
                          line_data r = line_data st /\
                          cur_visible_pos r = cur_visible_pos st)).
  - auto.
  - clear. intros c more st r _ IH Hfull.
    unfold save_before_escape in IH. rewrite (can_save_full st Hfull) in IH.
    destruct (process_codes_frame (escape_codes more) st) as (H1 & H2 & _).
    rewrite H1, H2 in IH. auto.
  - clear. intros c more st r _ IH Hfull.
    destruct (add_char_frame c st) as (H1 & H2).
    rewrite H1, H2 in IH. auto.
Qed.

(** *** The segments written so far tile the columns up to the running
    visible position *)

Lemma tiles_snoc p segs q seg :
  tiles p segs q -> visible_pos seg = q ->
  tiles p (segs ++ [seg])%list (q + utf8_strlen (text seg)).
Proof.
  revert p; induction segs as [|s segs IH]; intros p; cbn.
  - intros -> ->. auto.
  - intros [H1 H2] Hq. split; [exact H1|]. now apply IH.
Qed.

Lemma valid_segments_save st :
  array_ok (line_data st) ->
  0 <= segment_count (line_data st) < MAX_SEGMENTS ->
  valid_segments (line_data (save_segment st)) =
  (valid_segments (line_data st) ++
   [ {| text := current_text st; fg_color := fg st; bg_color := bg st;
        bold := is_bold st; visible_pos := cur_visible_pos st |} ])%list.
Proof.
  unfold array_ok, valid_segments, MAX_SEGMENTS. intros Hlen Hcount. cbn.
  replace (Z.to_nat (segment_count (line_data st) + 1))
    with (S (Z.to_nat (segment_count (line_data st)))) by lia.
  erewrite take_S_r.
  - rewrite take_insert_ge by lia. reflexivity.
  - apply list_lookup_insert_eq. lia.
Qed.

Lemma tiled_save_segment st :
  tiled st -> segment_count (line_data st) < MAX_SEGMENTS -> tiled (save_segment st).
Proof.
  intros (Hlen & Hcount & Htiles) Hlt. split; [|split].
  - unfold array_ok in *. cbn. now rewrite length_insert.
  - cbn. lia.
  - rewrite valid_segments_save by (auto; lia).
    cbn [cur_visible_pos save_segment].
    now apply (tiles_snoc 0 _ (cur_visible_pos st)).
Qed.

Lemma can_save_lt st :
  can_save st = true -> segment_count (line_data st) < MAX_SEGMENTS.
Proof. unfold can_save. intros H. apply andb_true_iff in H. lia. Qed.

Lemma tiled_save_before_escape st : tiled st -> tiled (save_before_escape st).
Proof.
  intros H. unfold save_before_escape. destruct (can_save st) eqn:E; [|exact H].
  apply (tiled_save_segment st H (can_save_lt st E)).
Qed.

Lemma tiled_save_remaining st : tiled st -> tiled (save_remaining st).
Proof.
  intros H. unfold save_remaining. destruct (can_save st) eqn:E; [|exact H].
  apply (tiled_save_segment st H (can_save_lt st E)).
Qed.

Lemma tiled_process_codes codes st : tiled st -> tiled (process_codes codes st).
Proof.
  destruct (process_codes_frame codes st) as (H1 & H2 & _).
  unfold tiled. now rewrite H1, H2.
Qed.

Lemma tiled_add_char c st : tiled st -> tiled (add_char c st).
Proof.
  destruct (add_char_frame c st) as (H1 & H2).
  unfold tiled. now rewrite H1, H2.
Qed.

Lemma tiled_parse_loop ptr st : tiled st -> tiled (parse_loop ptr st).
Proof.
  apply (parse_loop_induction (fun _ st r => tiled st -> tiled r)).
  - auto.
  - intros c more st0 r _ IH H.
    apply IH, tiled_process_codes, tiled_save_before_escape, H.
  - intros c more st0 r _ IH H. apply IH, tiled_add_char, H.
Qed.

Lemma tiled_start dst : array_ok dst -> tiled (start_state dst).
Proof.
  intros H. split; [exact H|]. split; [cbn; unfold MAX_SEGMENTS; lia|].
  unfold valid_segments. cbn. reflexivity.
Qed.

Lemma parse_fresh_tiles line dst :
  array_ok dst ->
  let r := parse_fresh line dst in
  array_ok r /\ 0 <= segment_count r <= MAX_SEGMENTS /\
  tiles 0 (valid_segments r) (visible_length r).
Proof.
  intros H.
  destruct (tiled_save_remaining _ (tiled_parse_loop line _ (tiled_start dst H)))
    as (H1 & H2 & H3).
  exact (conj H1 (conj H2 H3)).
Qed.

(** *** What a tiling says segment by segment *)

Lemma tiles_le p segs q : tiles p segs q -> p <= q.
Proof.
  revert p; induction segs as [|s segs IH]; intros p; cbn; [lia|].
  intros [_ H]. apply IH in H. pose proof (utf8_strlen_nonneg (text s)). lia.
Qed.

Lemma tiles_lookup p segs q i s :
  tiles p segs q -> segs !! i = Some s ->
  p <= visible_pos s /\
  tiles (visible_pos s + utf8_strlen (text s)) (drop (S i) segs) q.
Proof.
  revert p i; induction segs as [|s0 segs IH]; intros p i Ht Hi; [discriminate|].
  destruct Ht as [Hp Ht]. destruct i as [|i]; cbn in Hi.
  - injection Hi as ->. split; [lia|]. rewrite Hp. exact Ht.
  - destruct (IH _ _ Ht Hi) as [H1 H2]. split; [|exact H2].
    pose proof (utf8_strlen_nonneg (text s0)). lia.
Qed.

Lemma tiles_total p segs q : tiles p segs q -> q = p + total_codepoints segs.
Proof.
  revert p; induction segs as [|s segs IH]; intros p; cbn; [lia|].
  intros [_ H]. apply IH in H. lia.
Qed.

Lemma tiles_sorted p segs q i j s t :
  tiles p segs q -> (i <= j)%nat ->
  segs !! i = Some s -> segs !! j = Some t -> visible_pos s <= visible_pos t.
Proof.
  intros Ht Hij Hi Hj.
  destruct (decide (i = j)) as [->|Hne]; [rewrite Hi in Hj; injection Hj as ->; lia|].
  destruct (tiles_lookup _ _ _ _ _ Ht Hi) as [_ Hrest].
  assert (Hj' : drop (S i) segs !! (j - S i)%nat = Some t).
  { rewrite lookup_drop. rewrite <- Hj. f_equal. lia. }
  destruct (tiles_lookup _ _ _ _ _ Hrest Hj') as [H _].
  pose proof (utf8_strlen_nonneg (text s)). lia.
Qed.

Lemma tiles_next p segs q i s t :
  tiles p segs q -> segs !! i = Some s -> segs !! S i = Some t ->
  visible_pos t = visible_pos s + utf8_strlen (text s).
Proof.
  intros Ht Hi Hj.
  destruct (tiles_lookup _ _ _ _ _ Ht Hi) as [_ Hrest].
  assert (Hj' : drop (S i) segs !! 0%nat = Some t).
  { rewrite lookup_drop. rewrite <- Hj. f_equal. lia. }
  destruct (drop (S i) segs) as [|t' rest]; [discriminate|].
  injection Hj' as ->. destruct Hrest as [H _]. exact H.
Qed.

Lemma tiles_last p segs q s :
  tiles p segs q -> last segs = Some s ->
  visible_pos s + utf8_strlen (text s) = q.
Proof.
  revert p; induction segs as [|s0 segs IH]; intros p Ht Hl; [discriminate|].
  destruct Ht as [Hp Ht]. destruct segs as [|s1 segs].
  - injection Hl as ->. cbn in Ht. lia.
  - apply (IH _ Ht). exact Hl.
Qed.

(** C5: the segments of a freshly parsed line have non-decreasing visible
    positions, none reaches beyond [visible_length], the first starts at
    column 0, each starts where the one before it ends, and the last ends
    at [visible_length] (which is 0 when there is no segment). *)
Theorem parse_fresh_partitions_line (line : string) (dst : LineData) :
  array_ok dst ->
  let r := parse_fresh line dst in
  let segs := valid_segments r in
  length segs = Z.to_nat (segment_count r) /\
  (forall i j s t, (i <= j)%nat -> segs !! i = Some s -> segs !! j = Some t ->
                   visible_pos s <= visible_pos t) /\
  (forall i s, segs !! i = Some s ->
               visible_pos s + utf8_strlen (text s) <= visible_length r) /\
  (forall s, segs !! 0%nat = Some s -> visible_pos s = 0) /\
  (forall i s t, segs !! i = Some s -> segs !! S i = Some t ->
                 visible_pos t = visible_pos s + utf8_strlen (text s)) /\
  (forall s, last segs = Some s ->
             visible_pos s + utf8_strlen (text s) = visible_length r) /\
  (segs = [] -> visible_length r = 0).
Proof.
  intros Hdst r segs.
  destruct (parse_fresh_tiles line dst Hdst) as (Hlen & Hcount & Ht).
  fold r in Hlen, Hcount, Ht. fold segs in Ht.
  split; [|split; [|split; [|split; [|split; [|split]]]]].
  - subst segs. unfold valid_segments. rewrite length_take.
    unfold array_ok in Hlen. lia.
  - intros i j s t. apply (tiles_sorted _ _ _ _ _ _ _ Ht).
  - intros i s Hi. destruct (tiles_lookup _ _ _ _ _ Ht Hi) as [_ H].
    apply tiles_le in H. exact H.
  - intros s Hs. destruct segs as [|s0 rest]; [discriminate|].
    injection Hs as ->. destruct Ht as [H _]. exact H.
  - intros i s t. apply (tiles_next _ _ _ _ _ _ Ht).
  - intros s. apply (tiles_last _ _ _ _ Ht).
  - intros E. rewrite E in Ht. symmetry. exact Ht.
Qed.

Lemma parse_fresh_partitions_line_witness :
  let r := parse_fresh ("ab" +:+ String C.ESC "[1;31mcd" +:+ String C.ESC "[0me") blank_line in
  valid_segments r =
    [ {| text := "ab"; fg_color := "#ffffff"; bg_color := ""; bold := 0; visible_pos := 0 |};
      {| text := "cd"; fg_color := "#cd3131"; bg_color := ""; bold := 1; visible_pos := 2 |};
      {| text := "e"; fg_color := "#ffffff"; bg_color := ""; bold := 0; visible_pos := 4 |} ] /\
  (forall s, last (valid_segments r) = Some s ->
             visible_pos s + utf8_strlen (text s) = visible_length r).
Proof.
  split; [vm_compute; reflexivity|].
  apply (parse_fresh_partitions_line
           ("ab" +:+ String C.ESC "[1;31mcd" +:+ String C.ESC "[0me") blank_line).
  reflexivity.
Defined.

(** *** The loop, iteration by iteration *)

Lemma parse_loop_step ptr st :
  parse_loop (fst (loop_step (ptr, st))) (snd (loop_step (ptr, st))) = parse_loop ptr st.
Proof.
  destruct ptr as [|c more]; [reflexivity|]. cbn.
  destruct (at_introducer c more) eqn:E; cbn.
  - now rewrite parse_loop_escape.
  - now rewrite parse_loop_char.
Qed.

Lemma parse_loop_iter n ptr st :
  let at_n := Nat.iter n loop_step (ptr, st) in
  parse_loop (fst at_n) (snd at_n) = parse_loop ptr st.
Proof.
  induction n as [|n IH]; [reflexivity|].
  change (Nat.iter (S n) loop_step (ptr, st))
    with (loop_step (Nat.iter n loop_step (ptr, st))).
  cbv zeta in *. destruct (Nat.iter n loop_step (ptr, st)) as [p s].
  rewrite parse_loop_step. exact IH.
Qed.

Lemma tiled_loop_step ptr st : tiled st -> tiled (snd (loop_step (ptr, st))).
Proof.
  intros H. destruct ptr as [|c more]; [exact H|]. cbn.
  destruct (at_introducer c more); cbn.
  - apply tiled_process_codes, tiled_save_before_escape, H.
  - apply tiled_add_char, H.
Qed.

Lemma tiled_iter n ptr st : tiled st -> tiled (snd (Nat.iter n loop_step (ptr, st))).
Proof.
  intros H. induction n as [|n IH]; [exact H|].
  change (Nat.iter (S n) loop_step (ptr, st))
    with (loop_step (Nat.iter n loop_step (ptr, st))).
  destruct (Nat.iter n loop_step (ptr, st)) as [p s]. now apply tiled_loop_step.
Qed.

Lemma finish_full st :
  segment_count (line_data st) = MAX_SEGMENTS ->
  finish st = {| segments := segments (line_data st);
                 segment_count := MAX_SEGMENTS;
                 visible_length := cur_visible_pos st |}.
Proof.
  intros H. unfold finish, save_remaining. rewrite (can_save_full st H).
  now rewrite H.
Qed.

(** C10: when, after any number of iterations of its loop, the parser has
    filled all [MAX_SEGMENTS] slots, the rest of the line changes nothing:
    the result holds exactly the segments emitted up to that point, its
    count is [MAX_SEGMENTS], its [visible_length] is the visible position
    reached at that point, and this is the number of code points of the
    emitted segments. *)
Theorem segment_cap_suppresses_rest (line : string) (dst : LineData) (n : nat) :
  array_ok dst ->
  let at_n := Nat.iter n loop_step (line, start_state dst) in
  segment_count (line_data (snd at_n)) = MAX_SEGMENTS ->
  let r := parse_fresh line dst in
  segments r = segments (line_data (snd at_n)) /\
  segment_count r = MAX_SEGMENTS /\
  visible_length r = cur_visible_pos (snd at_n) /\
  visible_length r = total_codepoints (valid_segments r).
Proof.
  intros Hdst at_n Hfull r.
  assert (Hr : r = finish (parse_loop (fst at_n) (snd at_n))).
  { subst r at_n. unfold parse_fresh. now rewrite parse_loop_iter. }
  destruct (parse_loop_full (fst at_n) (snd at_n) Hfull) as [H1 H2].
  assert (Hfull' : segment_count (line_data (parse_loop (fst at_n) (snd at_n))) = MAX_SEGMENTS)
    by now rewrite H1.
  rewrite (finish_full _ Hfull'), H1, H2 in Hr.
  destruct (parse_fresh_tiles line dst Hdst) as (_ & _ & Ht). fold r in Ht.
  apply tiles_total in Ht.
  split; [now rewrite Hr|]. split; [now rewrite Hr|]. split; [now rewrite Hr|].
  rewrite Ht. apply Z.add_0_l.
Qed.

Lemma segment_cap_suppresses_rest_witness :
  let line := repeat_string 1001 ("x" +:+ String C.ESC "[m") +:+ "tail" in
  let r := parse_fresh line blank_line in
  segment_count r = MAX_SEGMENTS /\ visible_length r = 1000.
Proof.
  intros line r.
  destruct (segment_cap_suppresses_rest line blank_line 2000) as (_ & H2 & H3 & _).
  - reflexivity.
  - vm_compute. reflexivity.
  - split; [exact H2|]. fold r in H3. rewrite H3. vm_compute. reflexivity.
Defined.

(** *** Lines without an escape introducer *)

Lemma take_append_exact t x : C.take (String.length t) (t +:+ x) = t.
Proof.
  induction t as [|c t IH]; [now destruct x|].
  rewrite append_cons. cbn. now rewrite IH.
Qed.

Lemma parse_loop_plain s st :
  has_introducer s = false -> parse_loop s st = add_chars s st.
Proof.
  revert st; induction s as [|c more IH]; intros st H; [apply parse_loop_end|].
  cbn in H. apply orb_false_iff in H as [H1 H2].
  rewrite parse_loop_char by exact H1. cbn. now apply IH.
Qed.

Lemma add_chars_frame s st :
  line_data (add_chars s st) = line_data st /\
  fg (add_chars s st) = fg st /\ bg (add_chars s st) = bg st /\
  is_bold (add_chars s st) = is_bold st /\
  cur_visible_pos (add_chars s st) = cur_visible_pos st.
Proof.
  revert st; induction s as [|c more IH]; intros st; cbn; [auto 6|].
  destruct (IH (add_char c st)) as (H1 & H2 & H3 & H4 & H5).
  rewrite H1, H2, H3, H4, H5. unfold add_char.
  destruct (_ <? _); cbn; auto 6.
Qed.

(** The text buffer holds [MAX_LINE_LENGTH - 1] bytes. *)
Lemma add_chars_text s st :
  C.strlen (current_text st) <= MAX_LINE_LENGTH - 1 ->
  current_text (add_chars s st) =
  C.take (Z.to_nat (MAX_LINE_LENGTH - 1)) (current_text st +:+ s).
Proof.
  revert st; induction s as [|c more IH]; intros st Hlen; cbn [add_chars].
  - rewrite append_nil_r. symmetry. apply take_all. unfold C.strlen in Hlen. lia.
  - unfold add_char, current_text_pos.
    destruct (Z.ltb_spec (C.strlen (current_text st)) (MAX_LINE_LENGTH - 1)) as [Hlt|Hge].
    + rewrite IH; cbn [current_text].
      * now rewrite append_assoc.
      * unfold C.strlen in *. rewrite length_append.
        change (String.length (String c "")) with 1%nat. lia.
    + rewrite IH by exact Hlen.
      assert (E : Z.to_nat (MAX_LINE_LENGTH - 1) = String.length (current_text st))
        by (unfold C.strlen in *; lia).
      rewrite E. now rewrite !take_append_exact.
Qed.

Lemma take_nonempty n c more : (0 < n)%nat -> 0 < C.strlen (C.take n (String c more)).
Proof. destruct n as [|n]; [lia|]. intros _. unfold C.strlen. cbn [C.take String.length]. lia. Qed.

(** A corrected form of C4.  A line without an escape introducer parses
    to no segment at all when it is empty, and otherwise to exactly one
    segment at visible position 0 in the default style, whose text is the
    line cut to the [MAX_LINE_LENGTH - 1] bytes the text buffer holds;
    [visible_length] is the code point count of that text, hence of the
    line when the line has at most [MAX_LINE_LENGTH - 1] bytes. *)
Theorem plain_line_segments (line : string) (dst : LineData) :
  array_ok dst ->
  has_introducer line = false ->
  let r := parse_fresh line dst in
  let shown := C.take (Z.to_nat (MAX_LINE_LENGTH - 1)) line in
  (line = "" ->
   segment_count r = 0 /\ valid_segments r = [] /\ visible_length r = 0) /\
  (line <> "" ->
   segment_count r = 1 /\
   valid_segments r =
     [ {| text := shown; fg_color := TEXT_COLOR; bg_color := "";
          bold := 0; visible_pos := 0 |} ] /\
   visible_length r = utf8_strlen shown /\
   (C.strlen line <= MAX_LINE_LENGTH - 1 -> visible_length r = utf8_strlen line)).
Proof.
  intros Hdst Hplain r shown. split.
  - intros ->. subst r. unfold parse_fresh. rewrite parse_loop_end. now cbn.
  - intros Hne. subst r. unfold parse_fresh. rewrite parse_loop_plain by exact Hplain.
    destruct (add_chars_frame line (start_state dst)) as (H1 & H2 & H3 & H4 & H5).
    pose proof (add_chars_text line (start_state dst)) as Htext.
    cbn [current_text start_state] in Htext. rewrite append_nil_l in Htext.
    specialize (Htext ltac:(unfold C.strlen, MAX_LINE_LENGTH; cbn [String.length]; lia)). fold shown in Htext.
    assert (Hsave : can_save (add_chars line (start_state dst)) = true).
    { unfold can_save, current_text_pos. rewrite H1, Htext.
      apply andb_true_iff. split; apply Z.ltb_lt; [|reflexivity].
      destruct line as [|c more]; [congruence|].
      apply take_nonempty. unfold MAX_LINE_LENGTH. lia. }
    unfold finish, save_remaining. rewrite Hsave.
    unfold valid_segments, save_segment.
    cbn [line_data segments segment_count visible_length cur_visible_pos].
    rewrite H1, H2, H3, H4, H5, Htext.
    cbn [line_data segments segment_count start_state fg bg is_bold cur_visible_pos].
    unfold array_ok, MAX_SEGMENTS in Hdst.
    destruct (segments dst) as [|s0 rest]; [cbn in Hdst; lia|].
    change (Z.to_nat (0 + 1)) with 1%nat. change (Z.to_nat 0) with 0%nat.
    cbn [take insert list_insert].
    split; [reflexivity|]. split; [reflexivity|]. split; [apply Z.add_0_l|].
    intros Hshort. rewrite Z.add_0_l. subst shown.
    rewrite take_all; [reflexivity|]. unfold C.strlen in Hshort. lia.
Qed.

Lemma plain_line_segments_witness :
  let r := parse_fresh "Hi" blank_line in
  segment_count r = 1 /\
  valid_segments r =
    [ {| text := "Hi"; fg_color := "#ffffff"; bg_color := ""; bold := 0; visible_pos := 0 |} ] /\
  visible_length r = 2.
Proof.
  destruct (plain_line_segments "Hi" blank_line) as [_ H]; [reflexivity|reflexivity|].
  destruct H as (H1 & H2 & H3 & _); [discriminate|].
  exact (conj H1 (conj H2 H3)).
Defined.

(** C4 as stated fails on the empty line: it has no introducer and parses
    to zero segments, not one. *)
Lemma empty_line_has_no_segment :
  has_introducer "" = false /\
  segment_count (parse_fresh "" blank_line) = 0 /\
  valid_segments (parse_fresh "" blank_line) = [].
Proof. repeat split. Qed.

(** *** Escapes that run to the end of the line *)

Lemma scan_codes_all body codes :
  C.mem "m" body = false ->
  C.strlen codes + C.strlen body <= 64 - 1 ->
  scan_codes body codes = (codes +:+ body, "").
Proof.
  revert codes; induction body as [|c more IH]; intros codes Hm Hlen.
  - cbn. now rewrite append_nil_r.
  - cbn in Hm. apply orb_false_iff in Hm as [Hc Hm].
    unfold C.strlen in *. cbn [String.length] in Hlen.
    cbn [scan_codes]. rewrite Hc. unfold C.strlen.
    destruct (Z.ltb_spec (Z.of_nat (String.length codes)) (64 - 1)) as [_|Hge]; [|lia].
    cbn [negb andb]. rewrite IH; [|exact Hm|].
    + now rewrite append_assoc.
    + rewrite length_append. change (String.length (String c "")) with 1%nat. lia.
Qed.

Lemma finish_after_escape codes st :
  finish (process_codes codes (save_before_escape st)) = finish st.
Proof.
  destruct (process_codes_frame codes (save_before_escape st)) as (H1 & H2 & H3).
  unfold finish, save_remaining. rewrite can_save_process_codes.
  unfold save_before_escape in *. destruct (can_save st) eqn:E.
  - assert (Hno : can_save (reset_text (save_segment st)) = false) by reflexivity.
    rewrite Hno, H1, H2. reflexivity.
  - rewrite E, H1, H2. reflexivity.
Qed.

Lemma at_introducer_prefix c more rest :
  at_introducer c more = false ->
  at_introducer c (more +:+ String C.ESC rest) = false.
Proof.
  unfold at_introducer. destruct (Ascii.eqb c C.ESC); [|reflexivity]. cbn [andb].
  destruct more as [|d more]; [reflexivity|]. now rewrite append_cons.
Qed.

Lemma parse_loop_plain_prefix txt rest st :
  has_introducer txt = false ->
  parse_loop (txt +:+ String C.ESC rest) st =
  parse_loop (String C.ESC rest) (add_chars txt st).
Proof.
  revert st; induction txt as [|c more IH]; intros st H; [reflexivity|].
  cbn in H. apply orb_false_iff in H as [H1 H2].
  rewrite append_cons, parse_loop_char by now apply at_introducer_prefix.
  cbn [add_chars]. now apply IH.
Qed.

Lemma scan_codes_stop rest codes :
  C.strlen codes = 64 - 1 -> scan_codes rest codes = (codes, rest).
Proof.
  intros H. destruct rest as [|c r]; [reflexivity|]. cbn [scan_codes].
  rewrite H, Z.ltb_irrefl. now rewrite andb_false_r.
Qed.

Lemma scan_codes_full codes rest acc :
  C.mem "m" codes = false ->
  C.strlen acc + C.strlen codes = 64 - 1 ->
  scan_codes (codes +:+ rest) acc = (acc +:+ codes, rest).
Proof.
  revert acc; induction codes as [|c codes IH]; intros acc Hm Hlen.
  - rewrite append_nil_l, append_nil_r. apply scan_codes_stop.
    unfold C.strlen in *. cbn [String.length] in Hlen. lia.
  - cbn in Hm. apply orb_false_iff in Hm as [Hc Hm].
    unfold C.strlen in *. cbn [String.length] in Hlen.
    rewrite append_cons. cbn [scan_codes]. rewrite Hc. unfold C.strlen.
    destruct (Z.ltb_spec (Z.of_nat (String.length acc)) (64 - 1)) as [_|Hge]; [|lia].
    cbn [negb andb]. rewrite IH; [|exact Hm|].
    + now rewrite append_assoc.
    + rewrite length_append. change (String.length (String c "")) with 1%nat. lia.
Qed.

Lemma skip_m_other rest : C.mem "m" rest = false -> skip_m rest = rest.
Proof.
  destruct rest as [|c r]; [reflexivity|]. cbn. intros H.
  apply orb_false_iff in H as [Hc _].
  destruct c as [[] [] [] [] [] [] [] []]; try reflexivity. discriminate.
Qed.

(** A corrected form of C3.  An escape [ESC '[' body] whose body has no
    ['m'] before the end of the line and is at most 63 bytes long leaves no
    trace: the result is the one the parser gives when the line ends in
    front of the introducer, from any state of the loop, and so for any
    line that is literal text up to the introducer.  Of a longer body
    without ['m'] the first 63 bytes are taken for codes: they are not
    emitted, the codes among them are applied, and the loop goes on with
    the bytes behind them. *)
Theorem unterminated_escape_is_dropped :
  (forall body,
      C.mem "m" body = false ->
      C.strlen body <= 64 - 1 ->
      (forall st, finish (parse_loop (String C.ESC (String "[" body)) st) = finish st) /\
      (forall txt dst,
          has_introducer txt = false ->
          parse_fresh (txt +:+ String C.ESC (String "[" body)) dst = parse_fresh txt dst)) /\
  (forall codes rest st,
      C.strlen codes = 64 - 1 ->
      C.mem "m" (codes +:+ rest) = false ->
      parse_loop (String C.ESC (String "[" (codes +:+ rest))) st =
      parse_loop rest (process_codes codes (save_before_escape st))).
Proof.
  split.
  - intros body Hm Hlen.
    assert (Hloop : forall st,
               finish (parse_loop (String C.ESC (String "[" body)) st) = finish st).
    { intros st. rewrite parse_loop_escape by reflexivity.
      unfold escape_rest, escape_codes. cbn [after_introducer].
      rewrite scan_codes_all; [|exact Hm|unfold C.strlen in *; cbn [String.length]; lia].
      cbn [fst snd skip_m]. rewrite parse_loop_end. apply finish_after_escape. }
    split; [exact Hloop|].
    intros txt dst Hplain. unfold parse_fresh.
    rewrite parse_loop_plain_prefix by exact Hplain.
    rewrite Hloop. now rewrite parse_loop_plain.
  - intros codes rest st Hlen Hm.
    rewrite mem_append in Hm. apply orb_false_iff in Hm as [Hcodes Hrest].
    rewrite parse_loop_escape by reflexivity.
    unfold escape_rest, escape_codes. cbn [after_introducer].
    rewrite (scan_codes_full codes rest "") by (exact Hcodes || exact Hlen).
    cbn [fst snd]. now rewrite append_nil_l, skip_m_other.
Qed.

Lemma unterminated_escape_is_dropped_witness :
  parse_fresh ("ab" +:+ String C.ESC "[1;31") blank_line = parse_fresh "ab" blank_line.
Proof.
  destruct unterminated_escape_is_dropped as [H _].
  apply (H "1;31"); [reflexivity | vm_compute; discriminate | reflexivity].
Defined.

(** C3 as stated fails when the body is longer than the 63 bytes the
    [codes] buffer holds: the scan stops there, the codes read so far are
    applied, and the text behind them is emitted in that style.  Here no
    ['m'] follows the introducer, and ["Hi"] comes out in the colour of
    code 31. *)
Lemma long_unterminated_escape_styles_text :
  let body := "31" +:+ repeat_string 61 ";" +:+ "Hi" in
  C.mem "m" body = false /\
  valid_segments (parse_fresh (String C.ESC (String "[" body)) blank_line) =
    [ {| text := "Hi"; fg_color := "#cd3131"; bg_color := ""; bold := 0; visible_pos := 0 |} ] /\
  "#cd3131" <> TEXT_COLOR.
Proof. split; [|split]; [vm_compute; reflexivity | vm_compute; reflexivity | discriminate]. Qed.

(** ** Decimal numerals: ["%d"], ["%u"], [atoi], [strtoul] *)

Ltac each_digit d IH :=
  induction d as [|d IH|d IH|d IH|d IH|d IH|d IH|d IH|d IH|d IH|d IH].

Lemma digits_acc_uint d rest acc :
  C.digits_acc (NilEmpty.string_of_uint d +:+ rest) acc =
  C.digits_acc rest (uint_acc d acc).
Proof.
  revert acc; each_digit d IH; intros acc; [reflexivity|..];
    cbn [NilEmpty.string_of_uint]; rewrite append_cons;
    cbn [C.digits_acc uint_acc]; apply IH.
Qed.

Lemma digits_acc_stop rest acc :
  starts_with_digit rest = false -> C.digits_acc rest acc = acc.
Proof.
  destruct rest as [|c r]; [reflexivity|]. cbn.
  now destruct (C.digit_of c).
Qed.

Lemma uint_acc_pos d acc : uint_acc d (Z.pos acc) = Z.pos (Pos.of_uint_acc d acc).
Proof.
  revert acc; each_digit d IH; intros acc; [reflexivity|..];
    cbn [uint_acc Pos.of_uint_acc]; rewrite <- IH; f_equal; lia.
Qed.

Lemma uint_acc_0 d : uint_acc d 0 = Z.of_N (Pos.of_uint d).
Proof.
  each_digit d IH; [reflexivity| exact IH |..];
    cbn [uint_acc Pos.of_uint]; apply uint_acc_pos.
Qed.

Lemma uint_acc_to_uint n : uint_acc (N.to_uint n) 0 = Z.of_N n.
Proof.
  rewrite uint_acc_0. f_equal. apply DecimalN.Unsigned.of_to.
Qed.

(** Reading back what ["%u"] printed. *)
Lemma digits_acc_fmt_u z rest :
  0 <= z -> starts_with_digit rest = false ->
  C.digits_acc (C.fmt_u z +:+ rest) 0 = z.
Proof.
  intros Hz Hrest. unfold C.fmt_u.
  rewrite digits_acc_uint, digits_acc_stop by exact Hrest.
  rewrite uint_acc_to_uint. lia.
Qed.

Lemma to_uint_first n :
  exists c r, NilEmpty.string_of_uint (N.to_uint n) = String c r /\
              C.digit_of c <> None.
Proof.
  destruct (N.to_uint n) as [|d|d|d|d|d|d|d|d|d|d] eqn:E.
  - destruct n as [|p]; [discriminate|]. now apply DecimalPos.Unsigned.to_uint_nonnil in E.
  - now eexists _, _.
  - now eexists _, _.
  - now eexists _, _.
  - now eexists _, _.
  - now eexists _, _.
  - now eexists _, _.
  - now eexists _, _.
  - now eexists _, _.
  - now eexists _, _.
  - now eexists _, _.
Qed.

Lemma sign_and_digits_digit c r :
  C.digit_of c <> None ->
  C.sign_and_digits (String c r) = (false, C.digits_acc (String c r) 0).
Proof.
  unfold C.digit_of, C.sign_and_digits. intros H.
  destruct ((48 <=? C.code c) && (C.code c <=? 57)) eqn:E; [|congruence].
  apply andb_true_iff in E as [E1 E2]. apply Z.leb_le in E1, E2.
  assert (Hsp : C.isspace c = false).
  { unfold C.isspace. cbv zeta.
    destruct (Z.eqb_spec (C.code c) 32); [lia|].
    destruct (Z.leb_spec (C.code c) 13); [lia|]. now rewrite andb_false_r. }
  cbn [C.skip_spaces]. rewrite Hsp.
  destruct c as [[] [] [] [] [] [] [] []]; try reflexivity; vm_compute in E1; vm_compute in E2; congruence.
Qed.

Lemma sign_and_digits_fmt_u z rest :
  0 <= z -> starts_with_digit rest = false ->
  C.sign_and_digits (C.fmt_u z +:+ rest) = (false, z).
Proof.
  intros Hz Hrest. pose proof (digits_acc_fmt_u z rest Hz Hrest) as Hd.
  unfold C.fmt_u in *. destruct (to_uint_first (Z.to_N z)) as (c & r & E & Hc).
  rewrite E, append_cons in *. rewrite sign_and_digits_digit by exact Hc.
  now rewrite Hd.
Qed.

Lemma fmt_d_nonneg z : 0 <= z -> C.fmt_d z = C.fmt_u z.
Proof. unfold C.fmt_d, C.fmt_u. now destruct z. Qed.

Lemma fmt_d_neg p : C.fmt_d (Z.neg p) = String "-" (C.fmt_u (Z.pos p)).
Proof. reflexivity. Qed.

Lemma to_int32_id z : C.is_int z = true -> C.to_int32 z = z.
Proof.
  unfold C.is_int, C.to_int32, C.INT_MIN, C.INT_MAX. intros H.
  apply andb_true_iff in H as [H1 H2]. apply Z.leb_le in H1, H2.
  rewrite Z.mod_small; lia.
Qed.

(** [atoi] reads back what ["%d"] printed, for every [int]. *)
Lemma atoi_fmt_d z : C.is_int z = true -> C.atoi (C.fmt_d z) = z.
Proof.
  intros Hint. pose proof (to_int32_id z Hint) as Hid.
  unfold C.is_int, C.INT_MIN, C.INT_MAX in Hint.
  apply andb_true_iff in Hint as [H1 H2]. apply Z.leb_le in H1, H2.
  unfold C.atoi, C.strtol, C.LONG_MIN, C.LONG_MAX.
  destruct z as [|p|p].
  - reflexivity.
  - rewrite fmt_d_nonneg by lia.
    rewrite <- (append_nil_r (C.fmt_u (Z.pos p))).
    rewrite sign_and_digits_fmt_u by (lia || reflexivity).
    rewrite Z.min_r, Z.max_r by lia. exact Hid.
  - rewrite fmt_d_neg. unfold C.sign_and_digits. cbn [C.skip_spaces C.isspace].
    change (C.isspace "-") with false. cbv iota.
    rewrite <- (append_nil_r (C.fmt_u (Z.pos p))).
    rewrite digits_acc_fmt_u by (lia || reflexivity).
    rewrite Z.min_r, Z.max_r by lia. exact Hid.
Qed.

Lemma fmt_d_inj a b : C.fmt_d a = C.fmt_d b -> a = b.
Proof.
  unfold C.fmt_d. intros H. apply DecimalZ.to_int_inj.
  apply (f_equal NilEmpty.int_of_string) in H.
  rewrite !NilEmpty.isi in H. congruence.
Qed.

Lemma uint_no_pipe d : C.mem "|" (NilEmpty.string_of_uint d) = false.
Proof. each_digit d IH; [reflexivity|..]; cbn; exact IH. Qed.

Lemma fmt_d_no_pipe z : C.mem "|" (C.fmt_d z) = false.
Proof.
  unfold C.fmt_d. destruct (Z.to_int z); cbn; apply uint_no_pipe.
Qed.

(** *** How long a printed number can be *)

Lemma string_of_uint_length d :
  String.length (NilEmpty.string_of_uint d) = nb_digits d.
Proof. each_digit d IH; [reflexivity|..]; cbn; now rewrite IH. Qed.

Lemma little_double_length d :
  (nb_digits (Little.double d) <= S (nb_digits d))%nat /\
  (nb_digits (Little.succ_double d) <= S (nb_digits d))%nat.
Proof. each_digit d IH; cbn; lia. Qed.

Lemma to_little_uint_length p :
  (nb_digits (Pos.to_little_uint p) <= Pos.size_nat p)%nat.
Proof.
  induction p as [p IH|p IH|]; cbn; [| |lia].
  - pose proof (little_double_length (Pos.to_little_uint p)). lia.
  - pose proof (little_double_length (Pos.to_little_uint p)). lia.
Qed.

Lemma size_nat_bound n p : Z.pos p < 2 ^ Z.of_nat n -> (Pos.size_nat p <= n)%nat.
Proof.
  revert p; induction n as [|n IH]; intros p H.
  - cbn in H. lia.
  - rewrite Nat2Z.inj_succ, Z.pow_succ_r in H by lia.
    destruct p as [q|q|]; cbn; [| |lia].
    + specialize (IH q). lia.
    + specialize (IH q). lia.
Qed.

Lemma fmt_u_length z n :
  0 <= z < 2 ^ Z.of_nat n -> (String.length (C.fmt_u z) <= Nat.max 1 n)%nat.
Proof.
  intros Hz. unfold C.fmt_u. rewrite string_of_uint_length.
  destruct z as [|p|p]; [cbn; lia| |lia].
  change (N.to_uint (Z.to_N (Z.pos p))) with (Pos.to_uint p).
  unfold Pos.to_uint. rewrite DecimalFacts.nb_digits_rev.
  pose proof (to_little_uint_length p). pose proof (size_nat_bound n p). lia.
Qed.

Lemma fmt_d_length z : C.is_int z = true -> C.strlen (C.fmt_d z) <= 33.
Proof.
  unfold C.is_int, C.INT_MIN, C.INT_MAX, C.strlen. intros H.
  apply andb_true_iff in H as [H1 H2]. apply Z.leb_le in H1, H2.
  destruct z as [|p|p].
  - cbn. lia.
  - rewrite fmt_d_nonneg by lia.
    pose proof (fmt_u_length (Z.pos p) 32 ltac:(cbn; lia)). lia.
  - rewrite fmt_d_neg. cbn [String.length].
    pose proof (fmt_u_length (Z.pos p) 32 ltac:(cbn; lia)). lia.
Qed.

(** ** The line cache *)

Lemma split_at_found a rest :
  C.mem "|" a = false -> C.split_at "|" (a +:+ String "|" rest) = (a, Some rest).
Proof.
  induction a as [|c a IH]; intros H; [reflexivity|].
  cbn in H. apply orb_false_iff in H as [Hc Ha].
  rewrite append_cons. cbn [C.split_at]. rewrite Hc, (IH Ha). reflexivity.
Qed.

Lemma split_at_none a : C.mem "|" a = false -> C.split_at "|" a = (a, None).
Proof.
  induction a as [|c a IH]; intros H; [reflexivity|].
  cbn in H. apply orb_false_iff in H as [Hc Ha].
  cbn [C.split_at]. rewrite Hc, (IH Ha). reflexivity.
Qed.

Lemma split_fields_five a b c d e :
  C.mem "|" a = false -> C.mem "|" b = false -> C.mem "|" c = false ->
  C.mem "|" d = false -> C.mem "|" e = false ->
  split_fields 5 (a +:+ "|" +:+ b +:+ "|" +:+ c +:+ "|" +:+ d +:+ "|" +:+ e) =
  [a; b; c; d; e].
Proof.
  intros Ha Hb Hc Hd He. cbn [split_fields].
  assert (Hp : forall x, "|" +:+ x = String "|" x) by reflexivity.
  rewrite !Hp.
  rewrite (split_at_found a) by exact Ha.
  rewrite (split_at_found b) by exact Hb.
  rewrite (split_at_found c) by exact Hc.
  rewrite (split_at_found d) by exact Hd.
  rewrite (split_at_none e) by exact He. reflexivity.
Qed.

Lemma strlen_append s t : C.strlen (s +:+ t) = C.strlen s + C.strlen t.
Proof. unfold C.strlen. rewrite length_append. lia. Qed.

Lemma segment_string_fits seg :
  fits_struct seg = true -> segment_string seg = segment_format seg.
Proof.
  unfold fits_struct. intros H.
  repeat (apply andb_true_iff in H as [H ?]).
  repeat match goal with H : (_ <? _) = true |- _ => apply Z.ltb_lt in H end.
  apply snprintf_fits. unfold segment_format.
  rewrite !strlen_append.
  pose proof (fmt_d_length (visible_pos seg) ltac:(assumption)).
  assert (C.strlen (if bold seg =? 0 then "false" else "true") <= 5)
    by (destruct (bold seg =? 0); unfold C.strlen; cbn [String.length]; lia).
  change (C.strlen "|") with 1.
  unfold MAX_LINE_LENGTH, MAX_COLOR_LENGTH in *. lia.
Qed.

(** A stored segment is read back whole, whatever the slot held. *)
Lemma fill_fields_stored seg slot :
  fits_struct seg = true -> storable seg = true ->
  fill_fields
    (split_fields 5 (C.take (Z.to_nat (MAX_LINE_LENGTH * 2 - 1)) (segment_string seg)))
    slot = seg.
Proof.
  intros Hfits Hst.
  assert (Hint : C.is_int (visible_pos seg) = true).
  { unfold fits_struct in Hfits. now apply andb_true_iff in Hfits as [_ ?]. }
  unfold segment_string, C.snprintf. rewrite take_all.
  2:{ rewrite <- (segment_string_fits seg Hfits) at 1. unfold segment_string, C.snprintf.
      clear. generalize (Z.to_nat (MAX_LINE_LENGTH * 2 - 1)) (segment_format seg).
      intros n s. revert n. induction s as [|c s IH]; intros [|n]; cbn; try lia.
      specialize (IH n). lia. }
  fold (C.snprintf (MAX_LINE_LENGTH * 2) (segment_format seg)).
  fold (segment_string seg). rewrite (segment_string_fits seg Hfits).
  unfold storable in Hst. repeat (apply andb_true_iff in Hst as [Hst ?]).
  repeat match goal with H : negb _ = true |- _ => apply negb_true_iff in H end.
  unfold segment_format. rewrite split_fields_five; try assumption.
  - destruct seg as [t f b bo vp]. cbn in *. unfold fill_fields. cbn.
    rewrite (atoi_fmt_d vp Hint). f_equal.
    destruct (Z.eqb_spec bo 0) as [->|Hne]; [reflexivity|].
    destruct (Z.eqb_spec bo 1) as [->|Hne1]; [reflexivity|]. discriminate.
  - now destruct (bold seg =? 0).
  - apply fmt_d_no_pipe.
Qed.

Lemma load_segment_stored seg ld :
  fits_struct seg = true -> storable seg = true ->
  array_ok ld -> 0 <= segment_count ld < MAX_SEGMENTS ->
  let r := load_segment (segment_string seg) ld in
  array_ok r /\ segment_count r = segment_count ld + 1 /\
  visible_length r = visible_length ld /\
  valid_segments r = (valid_segments ld ++ [seg])%list.
Proof.
  intros Hfits Hst Hok Hcount r. subst r. unfold load_segment, valid_segments, array_ok in *.
  cbn [segments segment_count visible_length].
  split; [now rewrite length_alter|]. split; [reflexivity|]. split; [reflexivity|].
  replace (Z.to_nat (segment_count ld + 1)) with (S (Z.to_nat (segment_count ld))) by lia.
  destruct (lookup_lt_is_Some_2 (segments ld) (Z.to_nat (segment_count ld))) as [slot Hslot].
  { unfold MAX_SEGMENTS in *. lia. }
  erewrite take_S_r.
  - rewrite take_alter_ge by lia. reflexivity.
  - rewrite list_lookup_alter_eq, Hslot.
    cbn [fmap option_fmap option_map]. f_equal.
    now apply fill_fields_stored.
Qed.

Lemma load_items_stored segs ld :
  Forall (fun seg => fits_struct seg = true /\ storable seg = true) segs ->
  array_ok ld -> 0 <= segment_count ld ->
  segment_count ld + Z.of_nat (length segs) <= MAX_SEGMENTS ->
  let r := fold_left load_item (map (fun seg => JString (segment_string seg)) segs) ld in
  array_ok r /\ segment_count r = segment_count ld + Z.of_nat (length segs) /\
  visible_length r = visible_length ld /\
  valid_segments r = (valid_segments ld ++ segs)%list.
Proof.
  revert ld; induction segs as [|seg segs IH]; intros ld Hall Hok H0 Hmax.
  - cbn. rewrite app_nil_r. repeat split; [exact Hok | lia].
  - apply Forall_cons in Hall as [[Hfits Hst] Hall].
    cbn [length] in Hmax.
    assert (Hroom : 0 <= segment_count ld < MAX_SEGMENTS) by lia.
    assert (Hstep : load_item ld (JString (segment_string seg)) =
                    load_segment (segment_string seg) ld).
    { unfold load_item.
      destruct (Z.ltb_spec (segment_count ld) MAX_SEGMENTS); [reflexivity|lia]. }
    cbn [map fold_left length]. rewrite Hstep.
    destruct (load_segment_stored seg ld Hfits Hst Hok Hroom) as (A1 & A2 & A3 & A4).
    set (ld1 := load_segment (segment_string seg) ld) in *.
    assert (C0 : 0 <= segment_count ld1) by lia.
    assert (C1 : segment_count ld1 + Z.of_nat (length segs) <= MAX_SEGMENTS) by lia.
    destruct (IH ld1 Hall A1 C0 C1) as (B1 & B2 & B3 & B4).
    split; [exact B1|]. split; [rewrite B2, A2; lia|]. split; [now rewrite B3|].
    rewrite B4, A4, <- app_assoc. reflexivity.
Qed.

Lemma segments_array_accepted env segs acc :
  Forall (fun seg => utf8_check_string env (segment_string seg) = true) segs ->
  fold_left (fun array seg =>
               json_array_append_new array (json_string env (segment_string seg)))
            segs (JArray acc) =
  JArray (acc ++ map (fun seg => JString (segment_string seg)) segs)%list.
Proof.
  revert acc; induction segs as [|seg segs IH]; intros acc Hall.
  - cbn. now rewrite app_nil_r.
  - apply Forall_cons in Hall as [Hseg Hall]. cbn [fold_left map].
    unfold json_string at 2. rewrite Hseg. cbn [json_array_append_new].
    rewrite (IH _ Hall), <- app_assoc. reflexivity.
Qed.

Lemma line_cache_json_visible_length env now key ld :
  json_object_get (line_cache_json env now key ld) "visible_length" =
  Some (JInteger (visible_length ld)).
Proof.
  unfold line_cache_json, json_string. now destruct (utf8_check_string env key).
Qed.

Lemma line_cache_json_segments env now key ld :
  Forall (fun seg => utf8_check_string env (segment_string seg) = true)
         (valid_segments ld) ->
  json_object_get (line_cache_json env now key ld) "segments" =
  Some (JArray (map (fun seg => JString (segment_string seg)) (valid_segments ld))).
Proof.
  intros Hall. unfold line_cache_json.
  rewrite (segments_array_accepted env _ [] Hall).
  unfold json_string. now destruct (utf8_check_string env key).
Qed.

Lemma save_line_cache_ok env now dir fs key ld fs' :
  save_line_cache env now dir fs key ld = (0, fs') ->
  C.strlen (cache_file_format dir key) < MAX_PATH_LENGTH /\
  json_load_file fs' (cache_file_format dir key) = Some (line_cache_json env now key ld).
Proof.
  unfold save_line_cache, json_dump_file.
  destruct (Z.leb_spec MAX_PATH_LENGTH (C.strlen (cache_file_format dir key))) as [|Hfit];
    [discriminate|].
  destruct (fopen_w env (cache_file_format dir key)); [|discriminate].
  intros [= <-]. split; [exact Hfit|].
  unfold json_load_file. cbn. now rewrite lookup_insert_eq.
Qed.

Lemma valid_segments_length ld :
  array_ok ld -> 0 <= segment_count ld <= MAX_SEGMENTS ->
  Z.of_nat (length (valid_segments ld)) = segment_count ld.
Proof.
  unfold array_ok, valid_segments. intros H1 H2. rewrite length_take. lia.
Qed.

(** A corrected form of C2.  When [save_line_cache] reports success, a
    following [load_line_cache] with the same key succeeds and returns the
    saved [segment_count], [visible_length] and segments, for every record
    that is as the C type holds it (array of [MAX_SEGMENTS] slots, count
    within it, strings shorter than their arrays, [int] numbers), whose
    segments the five-field format can carry (no ['|'] in a string, [bold]
    0 or 1) and whose segment strings jansson accepts.  The destination may
    hold anything before the load. *)
Theorem save_then_load_round_trip
    (env : Env) (now : Z) (g : Globals) (fs fs' : gmap string file_content)
    (key : string) (ld dst : LineData) :
  array_ok ld -> array_ok dst ->
  0 <= segment_count ld <= MAX_SEGMENTS ->
  C.is_int (visible_length ld) = true ->
  forallb (fun seg => fits_struct seg && storable seg &&
                      utf8_check_string env (segment_string seg))
          (valid_segments ld) = true ->
  save_line_cache env now (cache_dir g) fs key ld = (0, fs') ->
  exists g' loaded,
    load_line_cache g fs' key dst = (0, g', loaded) /\
    segment_count loaded = segment_count ld /\
    visible_length loaded = visible_length ld /\
    valid_segments loaded = valid_segments ld.
Proof.
  intros Hld Hdst Hcount Hvl Hall Hsave.
  assert (Hsegs : Forall (fun seg => fits_struct seg = true /\ storable seg = true)
                         (valid_segments ld)).
  { apply Forall_forall. intros seg Hin.
    apply list_elem_of_In in Hin.
    rewrite forallb_forall in Hall. specialize (Hall seg Hin).
    apply andb_true_iff in Hall as [Hall _]. now apply andb_true_iff in Hall. }
  assert (Hutf8 : Forall (fun seg => utf8_check_string env (segment_string seg) = true)
                         (valid_segments ld)).
  { apply Forall_forall. intros seg Hin.
    apply list_elem_of_In in Hin.
    rewrite forallb_forall in Hall. specialize (Hall seg Hin).
    now apply andb_true_iff in Hall as [_ Hall]. }
  destruct (save_line_cache_ok _ _ _ _ _ _ _ Hsave) as [Hfit Hfile].
  unfold load_line_cache.
  destruct (Z.leb_spec MAX_PATH_LENGTH (C.strlen (cache_file_format (cache_dir g) key)));
    [lia|].
  rewrite Hfile. eexists _, _. split; [reflexivity|].
  unfold load_from_json.
  rewrite line_cache_json_visible_length, (line_cache_json_segments _ _ _ _ Hutf8).
  rewrite (to_int32_id _ Hvl).
  set (ld0 := {| segments := segments dst; segment_count := 0;
                 visible_length := visible_length ld |}).
  pose proof (valid_segments_length ld Hld Hcount) as Hlen.
  destruct (load_items_stored (valid_segments ld) ld0 Hsegs Hdst) as (_ & B2 & B3 & B4).
  { cbn. lia. }
  { cbn. lia. }
  split; [rewrite B2; cbn; lia|]. split; [exact B3|]. rewrite B4. reflexivity.
Qed.

Lemma save_then_load_round_trip_witness :
  let ld := parse_fresh ("ab" +:+ String C.ESC "[1;31mcd") blank_line in
  let fs' := snd (save_line_cache plain_env 0 (cache_dir plain_globals) ∅ "12_34" ld) in
  exists g' loaded,
    load_line_cache plain_globals fs' "12_34" blank_line = (0, g', loaded) /\
    segment_count loaded = segment_count ld /\
    visible_length loaded = visible_length ld /\
    valid_segments loaded = valid_segments ld.
Proof.
  intros ld fs'.
  apply (save_then_load_round_trip plain_env 0 plain_globals ∅ fs' "12_34" ld blank_line).
  - vm_compute; reflexivity.
  - vm_compute; reflexivity.
  - vm_compute; split; discriminate.
  - vm_compute; reflexivity.
  - vm_compute; reflexivity.
  - vm_compute; reflexivity.
Defined.

(** C2 as stated fails for a key whose cache path does not fit
    [MAX_PATH_LENGTH]: nothing is saved, and the load is a miss that leaves
    the destination as it was. *)
Lemma long_key_is_not_cached :
  let key := repeat_string 500 "k" in
  let ld := line_of [ {| text := "Hi"; fg_color := "#ffffff"; bg_color := "";
                         bold := 0; visible_pos := 0 |} ] 2 in
  let saved := save_line_cache plain_env 0 (cache_dir plain_globals) ∅ key ld in
  fst saved = -1 /\
  load_line_cache plain_globals (snd saved) key blank_line =
    (-1, count_segment_miss plain_globals, blank_line) /\
  segment_count blank_line <> segment_count ld.
Proof.
  split; [vm_compute; reflexivity|]. split; [vm_compute; reflexivity|].
  vm_compute. discriminate.
Qed.

(** The ['|'] of a text is taken for a field separator when the segment is
    read back: ["a|b"] in the default colour returns as text ["a"] with
    foreground ["b"] and background ["#ffffff"]. *)
Example pipe_in_text_is_not_read_back :
  let ld := line_of [ {| text := "a|b"; fg_color := "#ffffff"; bg_color := "";
                         bold := 0; visible_pos := 0 |} ] 3 in
  let saved := save_line_cache plain_env 0 (cache_dir plain_globals) ∅ "12_34" ld in
  fst saved = 0 /\
  fst (fst (load_line_cache plain_globals (snd saved) "12_34" blank_line)) = 0 /\
  valid_segments (snd (load_line_cache plain_globals (snd saved) "12_34" blank_line)) =
    [ {| text := "a"; fg_color := "b"; bg_color := "#ffffff";
         bold := 0; visible_pos := 0 |} ].
Proof. repeat split; vm_compute; reflexivity. Qed.

(** C6 fails on the code.  The slot written by [load_line_cache] keeps
    what it held for every field the stored string does not have: here the
    string has three fields, and the [bold] flag 1 and the position 7 of
    the destination survive the load. *)
Theorem missing_fields_keep_stale_values :
  let stale := {| text := "old"; fg_color := "#000000"; bg_color := "#111111";
                  bold := 1; visible_pos := 7 |} in
  let dst := line_of [stale] 3 in
  let root := JObject [ ("visible_length", JInteger 2);
                        ("segments", JArray [JString "Hi|#ffffff|"]) ] in
  let fs : gmap string file_content :=
    {[ cache_file_format (cache_dir plain_globals) "12_34" := FileJson root ]} in
  split_fields 5 "Hi|#ffffff|" = ["Hi"; "#ffffff"; ""] /\
  fst (fst (load_line_cache plain_globals fs "12_34" dst)) = 0 /\
  valid_segments (snd (load_line_cache plain_globals fs "12_34" dst)) =
    [ {| text := "Hi"; fg_color := "#ffffff"; bg_color := "";
         bold := 1; visible_pos := 7 |} ].
Proof. repeat split; vm_compute; reflexivity. Qed.

(** The same for every stored string and every destination: with at most
    three fields present, [bold] and [visible_pos] are the old ones. *)
Lemma fill_fields_short parts slot :
  (length parts <= 3)%nat ->
  bold (fill_fields parts slot) = bold slot /\
  visible_pos (fill_fields parts slot) = visible_pos slot.
Proof.
  intros H. unfold fill_fields. cbn.
  rewrite !lookup_ge_None_2 by lia. auto.
Qed.

(** ** Hashes and fingerprints *)

Lemma append_inj_r s t u : s +:+ u = t +:+ u -> s = t.
Proof.
  revert t; induction s as [|c s IH]; intros [|d t] H.
  - reflexivity.
  - apply (f_equal String.length) in H.
    rewrite append_nil_l, append_cons in H. cbn in H.
    rewrite length_append in H. lia.
  - apply (f_equal String.length) in H.
    rewrite append_nil_l, append_cons in H. cbn in H.
    rewrite length_append in H. lia.
  - rewrite !append_cons in H. injection H as -> H. f_equal. now apply IH.
Qed.

Lemma append_inj_l s t u : s +:+ t = s +:+ u -> t = u.
Proof. apply String.app_inj. Qed.

Lemma fallback_hash_from_range data hash :
  0 <= hash < 2 ^ 32 -> 0 <= fallback_hash_from data hash < 2 ^ 32.
Proof.
  revert hash; induction data as [|d more IH]; intros hash H; [exact H|].
  cbn. apply IH. unfold C.to_uint32. apply Z.mod_pos_bound. reflexivity.
Qed.

Lemma generate_hash_range env input : 0 <= generate_hash env input < 2 ^ 32.
Proof.
  unfold generate_hash. destruct (popen_fgets env (hash_command input)).
  - unfold C.to_uint32. apply Z.mod_pos_bound. reflexivity.
  - apply fallback_hash_from_range. change (2 ^ 32) with 4294967296. lia.
Qed.

Lemma fmt_u_inj a b : 0 <= a -> 0 <= b -> C.fmt_u a = C.fmt_u b -> a = b.
Proof.
  intros Ha Hb H. rewrite <- !fmt_d_nonneg in H by assumption. now apply fmt_d_inj.
Qed.

(** A printed hash fits the [MAX_HASH_LENGTH] buffer. *)
Lemma hash_string_fits h :
  0 <= h < 2 ^ 32 -> C.snprintf MAX_HASH_LENGTH (C.fmt_u h) = C.fmt_u h.
Proof.
  intros H. apply snprintf_fits. unfold C.strlen, MAX_HASH_LENGTH.
  change (2 ^ 32) with (2 ^ Z.of_nat 32) in H.
  pose proof (fmt_u_length h 32 H). lia.
Qed.

Lemma config_format_int f v c :
  config_format (set_int f v c) = config_format c -> v = get_int f c.
Proof.
  unfold config_format. intros H.
  destruct f; cbn [set_int get_int font_family font_size font_width font_height
                   font_weight width height wrap tab_size] in H;
    repeat (apply append_inj_l in H);
    apply append_inj_r in H; now apply fmt_d_inj.
Qed.

Lemma config_format_double f x c :
  config_format (set_double f x c) = config_format c <->
  C.fmt_2f x = C.fmt_2f (get_double f c).
Proof.
  unfold config_format. split; intros H.
  - destruct f; cbn [set_double get_double font_family font_size font_width font_height
                     font_weight width height wrap tab_size] in H;
      repeat (apply append_inj_l in H);
      now apply append_inj_r in H.
  - destruct f; cbn [set_double get_double font_family font_size font_width font_height
                     font_weight width height wrap tab_size] in *;
      now rewrite H.
Qed.

(** A corrected form of C7.  Changing one of the integer fields that are
    printed ([font_size], [font_weight], [width], [height], [tab_size])
    changes the canonical string, and then the fingerprint is different
    whenever the hashes of the two strings are.  Changing [font_width] or
    [font_height] leaves the string the same exactly when the two values
    print alike with two decimals.  Configurations that differ in other
    fields only ([font_width_explicit], [font_height_explicit], the file
    names) have the same string. *)
Theorem config_string_separates (c : Config) :
  C.strlen (config_format c) < 1024 ->
  (forall f v,
      C.strlen (config_format (set_int f v c)) < 1024 ->
      v <> get_int f c ->
      config_string (set_int f v c) <> config_string c /\
      forall env,
        generate_hash env (config_string (set_int f v c)) <>
        generate_hash env (config_string c) ->
        generate_config_hash env (set_int f v c) <> generate_config_hash env c) /\
  (forall f x,
      C.strlen (config_format (set_double f x c)) < 1024 ->
      (config_string (set_double f x c) = config_string c <->
       C.fmt_2f x = C.fmt_2f (get_double f c))) /\
  (forall c', same_printed_fields c' c -> config_string c' = config_string c).
Proof.
  intros Hc. split; [|split].
  - unfold config_string. rewrite (snprintf_fits _ _ Hc).
    intros f v Hv Hne. rewrite (snprintf_fits _ _ Hv). split.
    + intros H. apply Hne. now apply config_format_int.
    + intros env Hhash H. apply Hhash. unfold generate_config_hash, config_string in H.
      rewrite (snprintf_fits _ _ Hc), (snprintf_fits _ _ Hv) in H.
      pose proof (generate_hash_range env (config_format (set_int f v c))).
      pose proof (generate_hash_range env (config_format c)).
      rewrite !hash_string_fits in H by assumption.
      apply fmt_u_inj in H; lia.
  - unfold config_string. rewrite (snprintf_fits _ _ Hc).
    intros f x Hx. rewrite (snprintf_fits _ _ Hx). apply config_format_double.
  - intros c' (H1 & H2 & H3 & H4 & H5 & H6 & H7 & H8 & H9).
    unfold config_string, config_format.
    now rewrite H1, H2, H3, H4, H5, H6, H7, H8, H9.
Qed.

Lemma config_string_separates_witness :
  config_string (set_int FontSize 15 default_config) <> config_string default_config.
Proof.
  apply (config_string_separates default_config).
  - vm_compute. reflexivity.
  - vm_compute. reflexivity.
  - vm_compute. discriminate.
Defined.

(** C7 as stated fails: [font_width_explicit] is a numeric field of the
    record that is not printed, and two widths that agree to two decimals
    (8.5 and 8.501953125) print alike. *)
Lemma unprinted_fields_share_a_string :
  let c1 := default_config in
  let c2 := set_font_width_explicit 1 default_config in
  let c3 := set_double FontWidth {| C.mantissa := 4353; C.exponent := -9 |} default_config in
  font_width_explicit c1 <> font_width_explicit c2 /\
  config_string c1 = config_string c2 /\
  font_width c1 <> font_width c3 /\
  config_string c1 = config_string c3 /\
  config_string c1 = "Consolas|14|8.50|17.00|400|80|0|false|8|#1e1e1e|#ffffff|20".
Proof. repeat split; try discriminate; vm_compute; reflexivity. Qed.

Lemma take_append_long n a b :
  (String.length a <= n)%nat ->
  C.take n (a +:+ b) = a +:+ C.take (n - String.length a) b.
Proof.
  revert n; induction a as [|c a IH]; intros n H.
  - cbn. now rewrite Nat.sub_0_r.
  - destruct n as [|n]; [cbn in H; lia|].
    rewrite !append_cons. cbn. rewrite IH by (cbn in H; lia). reflexivity.
Qed.

Lemma posix_cksum_range input : 0 <= Cksum.posix_cksum input < 2 ^ 32.
Proof.
  unfold Cksum.posix_cksum. change 0xFFFFFFFF with (Z.ones 32).
  rewrite Z.land_ones by lia. apply Z.mod_pos_bound. reflexivity.
Qed.

(** What [generate_hash] makes of the line [cksum] prints. *)
Lemma strtoul_cksum_line input :
  C.to_uint32 (C.strtoul (C.take 63 (Cksum.cksum_line input))) = Cksum.posix_cksum input.
Proof.
  pose proof (posix_cksum_range input) as Hr.
  assert (Hlen : (String.length (C.fmt_u (Cksum.posix_cksum input)) <= 32)%nat).
  { change (2 ^ 32) with (2 ^ Z.of_nat 32) in Hr.
    pose proof (fmt_u_length _ 32 Hr). lia. }
  unfold Cksum.cksum_line. rewrite take_append_long by lia.
  remember (63 - String.length (C.fmt_u (Cksum.posix_cksum input)))%nat as k eqn:Hk.
  destruct k as [|k]; [lia|].
  assert (Hsp : forall x, " " +:+ x = String " " x) by reflexivity.
  rewrite Hsp. cbn [C.take].
  unfold C.strtoul. rewrite sign_and_digits_fmt_u by (lia || reflexivity).
  unfold C.ULONG_MAX, C.to_uint32.
  destruct (Z.ltb_spec (2 ^ 64 - 1) (Cksum.posix_cksum input)) as [Hbig|_].
  - change (2 ^ 64 - 1) with 18446744073709551615 in Hbig.
    change (2 ^ 32) with 4294967296 in Hr. lia.
  - now apply Z.mod_small.
Qed.

(** A corrected form of C1.  [generate_hash] is a function of its input
    and of what the external command [hash_command input] answers: it is
    an [unsigned int]; two environments that answer that command alike
    give the same hash; when the answer is the line POSIX [cksum] prints
    for the input, the hash is the POSIX checksum of the input; when there
    is no answer, it is the base-31 fallback computed in the process. *)
Theorem generate_hash_follows_cksum (env : Env) (input : string) :
  0 <= generate_hash env input < 2 ^ 32 /\
  (forall env',
      popen_fgets env' (hash_command input) = popen_fgets env (hash_command input) ->
      generate_hash env' input = generate_hash env input) /\
  (popen_fgets env (hash_command input) = Some (Cksum.cksum_line input) ->
   generate_hash env input = Cksum.posix_cksum input) /\
  (popen_fgets env (hash_command input) = None ->
   generate_hash env input = fallback_hash input).
Proof.
  split; [apply generate_hash_range|]. unfold generate_hash. split; [|split].
  - intros env' H. now rewrite H.
  - intros H. rewrite H. apply strtoul_cksum_line.
  - intros H. now rewrite H.
Qed.

Lemma generate_hash_follows_cksum_witness :
  generate_hash cksum_env "123456789" = Cksum.posix_cksum "123456789" /\
  Cksum.posix_cksum "123456789" = 930766865.
Proof.
  split; [|vm_compute; reflexivity].
  apply (generate_hash_follows_cksum cksum_env "123456789").
  vm_compute. reflexivity.
Defined.

(** C1 as stated fails: the hash is not computed in the process.  The
    function hands the command below to the shell, and its result is what
    the answer says: without an answer the hash of ["a"] is 97, which is
    not the POSIX checksum 1220704766 that an answering [cksum] yields for
    the same input. *)
Lemma generate_hash_asks_the_shell :
  hash_command "a" = "printf '%s' 'a' | cksum" /\
  generate_hash plain_env "a" = 97 /\
  generate_hash cksum_env "a" = 1220704766 /\
  Cksum.posix_cksum "a" = 1220704766.
Proof. repeat split; vm_compute; reflexivity. Qed.

(** The input is pasted between single quotes unescaped: a quote in it
    ends the argument early. *)
Example hash_command_quote :
  hash_command "it's" = "printf '%s' 'it's' | cksum".
Proof. vm_compute. reflexivity. Qed.

(** *** The environment [cksum_env] *)

Lemma substring_front b c : substring 0 (String.length b) (b +:+ c) = b.
Proof.
  induction b as [|y b IH]; [rewrite append_nil_l; now destruct c|].
  rewrite append_cons. cbn. now rewrite IH.
Qed.

Lemma substring_middle a b c :
  substring (String.length a) (String.length b) (a +:+ b +:+ c) = b.
Proof.
  induction a as [|x a IH]; [rewrite append_nil_l; apply substring_front|].
  rewrite append_cons. cbn. exact IH.
Qed.

Lemma prefix_append a b : String.prefix a (a +:+ b) = true.
Proof.
  induction a as [|x a IH]; [rewrite append_nil_l; now destruct b|].
  rewrite append_cons. cbn. destruct (ascii_dec x x); [exact IH|congruence].
Qed.

Lemma quoted_argument_hash_command input :
  C.mem "'" input = false ->
  C.strlen input < MAX_LINE_LENGTH ->
  quoted_argument (hash_command input) = Some input.
Proof.
  intros Hq Hlen. unfold hash_command.
  set (head := "printf '%s' '"). set (tail := "' | cksum").
  assert (Hh : String.length head = 13%nat) by reflexivity.
  assert (Ht : String.length tail = 9%nat) by reflexivity.
  rewrite snprintf_fits.
  2:{ rewrite !strlen_append. unfold C.strlen in *. rewrite Hh, Ht.
      unfold MAX_LINE_LENGTH in *. lia. }
  set (cmd := head +:+ input +:+ tail).
  assert (En : String.length cmd = (13 + String.length input + 9)%nat).
  { subst cmd. rewrite !length_append, Hh, Ht. lia. }
  assert (E1 : String.prefix head cmd = true) by apply prefix_append.
  assert (E3 : substring (String.length cmd - 9) 9 cmd = tail).
  { replace (String.length cmd - 9)%nat with (String.length (head +:+ input))
      by (rewrite En, length_append, Hh; lia).
    rewrite <- Ht. subst cmd.
    rewrite <- (append_nil_r tail) at 2. rewrite <- append_assoc.
    apply substring_middle. }
  assert (E4 : substring 13 (String.length cmd - 13 - 9) cmd = input).
  { replace (String.length cmd - 13 - 9)%nat with (String.length input)
      by (rewrite En; lia).
    rewrite <- Hh. apply substring_middle. }
  unfold quoted_argument. cbv zeta. fold head tail. rewrite Hh, Ht, E1, E3, E4.
  rewrite String.eqb_refl, Hq.
  replace (13 + 9 <=? String.length cmd)%nat with true
    by (symmetry; apply Nat.leb_le; lia).
  reflexivity.
Qed.

(** In [cksum_env] every input without a single quote that fits the
    command buffer gets its POSIX checksum. *)
Lemma generate_hash_cksum_env input :
  C.mem "'" input = false ->
  C.strlen input < MAX_LINE_LENGTH ->
  generate_hash cksum_env input = Cksum.posix_cksum input.
Proof.
  intros Hq Hlen. unfold generate_hash.
  cbn [popen_fgets cksum_env].
  rewrite (quoted_argument_hash_command input Hq Hlen).
  apply strtoul_cksum_line.
Qed.

(** *** The global fingerprint *)

Lemma generate_hash_ext env1 env2 input :
  (forall command, popen_fgets env1 command = popen_fgets env2 command) ->
  generate_hash env1 input = generate_hash env2 input.
Proof. intros H. unfold generate_hash. now rewrite H. Qed.

Lemma hash_input_lines_ext env1 env2 lines :
  (forall command, popen_fgets env1 command = popen_fgets env2 command) ->
  hash_input_lines env1 lines = hash_input_lines env2 lines.
Proof.
  intros H. unfold hash_input_lines. apply map_ext. intros line.
  now rewrite (generate_hash_ext env1 env2 line H).
Qed.

Lemma fold_append_init (hashes : list string) init :
  fold_left (fun acc h => acc +:+ h) hashes init
  = init +:+ fold_left (fun acc h => acc +:+ h) hashes "".
Proof.
  revert init; induction hashes as [|h hashes IH]; intros init; cbn [fold_left].
  - now rewrite append_nil_r.
  - rewrite (IH (init +:+ h)), (IH ("" +:+ h)), append_nil_l, append_assoc. reflexivity.
Qed.

Lemma combined_hashes_app env lines1 lines2 :
  combined_hashes env (lines1 ++ lines2)
  = combined_hashes env lines1 +:+ combined_hashes env lines2.
Proof.
  unfold combined_hashes, hash_input_lines. rewrite map_app, fold_left_app.
  apply fold_append_init.
Qed.

Lemma combined_hashes_cons env line lines :
  combined_hashes env (line :: lines)
  = C.fmt_u (generate_hash env line) +:+ combined_hashes env lines.
Proof.
  unfold combined_hashes, hash_input_lines. cbn [map fold_left].
  rewrite fold_append_init, append_nil_l.
  now rewrite (hash_string_fits _ (generate_hash_range env line)).
Qed.

(** The fingerprint is the printed hash of the concatenated line hashes. *)
Lemma run_fingerprint_combined env lines :
  run_fingerprint env lines = C.fmt_u (generate_hash env (combined_hashes env lines)).
Proof.
  unfold run_fingerprint, generate_global_input_hash, after_read_input, combined_hashes.
  cbn [hash_cache input_line_count]. rewrite Nat2Z.id.
  replace (length lines) with (length (hash_input_lines env lines))
    by (unfold hash_input_lines; apply length_map).
  rewrite firstn_all. apply hash_string_fits, generate_hash_range.
Qed.

Lemma append_inj_same_length a b x y :
  String.length a = String.length b -> a +:+ x = b +:+ y -> a = b /\ x = y.
Proof.
  revert b; induction a as [|c a IH]; intros [|d b] Hlen H; try discriminate Hlen.
  - now rewrite !append_nil_l in H.
  - rewrite !append_cons in H. injection H as -> H. injection Hlen as Hlen.
    destruct (IH b Hlen H) as [-> ->]. now split.
Qed.

(** A corrected form of C8.  The global fingerprint is the same for two
    runs over the same lines in the same order whenever the external
    command answers alike in both, and inputs with the same list of line
    hashes have the same fingerprint.  The fingerprint is the printed
    32-bit hash of the concatenated decimal line hashes, so two inputs
    have different fingerprints exactly when that hash tells their
    concatenated line hashes apart.  A change of one line that changes
    its hash always changes the concatenation, and so does a swap of two
    lines whose hashes differ and have the same number of digits. *)
Theorem global_fingerprint_follows_line_hashes :
  (forall env1 env2 lines,
      (forall command, popen_fgets env1 command = popen_fgets env2 command) ->
      run_fingerprint env1 lines = run_fingerprint env2 lines) /\
  (forall env lines1 lines2,
      hash_input_lines env lines1 = hash_input_lines env lines2 ->
      run_fingerprint env lines1 = run_fingerprint env lines2) /\
  (forall env lines1 lines2,
      run_fingerprint env lines1 <> run_fingerprint env lines2 <->
      generate_hash env (combined_hashes env lines1)
      <> generate_hash env (combined_hashes env lines2)) /\
  (forall env before line line' after,
      generate_hash env line <> generate_hash env line' ->
      combined_hashes env (before ++ line :: after)
      <> combined_hashes env (before ++ line' :: after)) /\
  (forall env before line between line' after,
      generate_hash env line <> generate_hash env line' ->
      C.strlen (C.fmt_u (generate_hash env line))
      = C.strlen (C.fmt_u (generate_hash env line')) ->
      combined_hashes env (before ++ line :: between ++ line' :: after)
      <> combined_hashes env (before ++ line' :: between ++ line :: after)).
Proof.
  split; [|split; [|split; [|split]]].
  - intros env1 env2 lines H.
    unfold run_fingerprint, generate_global_input_hash, after_read_input.
    cbn [hash_cache input_line_count].
    rewrite (hash_input_lines_ext env1 env2 lines H).
    now rewrite (generate_hash_ext env1 env2 _ H).
  - intros env lines1 lines2 H.
    unfold run_fingerprint, generate_global_input_hash, after_read_input.
    cbn [hash_cache input_line_count].
    assert (Hlen : length lines1 = length lines2).
    { apply (f_equal (@length string)) in H. unfold hash_input_lines in H.
      now rewrite !length_map in H. }
    now rewrite H, Hlen.
  - intros env lines1 lines2. rewrite !run_fingerprint_combined.
    pose proof (generate_hash_range env (combined_hashes env lines1)).
    pose proof (generate_hash_range env (combined_hashes env lines2)).
    split; intros Hne E; apply Hne; [now rewrite E | apply fmt_u_inj; [lia | lia | exact E]].
  - intros env before line line' after Hne E.
    rewrite !combined_hashes_app, !combined_hashes_cons in E.
    apply append_inj_l, append_inj_r in E.
    pose proof (generate_hash_range env line). pose proof (generate_hash_range env line').
    apply Hne, fmt_u_inj; [lia | lia | exact E].
  - intros env before line between line' after Hne Hlen E.
    rewrite !combined_hashes_app, !combined_hashes_cons in E.
    rewrite !combined_hashes_app, !combined_hashes_cons in E.
    apply append_inj_l in E.
    apply append_inj_same_length in E as [E _]; [|unfold C.strlen in Hlen; lia].
    pose proof (generate_hash_range env line). pose proof (generate_hash_range env line').
    apply Hne, fmt_u_inj; [lia | lia | exact E].
Qed.

Lemma global_fingerprint_follows_line_hashes_witness :
  run_fingerprint cksum_env [line_a; "x"] = run_fingerprint cksum_env [line_b; "x"] /\
  combined_hashes cksum_env ["a"; "x"] <> combined_hashes cksum_env ["b"; "x"] /\
  combined_hashes cksum_env ["a"; "x"; "c"] <> combined_hashes cksum_env ["c"; "x"; "a"].
Proof.
  split; [|split].
  - apply (proj1 (proj2 global_fingerprint_follows_line_hashes) cksum_env
                 [line_a; "x"] [line_b; "x"]).
    vm_compute. reflexivity.
  - apply (proj1 (proj2 (proj2 (proj2 global_fingerprint_follows_line_hashes)))
                 cksum_env [] "a" "b" ["x"]).
    vm_compute. discriminate.
  - apply (proj2 (proj2 (proj2 (proj2 global_fingerprint_follows_line_hashes)))
                 cksum_env [] "a" ["x"] "c" []).
    + vm_compute. discriminate.
    + vm_compute. reflexivity.
Defined.

(** C8 as stated fails: two lines with the same checksum stand for each
    other.  Changing the first line from [line_a] to [line_b], or swapping
    the two, leaves the fingerprint as it was. *)
Lemma colliding_lines_share_a_fingerprint :
  line_a <> line_b /\
  generate_hash cksum_env line_a = Cksum.posix_cksum line_a /\
  generate_hash cksum_env line_b = Cksum.posix_cksum line_b /\
  Cksum.posix_cksum line_a = Cksum.posix_cksum line_b /\
  run_fingerprint cksum_env [line_a; "x"] = run_fingerprint cksum_env [line_b; "x"] /\
  run_fingerprint cksum_env [line_a; line_b] = run_fingerprint cksum_env [line_b; line_a].
Proof. split; [discriminate|]. repeat split; vm_compute; reflexivity. Qed.

(** The line hashes are concatenated with nothing between them.  When
    the shell cannot be asked, the one-byte lines 01 and 0B have the
    hashes 1 and 11; in either order they give the string 111, so the
    swap keeps the fingerprint although the list of hashes changes. *)
Example swap_with_hashes_of_different_length :
  let one := String "001" "" in
  let eleven := String "011" "" in
  hash_input_lines plain_env [one; eleven] = ["1"; "11"] /\
  hash_input_lines plain_env [eleven; one] = ["11"; "1"] /\
  combined_hashes plain_env [one; eleven] = combined_hashes plain_env [eleven; one] /\
  run_fingerprint plain_env [one; eleven] = run_fingerprint plain_env [eleven; one].
Proof. repeat split; vm_compute; reflexivity. Qed.

(** ** The incremental cache *)

(** A corrected form of C9.  [save_incremental_cache] writes its document
    straight onto the incremental cache file: the file is opened with
    truncation and then written, no other path is touched and nothing is
    renamed.  When the file can be opened the call returns 0 and the file
    then holds the new document; otherwise it returns -1 and changes
    nothing.  Between the two steps the file holds no document at all,
    whatever it held before. *)
Theorem save_incremental_cache_writes_in_place
    (env : Env) (now : Z) (g : Globals) (fs : gmap string file_content)
    (config_hash : string) :
  let file := incremental_cache_file g in
  let doc := incremental_cache_json env now g config_hash in
  let steps := save_incremental_cache_steps env now g config_hash in
  steps = [OpenTruncate file; WriteDocument file doc] /\
  existsb is_rename steps = false /\
  (fopen_w env file = true ->
   save_incremental_cache env now g fs config_hash = (0, run_steps steps fs) /\
   json_load_file (run_steps steps fs) file = Some doc /\
   forall other, other <> file -> run_steps steps fs !! other = fs !! other) /\
  (fopen_w env file = false ->
   save_incremental_cache env now g fs config_hash = (-1, fs)) /\
  json_load_file (run_steps (take 1 steps) fs) file = None.
Proof.
  intros file doc steps. split; [reflexivity|]. split; [reflexivity|].
  split; [|split].
  - intros Hopen. unfold save_incremental_cache, json_dump_file. fold file. rewrite Hopen.
    split; [reflexivity|]. split.
    + unfold json_load_file. subst steps. cbn. now rewrite lookup_insert_eq.
    + intros other Hother. subst steps. cbn.
      assert (Hne : file <> other) by (intros E; now apply Hother).
      now rewrite !lookup_insert_ne by exact Hne.
  - intros Hopen. unfold save_incremental_cache, json_dump_file. fold file.
    now rewrite Hopen.
  - unfold json_load_file. subst steps. cbn. now rewrite lookup_insert_eq.
Qed.

Lemma save_incremental_cache_writes_in_place_witness :
  let g := after_read_input cksum_env ["x"] in
  let fs : gmap string file_content := ∅ in
  json_load_file (snd (save_incremental_cache cksum_env 0 g fs "77"))
                 (incremental_cache_file g) =
  Some (incremental_cache_json cksum_env 0 g "77").
Proof.
  intros g fs.
  destruct (save_incremental_cache_writes_in_place cksum_env 0 g fs "77")
    as (_ & _ & H & _).
  destruct H as (H1 & H2 & _); [reflexivity|].
  rewrite H1. exact H2.
Defined.

(** C9 as stated fails: there is no temporary file and no rename.  With a
    valid incremental cache on disk, the first step of the save empties
    that very file, and a stop at that point leaves no previous state to
    load. *)
Lemma incremental_cache_is_truncated_first :
  let g := after_read_input cksum_env ["x"] in
  let file := incremental_cache_file g in
  let previous := JObject [("global_input_hash", JString "12738659")] in
  let fs : gmap string file_content := {[ file := FileJson previous ]} in
  let steps := save_incremental_cache_steps cksum_env 0 g "77" in
  existsb is_rename steps = false /\
  head steps = Some (OpenTruncate file) /\
  json_load_file fs file = Some previous /\
  run_steps (take 1 steps) fs !! file = Some FileTruncated /\
  json_load_file (run_steps (take 1 steps) fs) file = None.
Proof. repeat split; vm_compute; reflexivity. Qed.

(** ** [parse_ansi_line] and its cache *)

(** Without hashes the function is the parse proper. *)
Lemma parse_ansi_line_without_hashes env now g fs line dst :
  parse_ansi_line env now g fs line None None dst = (0, g, fs, parse_fresh line dst).
Proof. reflexivity. Qed.

(** On a cache hit the record is the loaded one and nothing is parsed. *)
Lemma parse_ansi_line_hit env now g fs line lh ch dst g' loaded :
  0 < C.strlen lh -> 0 < C.strlen ch ->
  load_line_cache g fs (get_cache_key lh ch) dst = (0, g', loaded) ->
  parse_ansi_line env now g fs line (Some lh) (Some ch) dst = (0, g', fs, loaded).
Proof.
  intros H1 H2 Hload. unfold parse_ansi_line.
  apply Z.ltb_lt in H1, H2. rewrite H1, H2, Hload. reflexivity.
Qed.

(** On a miss the record is the freshly parsed one, and it is what is
    handed to [save_line_cache]. *)
Lemma parse_ansi_line_miss env now g fs line lh ch dst :
  fst (fst (load_line_cache g fs (get_cache_key lh ch) dst)) = -1 ->
  let '(ret, _, fs', line_data) :=
    parse_ansi_line env now g fs line (Some lh) (Some ch) dst in
  ret = 0 /\ line_data = parse_fresh line dst /\
  fs' = snd (save_line_cache env now (cache_dir g) fs (get_cache_key lh ch)
                             (parse_fresh line dst)).
Proof.
  intros Hmiss. unfold parse_ansi_line.
  assert (Hdir : forall r gl l,
             load_line_cache g fs (get_cache_key lh ch) dst = (r, gl, l) ->
             cache_dir gl = cache_dir g).
  { unfold load_line_cache. intros r gl l.
    destruct (MAX_PATH_LENGTH <=? _); [now intros [= <- <- <-]|].
    destruct (json_load_file _ _); now intros [= <- <- <-]. }
  destruct (load_line_cache g fs (get_cache_key lh ch) dst) as [[r gl] l] eqn:E.
  cbn in Hmiss. subst r. specialize (Hdir _ _ _ eq_refl).
  destruct ((0 <? C.strlen lh) && (0 <? C.strlen ch)); cbn; rewrite ?Hdir;
    destruct (save_line_cache _ _ _ _ _ _); auto.
Qed.

(** ** Examples *)

(** The concrete cases of the specification. *)
Example parse_red_text :
  let r := parse_fresh (String C.ESC "[31mHi") blank_line in
  valid_segments r =
    [ {| text := "Hi"; fg_color := "#cd3131"; bg_color := ""; bold := 0; visible_pos := 0 |} ] /\
  visible_length r = 2.
Proof. split; vm_compute; reflexivity. Qed.

Example parse_bold_red_then_reset :
  let r := parse_fresh (String C.ESC "[1;31mHi" +:+ String C.ESC "[0m") blank_line in
  valid_segments r =
    [ {| text := "Hi"; fg_color := "#cd3131"; bg_color := ""; bold := 1; visible_pos := 0 |} ] /\
  segment_count r = 1.
Proof. split; vm_compute; reflexivity. Qed.

(** A background code takes the palette entry of the foreground code ten
    below it; a two-byte UTF-8 character counts as one column. *)
Example parse_background_and_utf8 :
  let r := parse_fresh (String C.ESC "[44m" +:+ String "195" (String "169" "t") +:+
                        String C.ESC "[mx") blank_line in
  valid_segments r =
    [ {| text := String "195" (String "169" "t"); fg_color := "#ffffff";
         bg_color := "#2472c8"; bold := 0; visible_pos := 0 |};
      {| text := "x"; fg_color := "#ffffff"; bg_color := ""; bold := 0; visible_pos := 2 |} ] /\
  visible_length r = 3.
Proof. split; vm_compute; reflexivity. Qed.

Example atoi_31 : C.atoi "31" = 31.
Proof. reflexivity. Qed.

Example atoi_signed : C.atoi "  -7x" = -7.
Proof. reflexivity. Qed.

Example atoi_text : C.atoi "xyz" = 0.
Proof. reflexivity. Qed.

Example fmt_d_negative : C.fmt_d (-120) = "-120".
Proof. reflexivity. Qed.

Example fmt_2f_ties_to_even :
  C.fmt_2f {| C.mantissa := 1; C.exponent := -3 |} = "0.12" /\
  C.fmt_2f {| C.mantissa := 3; C.exponent := -3 |} = "0.38".
Proof. split; reflexivity. Qed.

Example strtok_codes : C.strtok "1;;31;" ";" = ["1"; "31"].
Proof. reflexivity. Qed.

Example snprintf_cuts : C.snprintf 4 "abcdef" = "abc".
Proof. reflexivity. Qed.

Example cksum_check_values :
  Cksum.posix_cksum "" = 4294967295 /\ Cksum.posix_cksum "123456789" = 930766865.
Proof. split; vm_compute; reflexivity. Qed.

Example cache_key_order : get_cache_key "111" "222" = "222_111".
Proof. reflexivity. Qed.

(** ** What the parser writes *)

Lemma get_ansi_color_palette code : palette_color (get_ansi_color code).
Proof.
  unfold get_ansi_color, ansi_colors, get_ansi_color_from. cbn [andb Z.eqb String.eqb].
  repeat match goal with
         | |- context [if ?b then _ else _] => destruct b
         end; split; reflexivity.
Qed.

Lemma text_color_palette : palette_color TEXT_COLOR.
Proof. split; reflexivity. Qed.

Lemma style_ok_apply_code code st : style_ok st -> style_ok (apply_code code st).
Proof.
  intros (Hfg & Hbg & Hbold & Htext). unfold apply_code, reset_style, set_style, style_ok.
  pose proof text_color_palette. pose proof (get_ansi_color_palette code).
  pose proof (get_ansi_color_palette (code - 10)).
  repeat match goal with
         | |- context [if ?b then _ else _] => destruct b
         end; cbn; auto 10.
Qed.

Lemma style_ok_process_codes codes st : style_ok st -> style_ok (process_codes codes st).
Proof.
  intros H. unfold process_codes. destruct (C.strlen codes =? 0).
  - destruct H as (_ & _ & _ & Htext).
    unfold reset_style, set_style, style_ok. cbn [fg bg is_bold current_text].
    split; [exact text_color_palette|]. split; [now left|]. split; [now left|exact Htext].
  - generalize (C.strtok codes ";"). intros tokens. revert st H.
    induction tokens as [|t tokens IH]; intros st H; cbn; [exact H|].
    apply IH. now apply style_ok_apply_code.
Qed.

Lemma style_ok_add_char c st : style_ok st -> style_ok (add_char c st).
Proof.
  intros (Hfg & Hbg & Hbold & Htext). unfold add_char, current_text_pos.
  destruct (Z.ltb_spec (C.strlen (current_text st)) (MAX_LINE_LENGTH - 1)) as [Hlt|Hge].
  - unfold style_ok. cbn [fg bg is_bold current_text].
    split; [exact Hfg|]. split; [exact Hbg|]. split; [exact Hbold|].
    rewrite strlen_append. change (C.strlen (String c "")) with 1. lia.
  - exact (conj Hfg (conj Hbg (conj Hbold Htext))).
Qed.

Lemma can_save_text st : can_save st = true -> current_text st <> "".
Proof.
  unfold can_save, current_text_pos. intros H E. rewrite E in H. discriminate.
Qed.

Lemma sound_save_segment st : sound st -> can_save st = true -> sound (save_segment st).
Proof.
  intros (Ht & Hs & Hall) Hsave. pose proof (can_save_lt st Hsave) as Hlt.
  split; [now apply tiled_save_segment|]. split; [exact Hs|].
  destruct Ht as (Hok & Hcount & _). destruct Hs as (Hfg & Hbg & Hbold & Htext).
  rewrite valid_segments_save by (auto; lia).
  apply Forall_app. split; [exact Hall|].
  apply Forall_singleton.
  unfold emitted_ok. cbn [text fg_color bg_color bold].
  split; [now apply can_save_text|]. split; [exact Htext|].
  split; [exact Hfg|]. split; [exact Hbg|exact Hbold].
Qed.

Lemma sound_reset_text st : sound st -> sound (reset_text st).
Proof.
  intros (Ht & (Hfg & Hbg & Hbold & Htext) & Hall).
  split; [exact Ht|]. split; [|exact Hall].
  unfold style_ok. cbn [fg bg is_bold current_text reset_text].
  split; [exact Hfg|]. split; [exact Hbg|]. split; [exact Hbold|].
  unfold C.strlen, MAX_LINE_LENGTH. cbn. lia.
Qed.

Lemma sound_save_before_escape st : sound st -> sound (save_before_escape st).
Proof.
  intros H. unfold save_before_escape. destruct (can_save st) eqn:E; [|exact H].
  now apply sound_reset_text, sound_save_segment.
Qed.

Lemma sound_save_remaining st : sound st -> sound (save_remaining st).
Proof.
  intros H. unfold save_remaining. destruct (can_save st) eqn:E; [|exact H].
  now apply sound_save_segment.
Qed.

Lemma sound_process_codes codes st : sound st -> sound (process_codes codes st).
Proof.
  intros (Ht & Hs & Hall). destruct (process_codes_frame codes st) as (H1 & _ & _).
  split; [now apply tiled_process_codes|]. split; [now apply style_ok_process_codes|].
  now rewrite H1.
Qed.

Lemma sound_add_char c st : sound st -> sound (add_char c st).
Proof.
  intros (Ht & Hs & Hall). destruct (add_char_frame c st) as (H1 & _).
  split; [now apply tiled_add_char|]. split; [now apply style_ok_add_char|].
  now rewrite H1.
Qed.

Lemma sound_parse_loop ptr st : sound st -> sound (parse_loop ptr st).
Proof.
  apply (parse_loop_induction (fun _ st r => sound st -> sound r)).
  - auto.
  - intros c more st0 r _ IH H.
    apply IH, sound_process_codes, sound_save_before_escape, H.
  - intros c more st0 r _ IH H. apply IH, sound_add_char, H.
Qed.

Lemma sound_start dst : array_ok dst -> sound (start_state dst).
Proof.
  intros H. split; [now apply tiled_start|]. split.
  - unfold style_ok. cbn [fg bg is_bold current_text start_state].
    split; [exact text_color_palette|]. split; [now left|]. split; [now left|].
    unfold C.strlen, MAX_LINE_LENGTH. cbn. lia.
  - unfold valid_segments. cbn. constructor.
Qed.

Lemma utf8_strlen_le s : utf8_strlen s <= C.strlen s.
Proof.
  unfold C.strlen. induction s as [|c s IH]; cbn [utf8_strlen String.length]; [lia|].
  destruct (Z.land (C.code c) 192 =? 128); lia.
Qed.

Lemma total_codepoints_bound segs :
  Forall emitted_ok segs ->
  total_codepoints segs <= (MAX_LINE_LENGTH - 1) * Z.of_nat (length segs).
Proof.
  induction 1 as [|seg segs (_ & Hlen & _) _ IH]; cbn [total_codepoints length]; [lia|].
  pose proof (utf8_strlen_le (text seg)). lia.
Qed.

(** X1.  Every segment that [parse_ansi_line] writes has a text of 1 to
    [MAX_LINE_LENGTH - 1] bytes, a foreground of seven bytes, a background
    that is empty or of seven bytes, and a [bold] of 0 or 1; there are at
    most [MAX_SEGMENTS] of them and [visible_length] is at most
    [MAX_SEGMENTS * (MAX_LINE_LENGTH - 1)].  So every [strcpy] into a
    segment stays inside its array and no [int] overflows. *)
Theorem parse_fresh_segments_fit (line : string) (dst : LineData) :
  array_ok dst ->
  let r := parse_fresh line dst in
  Forall emitted_ok (valid_segments r) /\
  0 <= segment_count r <= MAX_SEGMENTS /\
  0 <= visible_length r <= MAX_SEGMENTS * (MAX_LINE_LENGTH - 1).
Proof.
  intros Hdst r.
  destruct (sound_save_remaining _ (sound_parse_loop line _ (sound_start dst Hdst)))
    as ((Hok & Hcount & Ht) & _ & Hall).
  change (Forall emitted_ok (valid_segments r)) in Hall.
  change (0 <= segment_count r <= MAX_SEGMENTS) in Hcount.
  change (tiles 0 (valid_segments r) (visible_length r)) in Ht.
  change (array_ok r) in Hok.
  split; [exact Hall|]. split; [exact Hcount|].
  pose proof (tiles_le _ _ _ Ht). apply tiles_total in Ht.
  pose proof (total_codepoints_bound _ Hall) as Hb.
  pose proof (valid_segments_length r Hok Hcount) as Hl.
  unfold MAX_LINE_LENGTH, MAX_SEGMENTS in *. nia.
Qed.

Lemma parse_fresh_segments_fit_witness :
  Forall emitted_ok
    (valid_segments (parse_fresh ("ab" +:+ String C.ESC "[1;31mcd") blank_line)).
Proof.
  apply (parse_fresh_segments_fit ("ab" +:+ String C.ESC "[1;31mcd") blank_line).
  vm_compute. reflexivity.
Defined.

(** *** A cached line is the parsed line *)

Lemma scan_codes_rest_free d p codes :
  C.mem d p = false -> C.mem d (snd (scan_codes p codes)) = false.
Proof.
  revert codes; induction p as [|c p IH]; intros codes H; [reflexivity|].
  cbn [scan_codes]. destruct (negb (Ascii.eqb c "m") && (C.strlen codes <? 64 - 1)).
  - apply IH. cbn in H. now apply orb_false_iff in H.
  - exact H.
Qed.

Lemma escape_rest_free d more :
  C.mem d more = false -> C.mem d (escape_rest more) = false.
Proof.
  intros H. unfold escape_rest.
  assert (Ha : C.mem d (after_introducer more) = false).
  { destruct more as [|c r]; [reflexivity|]. cbn in *. now apply orb_false_iff in H. }
  pose proof (scan_codes_rest_free d _ "" Ha) as Hs.
  destruct (snd (scan_codes (after_introducer more) "")) as [|c r]; [reflexivity|].
  destruct c as [[] [] [] [] [] [] [] []]; try exact Hs.
  cbn [skip_m]. cbn [C.mem] in Hs. now apply orb_false_iff in Hs.
Qed.

Lemma free_of_save_segment d st :
  tiled st -> can_save st = true -> free_of d st -> free_of d (save_segment st).
Proof.
  intros (Hok & Hcount & _) Hsave [Htext Hall]. pose proof (can_save_lt st Hsave).
  split; [exact Htext|].
  rewrite valid_segments_save by (auto; lia).
  apply Forall_app. split; [exact Hall|]. now apply Forall_singleton.
Qed.

Lemma free_of_save_before_escape d st :
  tiled st -> free_of d st -> free_of d (save_before_escape st).
Proof.
  intros Ht H. unfold save_before_escape. destruct (can_save st) eqn:E; [|exact H].
  destruct (free_of_save_segment d st Ht E H) as [_ Hall]. now split.
Qed.

Lemma free_of_save_remaining d st :
  tiled st -> free_of d st -> free_of d (save_remaining st).
Proof.
  intros Ht H. unfold save_remaining. destruct (can_save st) eqn:E; [|exact H].
  now apply free_of_save_segment.
Qed.

Lemma free_of_process_codes d codes st : free_of d st -> free_of d (process_codes codes st).
Proof.
  destruct (process_codes_frame codes st) as (H1 & _ & H3).
  unfold free_of. now rewrite H1, H3.
Qed.

Lemma free_of_add_char d c st :
  Ascii.eqb c d = false -> free_of d st -> free_of d (add_char c st).
Proof.
  intros Hc [Htext Hall]. unfold add_char. destruct (_ <? _); [|now split].
  split; [|exact Hall]. cbn [current_text]. rewrite mem_append, Htext. cbn.
  now rewrite Hc.
Qed.

Lemma free_of_parse_loop d ptr st :
  C.mem d ptr = false -> tiled st -> free_of d st ->
  free_of d (parse_loop ptr st).
Proof.
  apply (parse_loop_induction
           (fun ptr st r => C.mem d ptr = false -> tiled st -> free_of d st -> free_of d r)).
  - auto.
  - intros c more st0 r _ IH Hm Ht H. cbn in Hm. apply orb_false_iff in Hm as [_ Hm].
    apply IH.
    + now apply escape_rest_free.
    + now apply tiled_process_codes, tiled_save_before_escape.
    + now apply free_of_process_codes, free_of_save_before_escape.
  - intros c more st0 r _ IH Hm Ht H. cbn in Hm. apply orb_false_iff in Hm as [Hc Hm].
    apply IH; [exact Hm | now apply tiled_add_char | now apply free_of_add_char].
Qed.

(** What the parser writes can be stored. *)
Lemma parse_fresh_storable line dst :
  array_ok dst -> C.mem "|" line = false ->
  Forall (fun seg => fits_struct seg = true /\ storable seg = true)
         (valid_segments (parse_fresh line dst)).
Proof.
  intros Hdst Hm.
  destruct (sound_save_remaining _ (sound_parse_loop line _ (sound_start dst Hdst)))
    as ((Hok & Hcount & Ht) & _ & Hall).
  change (Forall emitted_ok (valid_segments (parse_fresh line dst))) in Hall.
  change (tiles 0 (valid_segments (parse_fresh line dst))
                (visible_length (parse_fresh line dst))) in Ht.
  change (0 <= segment_count (parse_fresh line dst) <= MAX_SEGMENTS) in Hcount.
  change (array_ok (parse_fresh line dst)) in Hok.
  assert (Hfree : Forall (fun seg => C.mem "|" (text seg) = false)
                         (valid_segments (parse_fresh line dst))).
  { assert (H0 : free_of "|" (start_state dst)).
    { split; [reflexivity|]. unfold valid_segments. cbn. constructor. }
    pose proof (tiled_start dst Hdst) as Ht0.
    pose proof (free_of_parse_loop "|" line _ Hm Ht0 H0) as H1.
    pose proof (tiled_parse_loop line _ Ht0) as Ht1.
    destruct (free_of_save_remaining "|" _ Ht1 H1) as [_ H]. exact H. }
  pose proof (total_codepoints_bound _ Hall) as Hb.
  pose proof (valid_segments_length _ Hok Hcount) as Hl.
  pose proof (tiles_total _ _ _ Ht) as Htot.
  apply Forall_lookup. intros i seg Hi.
  pose proof (proj1 (Forall_lookup _ _) Hall i seg Hi)
    as (Hne & Hlen & (Hfg & Hfgp) & Hbg & Hbold).
  pose proof (proj1 (Forall_lookup _ _) Hfree i seg Hi) as Hp. cbn beta in Hp.
  destruct (tiles_lookup _ _ _ _ _ Ht Hi) as [Hpos Hrest]. apply tiles_le in Hrest.
  pose proof (utf8_strlen_nonneg (text seg)).
  assert (Hbgs : C.strlen (bg_color seg) < MAX_COLOR_LENGTH /\ C.mem "|" (bg_color seg) = false).
  { destruct Hbg as [->|[-> ->]]; split; reflexivity. }
  assert (Hboldi : C.is_int (bold seg) = true /\ ((bold seg =? 0) || (bold seg =? 1)) = true).
  { destruct Hbold as [->| ->]; split; reflexivity. }
  unfold fits_struct, storable. rewrite Hp, Hfgp, (proj2 Hbgs), (proj1 Hboldi), (proj2 Hboldi).
  cbn [negb andb]. split; [|reflexivity].
  rewrite !andb_true_r. apply andb_true_iff. split; [apply andb_true_iff; split|].
  - apply andb_true_iff. split; apply Z.ltb_lt; unfold MAX_LINE_LENGTH, MAX_COLOR_LENGTH in *; lia.
  - apply Z.ltb_lt. exact (proj1 Hbgs).
  - unfold C.is_int, C.INT_MIN, C.INT_MAX. apply andb_true_iff.
    unfold MAX_LINE_LENGTH, MAX_SEGMENTS in *.
    split; apply Z.leb_le; change (2 ^ 31) with 2147483648; nia.
Qed.

(** Reading back a stored record, whatever the destination held. *)
Lemma load_saved_record env now key ld dst :
  array_ok ld -> array_ok dst ->
  0 <= segment_count ld <= MAX_SEGMENTS ->
  C.is_int (visible_length ld) = true ->
  Forall (fun seg => fits_struct seg = true /\ storable seg = true) (valid_segments ld) ->
  Forall (fun seg => utf8_check_string env (segment_string seg) = true) (valid_segments ld) ->
  let loaded := load_from_json (line_cache_json env now key ld) dst in
  segment_count loaded = segment_count ld /\
  visible_length loaded = visible_length ld /\
  valid_segments loaded = valid_segments ld.
Proof.
  intros Hld Hdst Hcount Hvl Hsegs Hutf8. unfold load_from_json.
  rewrite line_cache_json_visible_length, (line_cache_json_segments _ _ _ _ Hutf8).
  rewrite (to_int32_id _ Hvl).
  set (ld0 := {| segments := segments dst; segment_count := 0;
                 visible_length := visible_length ld |}).
  pose proof (valid_segments_length ld Hld Hcount) as Hlen.
  destruct (load_items_stored (valid_segments ld) ld0 Hsegs Hdst) as (_ & B2 & B3 & B4).
  { cbn. lia. }
  { cbn. lia. }
  split; [rewrite B2; cbn; lia|]. split; [exact B3|]. rewrite B4. reflexivity.
Qed.

(** X2.  The line cache is transparent for a line without ['|'].  Let the
    cache file of the key be absent, its path fit [MAX_PATH_LENGTH], the
    file be writable and jansson accept the segment strings.  Then the
    first call of [parse_ansi_line] misses, parses the line and stores it;
    a second call with the same hashes, into any other record, hits, leaves
    the files alone, and returns the same [segment_count], [visible_length]
    and segments as the parse did. *)
Theorem cached_parse_matches_fresh_parse
    (env : Env) (now now' : Z) (g : Globals) (fs : gmap string file_content)
    (line lh ch : string) (dst dst' : LineData) :
  let cache_file := cache_file_format (cache_dir g) (get_cache_key lh ch) in
  array_ok dst -> array_ok dst' ->
  C.mem "|" line = false ->
  forallb (fun seg => utf8_check_string env (segment_string seg))
          (valid_segments (parse_fresh line dst)) = true ->
  0 < C.strlen lh -> 0 < C.strlen ch ->
  C.strlen cache_file < MAX_PATH_LENGTH ->
  fopen_w env cache_file = true ->
  json_load_file fs cache_file = None ->
  exists g1 fs1 g2 second,
    parse_ansi_line env now g fs line (Some lh) (Some ch) dst
      = (0, g1, fs1, parse_fresh line dst) /\
    parse_ansi_line env now' g1 fs1 line (Some lh) (Some ch) dst'
      = (0, g2, fs1, second) /\
    cache_stats_segment_misses g1 = cache_stats_segment_misses g + 1 /\
    cache_stats_segment_hits g2 = cache_stats_segment_hits g + 1 /\
    segment_count second = segment_count (parse_fresh line dst) /\
    visible_length second = visible_length (parse_fresh line dst) /\
    valid_segments second = valid_segments (parse_fresh line dst).
Proof.
  intros cache_file Hdst Hdst' Hpipe Hutf8 Hlh Hch Hfit Hopen Hnone.
  set (key := get_cache_key lh ch) in *.
  set (ld := parse_fresh line dst).
  set (doc := line_cache_json env now key ld).
  set (fs1 := run_steps (json_dump_file_steps doc cache_file) fs).
  assert (Hsave : save_line_cache env now (cache_dir g) fs key ld = (0, fs1)).
  { unfold save_line_cache, json_dump_file. fold cache_file.
    destruct (Z.leb_spec MAX_PATH_LENGTH (C.strlen cache_file)); [lia|].
    now rewrite Hopen. }
  destruct (save_line_cache_ok _ _ _ _ _ _ _ Hsave) as [_ Hfile]. fold cache_file doc in Hfile.
  assert (Hmiss : load_line_cache g fs key dst = (-1, count_segment_miss g, dst)).
  { unfold load_line_cache. fold cache_file. rewrite Hnone. now destruct (_ <=? _). }
  assert (Hhit : load_line_cache (count_segment_miss g) fs1 key dst'
                 = (0, count_segment_hit (count_segment_miss g), load_from_json doc dst')).
  { unfold load_line_cache. cbn [count_segment_miss cache_dir]. fold cache_file.
    destruct (Z.leb_spec MAX_PATH_LENGTH (C.strlen cache_file)); [lia|].
    now rewrite Hfile. }
  exists (count_segment_miss g), fs1, (count_segment_hit (count_segment_miss g)),
         (load_from_json doc dst').
  apply Z.ltb_lt in Hlh, Hch.
  split; [|split].
  - unfold parse_ansi_line. rewrite Hlh, Hch. cbn [andb]. fold key. rewrite Hmiss.
    cbn [count_segment_miss cache_dir]. fold ld. now rewrite Hsave.
  - unfold parse_ansi_line. rewrite Hlh, Hch. cbn [andb]. fold key. now rewrite Hhit.
  - split; [reflexivity|]. split; [reflexivity|].
    destruct (sound_save_remaining _ (sound_parse_loop line _ (sound_start dst Hdst)))
      as ((Hok & Hcount & Ht) & _ & Hall).
    change (Forall emitted_ok (valid_segments ld)) in Hall.
    change (tiles 0 (valid_segments ld) (visible_length ld)) in Ht.
    change (0 <= segment_count ld <= MAX_SEGMENTS) in Hcount.
    change (array_ok ld) in Hok.
    apply load_saved_record; auto.
    + pose proof (total_codepoints_bound _ Hall) as Hb.
      pose proof (valid_segments_length _ Hok Hcount) as Hl.
      pose proof (tiles_total _ _ _ Ht) as Htot.
      pose proof (tiles_le _ _ _ Ht) as Hle.
      unfold C.is_int, C.INT_MIN, C.INT_MAX. apply andb_true_iff.
      unfold MAX_LINE_LENGTH, MAX_SEGMENTS in *.
      split; apply Z.leb_le; change (2 ^ 31) with 2147483648; nia.
    + now apply parse_fresh_storable.
    + apply Forall_forall. intros seg Hin.
      exact (proj1 (forallb_forall _ _) Hutf8 seg (proj1 (list_elem_of_In _ _) Hin)).
Qed.

Lemma cached_parse_matches_fresh_parse_witness :
  let line := "ab" +:+ String C.ESC "[1;31mcd" in
  exists g1 fs1 g2 second,
    parse_ansi_line plain_env 0 plain_globals ∅ line (Some "12") (Some "34") blank_line
      = (0, g1, fs1, parse_fresh line blank_line) /\
    parse_ansi_line plain_env 9 g1 fs1 line (Some "12") (Some "34") blank_line
      = (0, g2, fs1, second) /\
    cache_stats_segment_misses g1 = 1 /\
    cache_stats_segment_hits g2 = 1 /\
    segment_count second = segment_count (parse_fresh line blank_line) /\
    visible_length second = visible_length (parse_fresh line blank_line) /\
    valid_segments second = valid_segments (parse_fresh line blank_line).
Proof.
  intros line.
  apply (cached_parse_matches_fresh_parse plain_env 0 9 plain_globals ∅ line "12" "34"
           blank_line blank_line).
  - vm_compute; reflexivity.
  - vm_compute; reflexivity.
  - vm_compute; reflexivity.
  - vm_compute; reflexivity.
  - vm_compute; reflexivity.
  - vm_compute; reflexivity.
  - vm_compute; reflexivity.
  - vm_compute; reflexivity.
  - vm_compute; reflexivity.
Defined.

(** *** The reported width *)

Lemma utf8_strlen_scan_codes p codes :
  utf8_strlen (snd (scan_codes p codes)) <= utf8_strlen p.
Proof.
  revert codes; induction p as [|c p IH]; intros codes; [reflexivity|].
  cbn [scan_codes].
  destruct (negb (Ascii.eqb c "m") && (C.strlen codes <? 64 - 1)); [|cbn [snd]; lia].
  specialize (IH (codes +:+ String c "")). cbn [utf8_strlen].
  destruct (Z.land (C.code c) 192 =? 128); lia.
Qed.

Lemma utf8_strlen_tail c s : utf8_strlen s <= utf8_strlen (String c s).
Proof. cbn [utf8_strlen]. destruct (Z.land (C.code c) 192 =? 128); lia. Qed.

Lemma utf8_strlen_skip_m p : utf8_strlen (skip_m p) <= utf8_strlen p.
Proof.
  destruct p as [|c r]; [reflexivity|].
  destruct c as [[] [] [] [] [] [] [] []]; try reflexivity.
  cbn [skip_m]. apply utf8_strlen_tail.
Qed.

Lemma utf8_strlen_escape_rest more : utf8_strlen (escape_rest more) <= utf8_strlen more.
Proof.
  unfold escape_rest.
  pose proof (utf8_strlen_skip_m (snd (scan_codes (after_introducer more) ""))).
  pose proof (utf8_strlen_scan_codes (after_introducer more) "").
  assert (utf8_strlen (after_introducer more) <= utf8_strlen more).
  { destruct more as [|c r]; [reflexivity|]. apply utf8_strlen_tail. }
  lia.
Qed.

Lemma save_before_escape_width st :
  cur_visible_pos st <= cur_visible_pos (save_before_escape st) /\
  cur_visible_pos (save_before_escape st) + utf8_strlen (current_text (save_before_escape st))
  <= cur_visible_pos st + utf8_strlen (current_text st).
Proof.
  pose proof (utf8_strlen_nonneg (current_text st)).
  unfold save_before_escape. destruct (can_save st); cbn; lia.
Qed.

Lemma add_char_width c st :
  cur_visible_pos (add_char c st) = cur_visible_pos st /\
  utf8_strlen (current_text (add_char c st)) + utf8_strlen "" 
  <= utf8_strlen (current_text st) + (utf8_strlen (String c "")).
Proof.
  pose proof (utf8_strlen_nonneg (String c "")).
  unfold add_char. destruct (_ <? _); cbn [cur_visible_pos current_text].
  - rewrite utf8_strlen_append. cbn [utf8_strlen] in *. lia.
  - cbn [utf8_strlen] in *. lia.
Qed.

Lemma parse_loop_width ptr st :
  0 <= cur_visible_pos st ->
  0 <= cur_visible_pos (parse_loop ptr st) /\
  cur_visible_pos (parse_loop ptr st) + utf8_strlen (current_text (parse_loop ptr st))
  <= cur_visible_pos st + utf8_strlen (current_text st) + utf8_strlen ptr.
Proof.
  apply (parse_loop_induction
           (fun ptr st r =>
              0 <= cur_visible_pos st ->
              0 <= cur_visible_pos r /\
              cur_visible_pos r + utf8_strlen (current_text r)
              <= cur_visible_pos st + utf8_strlen (current_text st) + utf8_strlen ptr)).
  - intros st0 H. cbn [utf8_strlen]. lia.
  - intros c more st0 r _ IH H.
    destruct (process_codes_frame (escape_codes more) (save_before_escape st0)) as (_ & E2 & E3).
    rewrite E2, E3 in IH.
    destruct (save_before_escape_width st0) as [W1 W2].
    pose proof (utf8_strlen_escape_rest more).
    pose proof (utf8_strlen_tail c more).
    specialize (IH ltac:(lia)). lia.
  - intros c more st0 r _ IH H.
    destruct (add_char_width c st0) as [W1 W2]. rewrite W1 in IH.
    specialize (IH H). cbn [utf8_strlen] in *. lia.
Qed.

(** X3.  The width [parse_ansi_line] reports for a parsed line is never
    negative and never more than the number of code points of the line
    (the bytes that are no UTF-8 continuation bytes), hence never more
    than its length in bytes. *)
Theorem visible_length_at_most_code_points (line : string) (dst : LineData) :
  0 <= visible_length (parse_fresh line dst) <= utf8_strlen line /\
  utf8_strlen line <= C.strlen line.
Proof.
  split; [|apply utf8_strlen_le].
  unfold parse_fresh, finish. cbn [visible_length].
  destruct (parse_loop_width line (start_state dst)) as [H1 H2]; [cbn; lia|].
  cbn [start_state cur_visible_pos current_text utf8_strlen] in H2.
  pose proof (utf8_strlen_nonneg (current_text (parse_loop line (start_state dst)))).
  unfold save_remaining. destruct (can_save _); cbn [save_segment cur_visible_pos]; lia.
Qed.

(** ** Tabs *)

Lemma spaces_length n : C.strlen (spaces n) = Z.of_nat n.
Proof. unfold C.strlen. induction n as [|n IH]; cbn [spaces String.length]; lia. Qed.

Lemma spaces_no_tab n : C.mem "009" (spaces n) = false.
Proof. induction n as [|n IH]; [reflexivity|]. cbn [spaces C.mem]. now rewrite IH. Qed.

Lemma count_tabs_nonneg s : 0 <= count_tabs s.
Proof. induction s as [|c s IH]; cbn [count_tabs]; [lia|]. destruct (Ascii.eqb c "009"); lia. Qed.

(** X4.  What [expand_tabs] writes holds no tab; its length is that of the
    input plus [tab_size - 1] for every tab (minus one per tab when
    [tab_size] is not positive); an input without tabs is copied as it
    is. *)
Theorem expand_tabs_shape (input : string) (tab_size : Z) :
  C.mem "009" (expand_tabs input tab_size) = false /\
  C.strlen (expand_tabs input tab_size)
    = C.strlen input + (Z.max 0 tab_size - 1) * count_tabs input /\
  (C.mem "009" input = false -> expand_tabs input tab_size = input).
Proof.
  induction input as [|c src (IH1 & IH2 & IH3)];
    [split; [reflexivity | split; [cbn; lia | reflexivity]]|].
  cbn [expand_tabs count_tabs C.mem]. rewrite mem_append, strlen_append, IH1, IH2.
  destruct (Ascii.eqb c "009") eqn:E.
  - rewrite spaces_no_tab, spaces_length. split; [reflexivity|]. split; [|discriminate].
    unfold C.strlen. cbn [String.length]. lia.
  - split; [cbn [C.mem]; now rewrite E|]. split.
    + unfold C.strlen. cbn [String.length]. lia.
    + cbn [orb]. intros H. now rewrite (IH3 H).
Qed.

(** ** XML escaping *)

Section Escaping.

Variable entity : ascii -> string.
Variable loop : string -> Z -> string.

Hypothesis loop_end : forall remaining, loop "" remaining = "".
Hypothesis loop_stop :
  forall c more remaining, remaining <= 5 -> loop (String c more) remaining = "".
Hypothesis loop_step :
  forall c more remaining, 5 < remaining ->
    loop (String c more) remaining
    = entity c +:+ loop more (remaining - C.strlen (entity c)).
Hypothesis entity_length : forall c, 1 <= C.strlen (entity c) <= 6.

Lemma take_escape_all s : escape_all entity s = escape_all entity (C.take (String.length s) s).
Proof. now rewrite take_all. Qed.

(** What the loop writes is the escaped form of a front part of the
    input, fits in [remaining] bytes, and stops short of the end of the
    input only when at most five bytes are left. *)
Lemma escape_loop_spec src remaining :
  0 <= remaining ->
  exists n,
    loop src remaining = escape_all entity (C.take n src) /\
    C.strlen (loop src remaining) <= remaining /\
    (loop src remaining = escape_all entity src \/
     remaining - C.strlen (loop src remaining) <= 5).
Proof.
  revert remaining; induction src as [|c more IH]; intros remaining Hr.
  - exists 0%nat. rewrite loop_end. cbn. repeat split; [exact Hr | now left].
  - destruct (Z.le_gt_cases remaining 5) as [Hstop|Hgo].
    + exists 0%nat. rewrite loop_stop by exact Hstop. cbn. repeat split; [exact Hr|].
      right. change (C.strlen "") with 0. lia.
    + pose proof (entity_length c) as He.
      destruct (IH (remaining - C.strlen (entity c))) as (n & E & Hlen & Hall); [lia|].
      exists (S n). rewrite loop_step by exact Hgo. cbn [C.take escape_all].
      rewrite strlen_append. split; [now rewrite E|]. split; [lia|].
      destruct Hall as [Hall|Hcut]; [left; now rewrite Hall | right; lia].
Qed.

Lemma escape_loop_complete src remaining :
  6 * C.strlen src <= remaining -> loop src remaining = escape_all entity src.
Proof.
  revert remaining; induction src as [|c more IH]; intros remaining Hr;
    [apply loop_end|].
  pose proof (entity_length c) as He.
  assert (Hs : C.strlen (String c more) = 1 + C.strlen more)
    by (unfold C.strlen; cbn [String.length]; lia).
  assert (0 <= C.strlen more) by (unfold C.strlen; lia).
  rewrite loop_step by lia. cbn [escape_all]. rewrite IH; [reflexivity | lia].
Qed.

End Escaping.

Lemma xml_entity_length c : 1 <= C.strlen (xml_entity c) <= 6.
Proof.
  unfold xml_entity.
  repeat (match goal with |- context [if ?b then _ else _] => destruct b end);
    unfold C.strlen; cbn [String.length]; lia.
Qed.

Lemma url_entity_length c : 1 <= C.strlen (url_entity c) <= 6.
Proof.
  unfold url_entity. destruct (Ascii.eqb c "&"); unfold C.strlen; cbn [String.length]; lia.
Qed.

Lemma xml_escape_loop_stop c more remaining :
  remaining <= 5 -> xml_escape_loop (String c more) remaining = "".
Proof. intros H. cbn [xml_escape_loop]. destruct (Z.ltb_spec 5 remaining); [lia | reflexivity]. Qed.

Lemma xml_escape_loop_step c more remaining :
  5 < remaining ->
  xml_escape_loop (String c more) remaining
  = xml_entity c +:+ xml_escape_loop more (remaining - C.strlen (xml_entity c)).
Proof.
  intros H. cbn [xml_escape_loop]. unfold xml_entity.
  destruct (Z.ltb_spec 5 remaining); [|lia].
  destruct (Z.leb_spec 5 remaining); [|lia].
  destruct (Z.leb_spec 4 remaining); [|lia].
  destruct (Z.leb_spec 6 remaining); [|lia].
  repeat (match goal with |- context [if ?b then _ else _] => destruct b end);
    reflexivity.
Qed.

Lemma xml_escape_url_loop_stop c more remaining :
  remaining <= 5 -> xml_escape_url_loop (String c more) remaining = "".
Proof.
  intros H. cbn [xml_escape_url_loop]. destruct (Z.ltb_spec 5 remaining); [lia | reflexivity].
Qed.

Lemma xml_escape_url_loop_step c more remaining :
  5 < remaining ->
  xml_escape_url_loop (String c more) remaining
  = url_entity c +:+ xml_escape_url_loop more (remaining - C.strlen (url_entity c)).
Proof.
  intros H. cbn [xml_escape_url_loop]. unfold url_entity.
  destruct (Z.ltb_spec 5 remaining); [|lia].
  destruct (Z.leb_spec 5 remaining); [|lia].
  destruct (Ascii.eqb c "&"); reflexivity.
Qed.

Lemma to_size_t_id z : 0 <= z < 2 ^ 64 -> to_size_t z = z.
Proof. intros H. unfold to_size_t. now apply Z.mod_small. Qed.

Lemma xml_entity_markup_free c : markup_free (xml_entity c).
Proof.
  unfold xml_entity, markup_free.
  destruct (Ascii.eqb c "&"); [now vm_compute|].
  destruct (Ascii.eqb_spec c "<"); [now vm_compute|].
  destruct (Ascii.eqb_spec c ">"); [now vm_compute|].
  destruct (Ascii.eqb_spec c "034"); [now vm_compute|].
  destruct (Ascii.eqb_spec c "'"); [now vm_compute|].
  cbn [C.mem]. rewrite !orb_false_r.
  repeat split; now apply Ascii.eqb_neq.
Qed.

Lemma xml_escape_all_markup_free s : markup_free (escape_all xml_entity s).
Proof.
  induction s as [|c s (I1 & I2 & I3 & I4)]; [now vm_compute|].
  destruct (xml_entity_markup_free c) as (E1 & E2 & E3 & E4).
  unfold markup_free. cbn [escape_all]. rewrite !mem_append, E1, E2, E3, E4, I1, I2, I3, I4.
  now repeat split.
Qed.

(** X5.  [xml_escape] into a buffer of [output_size >= 1] bytes writes a
    string that fits the buffer with its terminator, that is the escaped
    form of a front part of the input (no entity is cut), that holds none
    of ['<'], ['>'] and the two quotes, and that stops short of the whole
    input only when fewer than six bytes of the buffer are left. *)
Theorem xml_escape_within_buffer (input : string) (output_size : Z) :
  1 <= output_size < 2 ^ 64 ->
  let output := xml_escape input output_size in
  C.strlen output < output_size /\
  (exists n, output = escape_all xml_entity (C.take n input)) /\
  markup_free output /\
  (output = escape_all xml_entity input \/ output_size - 6 <= C.strlen output).
Proof.
  intros Hsize output. subst output. unfold xml_escape.
  rewrite to_size_t_id by lia.
  destruct (escape_loop_spec xml_entity xml_escape_loop (fun _ => eq_refl)
              xml_escape_loop_stop xml_escape_loop_step xml_entity_length
              input (output_size - 1))
    as (n & E & Hlen & Hall); [lia|].
  split; [lia|]. split; [now exists n|]. split.
  - rewrite E. apply xml_escape_all_markup_free.
  - destruct Hall as [Hall|Hcut]; [now left | right; lia].
Qed.

Lemma xml_escape_within_buffer_witness :
  let output := xml_escape "a<b & c>d" 12 in
  C.strlen output < 12 /\
  (exists n, output = escape_all xml_entity (C.take n "a<b & c>d")) /\
  markup_free output /\
  (output = escape_all xml_entity "a<b & c>d" \/ 12 - 6 <= C.strlen output).
Proof.
  apply (xml_escape_within_buffer "a<b & c>d" 12).
  split; [lia | reflexivity].
Defined.

(** X6.  [xml_escape] escapes the whole input when the buffer has more
    than six bytes for each byte of it.  The buffer of
    [process_lines_single_pass] has [MAX_LINE_LENGTH * 6] bytes, so the
    text of a segment, shorter than [MAX_LINE_LENGTH], is never cut. *)
Theorem xml_escape_complete (input : string) (output_size : Z) :
  6 * C.strlen input < output_size < 2 ^ 64 ->
  xml_escape input output_size = escape_all xml_entity input.
Proof.
  intros Hsize. unfold xml_escape.
  assert (0 <= C.strlen input) by (unfold C.strlen; lia).
  rewrite to_size_t_id by lia.
  apply (escape_loop_complete xml_entity xml_escape_loop (fun _ => eq_refl)
           xml_escape_loop_step xml_entity_length).
  lia.
Qed.

Lemma xml_escape_complete_witness :
  xml_escape "a<b" (MAX_LINE_LENGTH * 6) = escape_all xml_entity "a<b".
Proof.
  apply (xml_escape_complete "a<b" (MAX_LINE_LENGTH * 6)).
  split; reflexivity.
Defined.

Lemma xml_entity_inj c d s t :
  xml_entity c +:+ s = xml_entity d +:+ t -> c = d /\ s = t.
Proof.
  unfold xml_entity.
  destruct (Ascii.eqb_spec c "&"), (Ascii.eqb_spec d "&");
    [subst; intros H; cbv [String.append] in H; now injection H | | |].
  1,2: destruct (Ascii.eqb_spec c "<"), (Ascii.eqb_spec d "<");
       destruct (Ascii.eqb_spec c ">"), (Ascii.eqb_spec d ">");
       destruct (Ascii.eqb_spec c "034"), (Ascii.eqb_spec d "034");
       destruct (Ascii.eqb_spec c "'"), (Ascii.eqb_spec d "'");
       intros H; cbv [String.append] in H; try discriminate H;
       injection H; intros; subst; congruence.
  destruct (Ascii.eqb_spec c "<"), (Ascii.eqb_spec d "<");
    [subst; intros H; cbv [String.append] in H; now injection H | | |].
  1,2: destruct (Ascii.eqb_spec c ">"), (Ascii.eqb_spec d ">");
       destruct (Ascii.eqb_spec c "034"), (Ascii.eqb_spec d "034");
       destruct (Ascii.eqb_spec c "'"), (Ascii.eqb_spec d "'");
       intros H; cbv [String.append] in H; try discriminate H;
       injection H; intros; subst; congruence.
  destruct (Ascii.eqb_spec c ">"), (Ascii.eqb_spec d ">");
    [subst; intros H; cbv [String.append] in H; now injection H | | |].
  1,2: destruct (Ascii.eqb_spec c "034"), (Ascii.eqb_spec d "034");
       destruct (Ascii.eqb_spec c "'"), (Ascii.eqb_spec d "'");
       intros H; cbv [String.append] in H; try discriminate H;
       injection H; intros; subst; congruence.
  destruct (Ascii.eqb_spec c "034"), (Ascii.eqb_spec d "034");
    [subst; intros H; cbv [String.append] in H; now injection H | | |].
  1,2: destruct (Ascii.eqb_spec c "'"), (Ascii.eqb_spec d "'");
       intros H; cbv [String.append] in H; try discriminate H;
       injection H; intros; subst; congruence.
  destruct (Ascii.eqb_spec c "'"), (Ascii.eqb_spec d "'");
    intros H; cbv [String.append] in H; try discriminate H;
    injection H; intros; subst; try congruence; now split.
Qed.

Lemma xml_entity_nonempty c s : xml_entity c +:+ s <> "".
Proof.
  pose proof (xml_entity_length c) as H. intros E.
  apply (f_equal C.strlen) in E. rewrite strlen_append in E.
  change (C.strlen "") with 0 in E. unfold C.strlen in *. lia.
Qed.

Lemma xml_escape_all_inj a b :
  escape_all xml_entity a = escape_all xml_entity b -> a = b.
Proof.
  revert b; induction a as [|c a IH]; intros [|d b] H; cbn [escape_all] in H.
  - reflexivity.
  - symmetry in H. now apply xml_entity_nonempty in H.
  - now apply xml_entity_nonempty in H.
  - apply xml_entity_inj in H as [-> H]. now rewrite (IH b H).
Qed.

(** X7.  Nothing is lost by the escaping: two texts that the buffer has
    room for ([6] bytes for each byte) and that [xml_escape] turns into
    the same string are the same text. *)
Theorem xml_escape_injective (a b : string) (output_size : Z) :
  6 * C.strlen a < output_size -> 6 * C.strlen b < output_size ->
  output_size < 2 ^ 64 ->
  xml_escape a output_size = xml_escape b output_size -> a = b.
Proof.
  intros Ha Hb Hsize H.
  assert (0 <= C.strlen a /\ 0 <= C.strlen b) as [? ?] by (unfold C.strlen; lia).
  assert (Ea : xml_escape a output_size = escape_all xml_entity a).
  { unfold xml_escape. rewrite to_size_t_id by lia.
    apply (escape_loop_complete xml_entity xml_escape_loop (fun _ => eq_refl)
             xml_escape_loop_step xml_entity_length). lia. }
  assert (Eb : xml_escape b output_size = escape_all xml_entity b).
  { unfold xml_escape. rewrite to_size_t_id by lia.
    apply (escape_loop_complete xml_entity xml_escape_loop (fun _ => eq_refl)
             xml_escape_loop_step xml_entity_length). lia. }
  rewrite Ea, Eb in H. now apply xml_escape_all_inj.
Qed.

Lemma xml_escape_injective_witness :
  xml_escape "a<b" 64 = "a&lt;b" /\ "a<b" = "a<b".
Proof.
  split; [reflexivity|].
  apply (xml_escape_injective "a<b" "a<b" 64); reflexivity.
Defined.

(** X8.  [xml_escape_url] into a buffer of [output_size >= 1] bytes writes
    a string that fits the buffer with its terminator and is a front part
    of the input with every ['&'] written as [&amp;]; it stops short of
    the whole input only when fewer than six bytes are left. *)
Theorem xml_escape_url_within_buffer (input : string) (output_size : Z) :
  1 <= output_size < 2 ^ 64 ->
  let output := xml_escape_url input output_size in
  C.strlen output < output_size /\
  (exists n, output = escape_all url_entity (C.take n input)) /\
  (output = escape_all url_entity input \/ output_size - 6 <= C.strlen output).
Proof.
  intros Hsize output. subst output. unfold xml_escape_url.
  rewrite to_size_t_id by lia.
  destruct (escape_loop_spec url_entity xml_escape_url_loop (fun _ => eq_refl)
              xml_escape_url_loop_stop xml_escape_url_loop_step url_entity_length
              input (output_size - 1))
    as (n & E & Hlen & Hall); [lia|].
  split; [lia|]. split; [now exists n|].
  destruct Hall as [Hall|Hcut]; [now left | right; lia].
Qed.

Lemma xml_escape_url_within_buffer_witness :
  let output := xml_escape_url "a=1&b=2&c=3" 12 in
  C.strlen output < 12 /\
  (exists n, output = escape_all url_entity (C.take n "a=1&b=2&c=3")) /\
  (output = escape_all url_entity "a=1&b=2&c=3" \/ 12 - 6 <= C.strlen output).
Proof.
  apply (xml_escape_url_within_buffer "a=1&b=2&c=3" 12).
  split; [lia | reflexivity].
Defined.

(** ** Fonts *)

Lemma get_google_font_url_from_In rows font url :
  get_google_font_url_from rows font = Some url -> In url (map snd rows).
Proof.
  induction rows as [|[name u] rows IH]; cbn; [discriminate|].
  destruct (String.eqb name font); [intros [= ->]; now left | intros H; right; auto].
Qed.

(** X9.  The URL [build_font_css] gets from [get_google_font_url], for
    whatever font name, is escaped in full by its call of
    [xml_escape_url] with a buffer of [MAX_URL_LENGTH] bytes. *)
Theorem google_font_url_is_escaped_in_full (font_family url : string) :
  get_google_font_url font_family = Some url ->
  xml_escape_url url MAX_URL_LENGTH = escape_all url_entity url.
Proof.
  intros H. apply get_google_font_url_from_In in H.
  cbn [google_fonts map snd In] in H.
  repeat (destruct H as [<-|H]; [vm_compute; reflexivity|]).
  destruct H.
Qed.

Lemma google_font_url_is_escaped_in_full_witness :
  xml_escape_url "https://fonts.googleapis.com/css2?family=Fira+Code:wght@400;700&display=swap"
                 MAX_URL_LENGTH
  = escape_all url_entity
      "https://fonts.googleapis.com/css2?family=Fira+Code:wght@400;700&display=swap".
Proof.
  apply (google_font_url_is_escaped_in_full "Fira Code"). reflexivity.
Defined.

(** ** The grid *)

Lemma longest_line_from_spec lengths :
  forall i max_width max_width_line,
    let r := longest_line_from i lengths max_width max_width_line in
    max_width <= fst r /\
    Forall (fun visible => visible <= fst r) lengths /\
    ((fst r = max_width /\ snd r = max_width_line) \/
     (max_width < fst r /\ i <= snd r /\
      lengths !! Z.to_nat (snd r - i) = Some (fst r) /\
      forall j visible, (j < Z.to_nat (snd r - i))%nat ->
                        lengths !! j = Some visible -> visible < fst r)).
Proof.
  induction lengths as [|v more IH]; intros i m l; cbn [longest_line_from].
  - cbn. split; [lia|]. split; [constructor | now left].
  - destruct (Z.ltb_spec m v) as [Hlt|Hge].
    + destruct (IH (i + 1) v i) as (H1 & H2 & H3). cbn zeta in *.
      set (r := longest_line_from (i + 1) more v i) in *.
      split; [lia|]. split; [constructor; [lia | exact H2]|]. right.
      split; [lia|].
      destruct H3 as [[E1 E2]|(G1 & G2 & G3 & G4)].
      * rewrite E1, E2. replace (i - i) with 0 by lia.
        split; [lia|]. split; [reflexivity|]. intros j visible Hj. cbn in Hj. lia.
      * split; [lia|].
        replace (Z.to_nat (snd r - i)) with (S (Z.to_nat (snd r - (i + 1)))) by lia.
        split; [exact G3|]. intros [|j] visible Hj Hv.
        -- cbn in Hv. injection Hv as <-. lia.
        -- apply (G4 j); [lia | exact Hv].
    + destruct (IH (i + 1) m l) as (H1 & H2 & H3). cbn zeta in *.
      set (r := longest_line_from (i + 1) more m l) in *.
      split; [lia|]. split; [constructor; [lia | exact H2]|].
      destruct H3 as [[E1 E2]|(G1 & G2 & G3 & G4)]; [now left | right].
      split; [lia|]. split; [lia|].
      replace (Z.to_nat (snd r - i)) with (S (Z.to_nat (snd r - (i + 1)))) by lia.
      split; [exact G3|]. intros [|j] visible Hj Hv.
      * cbn in Hv. injection Hv as <-. lia.
      * apply (G4 j); [lia | exact Hv].
Qed.

Lemma longest_line_bounds lengths :
  0 <= fst (longest_line lengths) /\
  Forall (fun visible => visible <= fst (longest_line lengths)) lengths.
Proof.
  pose proof (longest_line_from_spec lengths 0 0 0) as (H1 & H2 & _).
  split; [exact H1 | exact H2].
Qed.

(** X10.  The loop of [process_lines_single_pass] over the parsed lines
    leaves in [max_width] the largest [visible_length] (0 when there is no
    line or none is positive) and in [max_width_line] the index of the
    first line that has it (0 when [max_width] is 0). *)
Theorem longest_line_is_first_widest (lengths : list Z) :
  let '(max_width, max_width_line) := longest_line lengths in
  0 <= max_width /\
  Forall (fun visible => visible <= max_width) lengths /\
  ((max_width = 0 /\ max_width_line = 0) \/
   (0 < max_width /\ 0 <= max_width_line /\
    lengths !! Z.to_nat max_width_line = Some max_width /\
    forall j visible, (j < Z.to_nat max_width_line)%nat ->
                      lengths !! j = Some visible -> visible < max_width)).
Proof.
  pose proof (longest_line_from_spec lengths 0 0 0) as H. cbn zeta in H.
  unfold longest_line. destruct (longest_line_from 0 lengths 0 0) as [m l].
  cbn [fst snd] in H. rewrite Z.sub_0_r in H. exact H.
Qed.

(** X11.  The number of grid columns is at least 1 whenever the
    configured width is.  With the default width of 80 it is between 80
    and 100 and at least the width of every line that is no wider than
    100; with any other width it is that width, however wide the lines. *)
Theorem grid_width_covers_lines (config_width : Z) (lengths : list Z) :
  1 <= config_width ->
  let columns := grid_width config_width (fst (longest_line lengths)) in
  1 <= columns /\
  (config_width = DEFAULT_WIDTH ->
   80 <= columns <= 100 /\
   Forall (fun visible => Z.min visible 100 <= columns) lengths) /\
  (config_width <> DEFAULT_WIDTH -> columns = config_width).
Proof.
  intros Hw columns. subst columns.
  pose proof (longest_line_bounds lengths) as (H0 & Hall).
  unfold grid_width, DEFAULT_WIDTH.
  destruct (Z.eqb_spec config_width 80) as [->|Hne]; cbn [andb].
  - destruct (Z.ltb_spec 80 (fst (longest_line lengths))) as [Hwide|Hfit].
    + destruct (Z.ltb_spec 100 (fst (longest_line lengths))).
      * split; [lia|]. split; [|congruence]. intros _. split; [lia|].
        eapply Forall_impl; [exact Hall|]. cbn. intros; lia.
      * split; [lia|]. split; [|congruence]. intros _. split; [lia|].
        eapply Forall_impl; [exact Hall|]. cbn. intros; lia.
    + split; [lia|]. split; [|congruence]. intros _. split; [lia|].
      eapply Forall_impl; [exact Hall|]. cbn. intros; lia.
  - split; [lia|]. split; [congruence | reflexivity].
Qed.

Lemma grid_width_covers_lines_witness :
  let columns := grid_width 80 (fst (longest_line [12; 93; 40; 93])) in
  1 <= columns /\
  (80 = DEFAULT_WIDTH ->
   80 <= columns <= 100 /\
   Forall (fun visible => Z.min visible 100 <= columns) [12; 93; 40; 93]) /\
  (80 <> DEFAULT_WIDTH -> columns = 80).
Proof.
  apply (grid_width_covers_lines 80 [12; 93; 40; 93]). lia.
Defined.

(** ** Cache keys, paths and the incremental cache *)

Lemma uint_no_underscore d : C.mem "_" (NilEmpty.string_of_uint d) = false.
Proof. each_digit d IH; [reflexivity|..]; cbn; exact IH. Qed.

Lemma fmt_u_no_underscore z : C.mem "_" (C.fmt_u z) = false.
Proof. apply uint_no_underscore. Qed.

Lemma append_separator_inj d a b a' b' :
  C.mem d a = false -> C.mem d a' = false ->
  a +:+ String d b = a' +:+ String d b' -> a = a' /\ b = b'.
Proof.
  revert a'; induction a as [|c a IH]; intros [|c' a'] Ha Ha' H.
  - rewrite !append_nil_l in H. now injection H.
  - rewrite append_nil_l, append_cons in H. injection H as <- _.
    cbn in Ha'. now rewrite Ascii.eqb_refl in Ha'.
  - rewrite append_nil_l, append_cons in H. injection H as -> _.
    cbn in Ha. now rewrite Ascii.eqb_refl in Ha.
  - rewrite !append_cons in H. injection H as <- H.
    cbn in Ha, Ha'. apply orb_false_iff in Ha as [_ Ha], Ha' as [_ Ha'].
    destruct (IH a' Ha Ha' H) as [-> ->]. now split.
Qed.

Lemma fmt_u_strlen h : 0 <= h < 2 ^ 32 -> C.strlen (C.fmt_u h) <= 32.
Proof.
  intros H. change (2 ^ 32) with (2 ^ Z.of_nat 32) in H.
  pose proof (fmt_u_length h 32 H). unfold C.strlen. lia.
Qed.

Lemma get_cache_key_fits lh ch :
  0 <= lh < 2 ^ 32 -> 0 <= ch < 2 ^ 32 ->
  get_cache_key (C.fmt_u lh) (C.fmt_u ch) = C.fmt_u ch +:+ "_" +:+ C.fmt_u lh /\
  C.strlen (get_cache_key (C.fmt_u lh) (C.fmt_u ch)) <= 65.
Proof.
  intros Hl Hc. pose proof (fmt_u_strlen lh Hl). pose proof (fmt_u_strlen ch Hc).
  assert (E : C.strlen (C.fmt_u ch +:+ "_" +:+ C.fmt_u lh) <= 65).
  { rewrite !strlen_append. change (C.strlen "_") with 1. lia. }
  unfold get_cache_key. rewrite snprintf_fits by (unfold MAX_CACHE_KEY_LENGTH; lia).
  split; [reflexivity | exact E].
Qed.

(** X12.  Two line cache keys built from hash values are equal only when
    both the line hashes and the configuration hashes are: no two pairs of
    hashes share a cache file. *)
Theorem cache_key_separates (line_hash config_hash line_hash' config_hash' : Z) :
  0 <= line_hash < 2 ^ 32 -> 0 <= config_hash < 2 ^ 32 ->
  0 <= line_hash' < 2 ^ 32 -> 0 <= config_hash' < 2 ^ 32 ->
  get_cache_key (C.fmt_u line_hash) (C.fmt_u config_hash)
  = get_cache_key (C.fmt_u line_hash') (C.fmt_u config_hash') ->
  line_hash = line_hash' /\ config_hash = config_hash'.
Proof.
  intros H1 H2 H3 H4 H.
  rewrite (proj1 (get_cache_key_fits _ _ H1 H2)), (proj1 (get_cache_key_fits _ _ H3 H4)) in H.
  apply append_separator_inj in H as [Hc Hl]; try apply fmt_u_no_underscore.
  split; apply fmt_u_inj; auto; lia.
Qed.

Lemma cache_key_separates_witness : 12 = 12 /\ 34 = 34.
Proof.
  apply (cache_key_separates 12 34 12 34); try (split; [lia | reflexivity]).
  reflexivity.
Defined.

(** X13.  With [HOME] at most 430 bytes long, the line cache file of any
    pair of hash values has a path that fits [MAX_PATH_LENGTH], so neither
    [save_line_cache] nor [load_line_cache] gives up on its length. *)
Theorem line_cache_path_fits (home dir svg_dir file : string) (line_hash config_hash : Z) :
  setup_cache_directories (Some home) = Some (dir, svg_dir, file) ->
  C.strlen home <= 430 ->
  0 <= line_hash < 2 ^ 32 -> 0 <= config_hash < 2 ^ 32 ->
  C.strlen (cache_file_format dir (get_cache_key (C.fmt_u line_hash) (C.fmt_u config_hash)))
  < MAX_PATH_LENGTH.
Proof.
  intros [= <- _ _] Hhome Hl Hc.
  destruct (get_cache_key_fits _ _ Hl Hc) as [_ Hkey].
  rewrite snprintf_fits.
  - unfold cache_file_format. rewrite !strlen_append.
    change (C.strlen "/.cache/Oh") with 10. change (C.strlen "/") with 1.
    change (C.strlen ".json") with 5. unfold MAX_PATH_LENGTH. lia.
  - rewrite strlen_append. change (C.strlen "/.cache/Oh") with 10.
    unfold MAX_PATH_LENGTH. lia.
Qed.

Lemma line_cache_path_fits_witness :
  C.strlen (cache_file_format "/home/u/.cache/Oh"
              (get_cache_key (C.fmt_u 12) (C.fmt_u 34))) < MAX_PATH_LENGTH.
Proof.
  apply (line_cache_path_fits "/home/u" "/home/u/.cache/Oh" "/home/u/.cache/Oh/svg"
           "/home/u/.cache/Oh/incremental.json" 12 34).
  - reflexivity.
  - vm_compute; discriminate.
  - split; [lia | reflexivity].
  - split; [lia | reflexivity].
Defined.

Lemma line_hashes_array env hashes acc :
  exists items,
    fold_left (fun array h => json_array_append_new array (json_string env h))
              hashes (JArray acc) = JArray items.
Proof.
  revert acc; induction hashes as [|h hashes IH]; intros acc; [now exists acc|].
  cbn [fold_left]. unfold json_string at 2.
  destruct (utf8_check_string env h); cbn [json_array_append_new]; apply IH.
Qed.

Lemma incremental_cache_json_hash env now g config_hash :
  utf8_check_string env (global_input_hash g) = true ->
  json_object_get (incremental_cache_json env now g config_hash) "global_input_hash"
  = Some (JString (global_input_hash g)).
Proof.
  intros H. unfold incremental_cache_json.
  destruct (line_hashes_array env (take (Z.to_nat (input_line_count g)) (hash_cache g)) [])
    as [items ->].
  unfold json_string. rewrite H. now destruct (utf8_check_string env config_hash).
Qed.

(** X14.  What [save_incremental_cache] stores, [load_incremental_cache]
    reads back: after a successful save, a load from the same file sets
    [previous_input_hash] to the saved [global_input_hash], provided
    jansson accepted that string. *)
Theorem incremental_cache_round_trip
    (env : Env) (now : Z) (g g' : Globals) (fs fs' : gmap string file_content)
    (config_hash : string) :
  save_incremental_cache env now g fs config_hash = (0, fs') ->
  utf8_check_string env (global_input_hash g) = true ->
  C.strlen (global_input_hash g) < MAX_HASH_LENGTH ->
  incremental_cache_file g' = incremental_cache_file g ->
  load_incremental_cache g' fs' = (0, global_input_hash g).
Proof.
  unfold save_incremental_cache, json_dump_file, load_incremental_cache.
  intros Hsave Hutf8 Hlen ->.
  destruct (fopen_w env (incremental_cache_file g)); [|discriminate].
  injection Hsave as <-.
  unfold json_load_file. cbn [json_dump_file_steps run_steps fold_left run_step].
  rewrite lookup_insert_eq, (incremental_cache_json_hash _ _ _ _ Hutf8).
  rewrite take_all; [reflexivity|]. unfold C.strlen, MAX_HASH_LENGTH in *. lia.
Qed.

Lemma incremental_cache_round_trip_witness :
  let g := after_read_input plain_env ["ab"; "cd"] in
  load_incremental_cache g (snd (save_incremental_cache plain_env 0 g ∅ "34"))
  = (0, global_input_hash g).
Proof.
  intros g.
  apply (incremental_cache_round_trip plain_env 0 g g ∅ _ "34").
  - reflexivity.
  - reflexivity.
  - vm_compute; reflexivity.
  - reflexivity.
Defined.

(** ** Reading any cache document *)

Lemma load_item_in_array ld item :
  array_ok ld -> 0 <= segment_count ld <= MAX_SEGMENTS ->
  array_ok (load_item ld item) /\
  segment_count ld <= segment_count (load_item ld item) <= MAX_SEGMENTS /\
  segment_count (load_item ld item) <= segment_count ld + 1 /\
  visible_length (load_item ld item) = visible_length ld /\
  drop (Z.to_nat (segment_count (load_item ld item))) (segments (load_item ld item))
  = drop (Z.to_nat (segment_count (load_item ld item))) (segments ld).
Proof.
  intros Hok Hcount. unfold load_item.
  destruct (Z.ltb_spec (segment_count ld) MAX_SEGMENTS) as [Hroom|Hfull];
    [|repeat split; auto; lia].
  destruct item; try (repeat split; auto; lia).
  unfold load_segment, array_ok. cbn [segments segment_count visible_length].
  rewrite length_alter. repeat split; auto; try lia.
  replace (Z.to_nat (segment_count ld + 1)) with (S (Z.to_nat (segment_count ld))) by lia.
  apply list_eq. intros i. rewrite !lookup_drop. apply list_lookup_alter_ne. lia.
Qed.

Lemma load_items_in_array items : forall ld,
  array_ok ld -> 0 <= segment_count ld <= MAX_SEGMENTS ->
  let r := fold_left load_item items ld in
  array_ok r /\
  segment_count ld <= segment_count r <= MAX_SEGMENTS /\
  segment_count r <= segment_count ld + Z.of_nat (length items) /\
  visible_length r = visible_length ld /\
  drop (Z.to_nat (segment_count r)) (segments r)
  = drop (Z.to_nat (segment_count r)) (segments ld).
Proof.
  induction items as [|item items IH]; intros ld Hok Hcount; cbn [fold_left length].
  - cbn zeta. repeat split; auto; lia.
  - destruct (load_item_in_array ld item Hok Hcount) as (A1 & A2 & A3 & A4 & A5).
    destruct (IH (load_item ld item) A1 ltac:(lia)) as (B1 & B2 & B3 & B4 & B5).
    cbn zeta in *. set (r := fold_left load_item items (load_item ld item)) in *.
    split; [exact B1|]. split; [lia|]. split; [lia|]. split; [congruence|].
    rewrite B5.
    replace (Z.to_nat (segment_count r))
      with (Z.to_nat (segment_count (load_item ld item))
            + (Z.to_nat (segment_count r)
               - Z.to_nat (segment_count (load_item ld item))))%nat by lia.
    rewrite <- !drop_drop, A5. reflexivity.
Qed.

Lemma to_int32_is_int z : C.is_int (C.to_int32 z) = true.
Proof.
  unfold C.is_int, C.to_int32, C.INT_MIN, C.INT_MAX.
  pose proof (Z.mod_pos_bound (z + 2 ^ 31) (2 ^ 32) ltac:(reflexivity)) as H.
  apply andb_true_iff. change (2 ^ 32) with 4294967296 in *.
  change (2 ^ 31) with 2147483648 in *. split; apply Z.leb_le; lia.
Qed.

Lemma fill_fields_fits segment_data slot :
  fields_fit segment_data = true -> fits_struct slot = true ->
  fits_struct
    (fill_fields (split_fields 5 (C.take (Z.to_nat (MAX_LINE_LENGTH * 2 - 1)) segment_data))
                 slot) = true.
Proof.
  unfold fields_fit, fits_struct, fill_fields.
  generalize (split_fields 5 (C.take (Z.to_nat (MAX_LINE_LENGTH * 2 - 1)) segment_data)).
  intros parts Hfit Hslot. cbn [text fg_color bg_color bold visible_pos].
  apply andb_true_iff in Hfit as [Hfit H2]. apply andb_true_iff in Hfit as [H0 H1].
  apply andb_true_iff in Hslot as [Hslot S4]. apply andb_true_iff in Hslot as [Hslot S3].
  apply andb_true_iff in Hslot as [Hslot S2]. apply andb_true_iff in Hslot as [S0 S1].
  apply andb_true_iff; split;
    [apply andb_true_iff; split;
     [apply andb_true_iff; split; [apply andb_true_iff; split|]|]|].
  - destruct (parts !! 0%nat); [exact H0 | exact S0].
  - destruct (parts !! 1%nat); [exact H1 | exact S1].
  - destruct (parts !! 2%nat); [exact H2 | exact S2].
  - destruct (parts !! 3%nat); [now destruct (String.eqb _ _) | exact S3].
  - destruct (parts !! 4%nat); [apply to_int32_is_int | exact S4].
Qed.

Lemma load_item_fits ld item :
  item_fits item = true ->
  Forall (fun seg => fits_struct seg = true) (segments ld) ->
  Forall (fun seg => fits_struct seg = true) (segments (load_item ld item)).
Proof.
  intros Hitem Hall. unfold load_item.
  destruct (segment_count ld <? MAX_SEGMENTS); [|exact Hall].
  destruct item; try exact Hall.
  unfold load_segment. cbn [segments].
  apply Forall_alter; [exact Hall|]. intros slot _ Hslot.
  now apply fill_fields_fits.
Qed.

Lemma load_items_fit items : forall ld,
  forallb item_fits items = true ->
  Forall (fun seg => fits_struct seg = true) (segments ld) ->
  Forall (fun seg => fits_struct seg = true) (segments (fold_left load_item items ld)).
Proof.
  induction items as [|item items IH]; intros ld Hitems Hall; [exact Hall|].
  cbn [forallb] in Hitems. apply andb_true_iff in Hitems as [Hitem Hitems].
  cbn [fold_left]. apply IH; [exact Hitems|]. now apply load_item_fits.
Qed.

(** X15.  For a cache document whose segment strings have fields that
    fit their arrays, however many items it holds and whatever else it
    holds, [load_line_cache] fills at most [MAX_SEGMENTS] slots of the
    record, leaves the slots behind [segment_count] as they were, leaves
    an [int] in [visible_length], and leaves every slot with strings
    shorter than their arrays when it was so before. *)
Theorem load_from_json_stays_in_array (root : json) (dst : LineData) :
  document_fits root = true ->
  array_ok dst ->
  let loaded := load_from_json root dst in
  array_ok loaded /\
  0 <= segment_count loaded <= MAX_SEGMENTS /\
  C.is_int (visible_length loaded) = true /\
  drop (Z.to_nat (segment_count loaded)) (segments loaded)
  = drop (Z.to_nat (segment_count loaded)) (segments dst) /\
  (Forall (fun seg => fits_struct seg = true) (segments dst) ->
   Forall (fun seg => fits_struct seg = true) (segments loaded)).
Proof.
  intros Hfits Hok loaded. subst loaded. unfold load_from_json. unfold document_fits in Hfits.
  set (vl := match json_object_get root "visible_length" with
             | Some (JInteger v) => C.to_int32 v
             | _ => 0
             end).
  assert (Hvl : C.is_int vl = true).
  { subst vl. destruct (json_object_get root "visible_length") as [[]|]; try reflexivity.
    apply to_int32_is_int. }
  set (ld0 := {| segments := segments dst; segment_count := 0; visible_length := vl |}).
  assert (H0 : array_ok ld0) by exact Hok.
  assert (C0 : 0 <= segment_count ld0 <= MAX_SEGMENTS) by (cbn; unfold MAX_SEGMENTS; lia).
  destruct (json_object_get root "segments") as [[]|];
    try (split; [exact H0|]; split; [exact C0|]; split; [exact Hvl|];
         split; [reflexivity | intros H; exact H]).
  destruct (load_items_in_array items ld0 H0 C0) as (B1 & B2 & _ & B4 & B5).
  cbn zeta in *. split; [exact B1|]. split; [cbn in B2; lia|].
  split; [rewrite B4; exact Hvl|]. split; [exact B5|].
  intros Hdst. now apply load_items_fit.
Qed.

Lemma load_from_json_stays_in_array_witness :
  let loaded := load_from_json (JObject [("segments", JArray [JString "a|b"; JNull])])
                               blank_line in
  array_ok loaded /\
  0 <= segment_count loaded <= MAX_SEGMENTS /\
  C.is_int (visible_length loaded) = true /\
  drop (Z.to_nat (segment_count loaded)) (segments loaded)
  = drop (Z.to_nat (segment_count loaded)) (segments blank_line) /\
  (Forall (fun seg => fits_struct seg = true) (segments blank_line) ->
   Forall (fun seg => fits_struct seg = true) (segments loaded)).
Proof.
  apply (load_from_json_stays_in_array _ blank_line).
  - vm_compute; reflexivity.
  - vm_compute; reflexivity.
Defined.

(** ** Reading the input *)

Lemma read_lines_end tab_size lines : read_lines "" tab_size lines = lines.
Proof. now simp read_lines. Qed.

Lemma read_lines_step stream tab_size lines :
  stream <> "" ->
  read_lines stream tab_size lines =
  if Z.of_nat (length lines) <? MAX_LINES then
    read_lines (snd (fgets MAX_LINE_LENGTH stream)) tab_size
               (lines ++ [read_line (fst (fgets MAX_LINE_LENGTH stream)) tab_size])%list
  else lines.
Proof. destruct stream as [|c more]; [congruence|]. intros _. now simp read_lines. Qed.

Lemma fgets_from_rest_length room s :
  s <> "" -> (String.length (snd (fgets_from (S room) s)) < String.length s)%nat.
Proof.
  intros Hs.
  assert (Hle : forall k t, (String.length (snd (fgets_from k t)) <= String.length t)%nat).
  { induction k as [|k IH]; intros [|d t]; cbn [fgets_from snd String.length]; try lia.
    destruct (Ascii.eqb d "010"); cbn [snd]; [lia|].
    specialize (IH t). destruct (fgets_from k t). cbn [snd] in *. lia. }
  destruct s as [|c s]; [congruence|]. cbn [fgets_from].
  destruct (Ascii.eqb c "010"); cbn [snd String.length]; [lia|].
  specialize (Hle room s). destruct (fgets_from room s). cbn [snd] in *. lia.
Qed.

Lemma read_lines_induction tab_size (P : string -> list string -> list string -> Prop) :
  (forall lines, P "" lines lines) ->
  (forall stream lines,
      stream <> "" -> MAX_LINES <= Z.of_nat (length lines) -> P stream lines lines) ->
  (forall stream lines r,
      stream <> "" -> Z.of_nat (length lines) < MAX_LINES ->
      P (snd (fgets MAX_LINE_LENGTH stream))
        (lines ++ [read_line (fst (fgets MAX_LINE_LENGTH stream)) tab_size])%list r ->
      P stream lines r) ->
  forall stream lines, P stream lines (read_lines stream tab_size lines).
Proof.
  intros Hend Hfull Hstep stream.
  remember (String.length stream) as n eqn:Hn.
  revert stream Hn. induction n as [n IH] using lt_wf_ind. intros stream Hn lines.
  destruct stream as [|c more]; [rewrite read_lines_end; apply Hend|].
  rewrite read_lines_step by discriminate.
  destruct (Z.ltb_spec (Z.of_nat (length lines)) MAX_LINES) as [Hroom|Hno].
  - apply Hstep; [discriminate | exact Hroom|]. eapply IH; [|reflexivity]. subst n.
    unfold fgets.
    replace (Z.to_nat (MAX_LINE_LENGTH - 1)) with (S (Z.to_nat (MAX_LINE_LENGTH - 2)))
      by (unfold MAX_LINE_LENGTH; lia).
    apply fgets_from_rest_length. discriminate.
  - apply Hfull; [discriminate | exact Hno].
Qed.

Lemma strip_newline_cons c r :
  strip_newline (String c r) =
  match r with
  | EmptyString => if Ascii.eqb c "010" then "" else String c ""
  | String _ _ => String c (strip_newline r)
  end.
Proof.
  unfold strip_newline, C.strlen. destruct r as [|d r].
  - cbn [String.length]. change (Z.to_nat (Z.of_nat 1 - 1)) with 0%nat.
    change (0 <? Z.of_nat 1) with true. cbn [String.get C.take andb].
    now destruct (Ascii.eqb c "010").
  - cbn [String.length].
    replace (Z.to_nat (Z.of_nat (S (S (String.length r))) - 1))
      with (S (Z.to_nat (Z.of_nat (S (String.length r)) - 1))) by lia.
    cbn [String.get C.take].
    destruct (0 <? Z.of_nat (S (S (String.length r)))) eqn:E1; [|apply Z.ltb_ge in E1; lia].
    destruct (0 <? Z.of_nat (S (String.length r))) eqn:E2; [|apply Z.ltb_ge in E2; lia].
    cbn [andb].
    match goal with |- (if ?b then _ else _) = _ => destruct b end; reflexivity.
Qed.

Lemma strip_newline_length s : C.strlen (strip_newline s) <= C.strlen s.
Proof.
  unfold C.strlen. induction s as [|c r IH]; [vm_compute; discriminate|].
  rewrite strip_newline_cons. destruct r as [|d r].
  - destruct (Ascii.eqb c "010"); cbn; lia.
  - cbn [String.length] in *. lia.
Qed.

Lemma until_nul_length s : C.strlen (until_nul s) <= C.strlen s.
Proof.
  unfold C.strlen. induction s as [|c r IH]; [cbn; lia|].
  cbn [until_nul]. destruct (Ascii.eqb c "000"); cbn [String.length]; lia.
Qed.

Lemma until_nul_free d s : C.mem d s = false -> C.mem d (until_nul s) = false.
Proof.
  induction s as [|c r IH]; [reflexivity|]. cbn [C.mem until_nul]. intros H.
  apply orb_false_iff in H as [Hc Hr]. destruct (Ascii.eqb c "000"); [reflexivity|].
  cbn [C.mem]. now rewrite Hc, IH.
Qed.

Lemma strip_newline_free d s : C.mem d s = false -> C.mem d (strip_newline s) = false.
Proof.
  induction s as [|c r IH]; [reflexivity|]. rewrite strip_newline_cons. cbn [C.mem]. intros H.
  apply orb_false_iff in H as [Hc Hr]. destruct r as [|e r].
  - destruct (Ascii.eqb c "010"); [reflexivity|]. cbn [C.mem]. now rewrite Hc.
  - cbn [C.mem]. now rewrite Hc, IH.
Qed.

Lemma fgets_from_length room s : (String.length (fst (fgets_from room s)) <= room)%nat.
Proof.
  revert s; induction room as [|k IH]; intros [|c s]; cbn [fgets_from fst String.length]; try lia.
  destruct (Ascii.eqb c "010"); cbn [fst String.length]; [lia|].
  specialize (IH s). destruct (fgets_from k s). cbn [fst String.length] in *. lia.
Qed.

Lemma fgets_from_free d room s :
  C.mem d s = false -> C.mem d (fst (fgets_from room s)) = false.
Proof.
  revert s; induction room as [|k IH]; intros [|c s]; cbn [fgets_from fst C.mem]; try reflexivity.
  intros H. apply orb_false_iff in H as [Hc Hs].
  destruct (Ascii.eqb c "010"); cbn [fst C.mem]; [now rewrite Hc|].
  specialize (IH s Hs). destruct (fgets_from k s). cbn [fst C.mem] in *. now rewrite Hc, IH.
Qed.

Lemma fgets_from_rest_free d room s :
  C.mem d s = false -> C.mem d (snd (fgets_from room s)) = false.
Proof.
  revert s; induction room as [|k IH]; intros [|c s]; cbn [fgets_from snd]; try (intros H; exact H).
  intros H. cbn [C.mem] in H. apply orb_false_iff in H as [Hc Hs].
  destruct (Ascii.eqb c "010"); cbn [snd]; [exact Hs|].
  specialize (IH s Hs). destruct (fgets_from k s). exact IH.
Qed.

(** The line stored for what [fgets] delivered holds no newline. *)
Lemma stored_line_no_newline room s :
  C.mem "010" (strip_newline (until_nul (fst (fgets_from room s)))) = false.
Proof.
  revert s; induction room as [|k IH]; intros [|c s]; cbn [fgets_from fst]; try reflexivity.
  destruct (Ascii.eqb c "010") eqn:Ec; cbn [fst].
  - apply Ascii.eqb_eq in Ec. subst c. reflexivity.
  - specialize (IH s). destruct (fgets_from k s) as [line rest]. cbn [fst] in *.
    cbn [until_nul]. destruct (Ascii.eqb c "000"); [reflexivity|].
    rewrite strip_newline_cons. destruct (until_nul line) as [|e r] eqn:E.
    + rewrite Ec. cbn [C.mem]. now rewrite Ec.
    + cbn [C.mem]. now rewrite Ec, IH.
Qed.

Lemma expand_tabs_no_tab s tab_size : C.mem "009" (expand_tabs s tab_size) = false.
Proof.
  induction s as [|c s IH]; [reflexivity|]. cbn [expand_tabs]. rewrite mem_append, IH.
  destruct (Ascii.eqb c "009") eqn:E; [now rewrite spaces_no_tab|].
  cbn [C.mem]. now rewrite E.
Qed.

Lemma spaces_free d n : Ascii.eqb " " d = false -> C.mem d (spaces n) = false.
Proof. intros H. induction n as [|n IH]; [reflexivity|]. cbn [spaces C.mem]. now rewrite H, IH. Qed.

Lemma expand_tabs_free d s tab_size :
  Ascii.eqb " " d = false -> C.mem d s = false -> C.mem d (expand_tabs s tab_size) = false.
Proof.
  intros Hd. induction s as [|c s IH]; [reflexivity|]. cbn [C.mem expand_tabs]. intros H.
  apply orb_false_iff in H as [Hc Hs]. rewrite mem_append, (IH Hs).
  destruct (Ascii.eqb c "009"); [now rewrite spaces_free|].
  cbn [C.mem]. now rewrite Hc.
Qed.

Lemma expand_tabs_id s tab_size : C.mem "009" s = false -> expand_tabs s tab_size = s.
Proof.
  induction s as [|c s IH]; [reflexivity|]. cbn [C.mem expand_tabs]. intros H.
  apply orb_false_iff in H as [Hc Hs]. now rewrite Hc, (IH Hs).
Qed.

(** Whatever the stream holds, the loop stores at most [MAX_LINES] lines
    without newline or tab; without a tab in the stream every line fits
    its row. *)
Lemma read_lines_rows (stream : string) (tab_size : Z) :
  let lines := read_lines stream tab_size [] in
  Z.of_nat (length lines) <= MAX_LINES /\
  Forall (fun line => C.mem "010" line = false /\ C.mem "009" line = false) lines /\
  (C.mem "009" stream = false ->
   Forall (fun line => C.strlen line < MAX_LINE_LENGTH) lines).
Proof.
  cbn zeta.
  assert (H : Z.of_nat (length (@nil string)) <= MAX_LINES ->
              Forall (fun line => C.mem "010" line = false /\ C.mem "009" line = false)
                     (@nil string) ->
              Z.of_nat (length (read_lines stream tab_size [])) <= MAX_LINES /\
              Forall (fun line => C.mem "010" line = false /\ C.mem "009" line = false)
                     (read_lines stream tab_size []) /\
              (C.mem "009" stream = false ->
               Forall (fun line => C.strlen line < MAX_LINE_LENGTH) (@nil string) ->
               Forall (fun line => C.strlen line < MAX_LINE_LENGTH)
                      (read_lines stream tab_size []))).
  { apply (read_lines_induction tab_size
             (fun stream lines r =>
                Z.of_nat (length lines) <= MAX_LINES ->
                Forall (fun line => C.mem "010" line = false /\ C.mem "009" line = false)
                       lines ->
                Z.of_nat (length r) <= MAX_LINES /\
                Forall (fun line => C.mem "010" line = false /\ C.mem "009" line = false) r /\
                (C.mem "009" stream = false ->
                 Forall (fun line => C.strlen line < MAX_LINE_LENGTH) lines ->
                 Forall (fun line => C.strlen line < MAX_LINE_LENGTH) r))).
    - auto.
    - auto.
    - intros s lines r Hs Hroom IH Hcount Hclean.
      destruct IH as (R1 & R2 & R3).
      + rewrite length_app. cbn [length]. lia.
      + apply Forall_app. split; [exact Hclean|]. apply Forall_singleton. split.
        * unfold read_line, fgets. apply expand_tabs_free; [reflexivity|].
          apply stored_line_no_newline.
        * apply expand_tabs_no_tab.
      + split; [exact R1|]. split; [exact R2|]. intros Htab Hfit. apply R3.
        * unfold fgets. now apply fgets_from_rest_free.
        * apply Forall_app. split; [exact Hfit|]. apply Forall_singleton.
          unfold read_line, fgets.
          set (chunk := fst (fgets_from (Z.to_nat (MAX_LINE_LENGTH - 1)) s)).
          assert (Hchunk : C.mem "009" chunk = false) by now apply fgets_from_free.
          rewrite expand_tabs_id by now apply strip_newline_free, until_nul_free.
          pose proof (strip_newline_length (until_nul chunk)).
          pose proof (until_nul_length chunk).
          pose proof (fgets_from_length (Z.to_nat (MAX_LINE_LENGTH - 1)) s) as Hlen.
          fold chunk in Hlen. unfold C.strlen, MAX_LINE_LENGTH in *. lia. }
  destruct H as (H1 & H2 & H3).
  - unfold MAX_LINES. cbn. lia.
  - constructor.
  - split; [exact H1|]. split; [exact H2|]. intros Htab. apply H3; [exact Htab | constructor].
Qed.

Lemma read_lines_nonempty stream tab_size :
  stream <> "" -> read_lines stream tab_size [] <> [].
Proof.
  intros Hs. rewrite read_lines_step by exact Hs. cbn [length].
  change (Z.of_nat 0 <? MAX_LINES) with true. cbn match.
  generalize (snd (fgets MAX_LINE_LENGTH stream)).
  generalize (read_line (fst (fgets MAX_LINE_LENGTH stream)) tab_size).
  intros line rest.
  assert (H : forall lines, lines <> [] -> read_lines rest tab_size lines <> []).
  { apply (read_lines_induction tab_size (fun _ lines r => lines <> [] -> r <> [])); auto.
    intros s lines r _ _ IH Hne. apply IH. destruct lines; [congruence | discriminate]. }
  apply H. discriminate.
Qed.

Lemma tab_free_expansions_fit stream tab_size :
  C.mem "009" stream = false -> expansions_fit stream tab_size = true.
Proof.
  intros H. destruct (read_lines_rows stream tab_size) as (_ & _ & R). specialize (R H).
  unfold expansions_fit. apply forallb_forall. intros line Hin.
  apply Z.ltb_lt. exact (proj1 (Forall_forall _ _) R line (proj2 (list_elem_of_In _ _) Hin)).
Qed.

(** X16.  On input none of whose lines expands beyond the
    [MAX_LINE_LENGTH] bytes of its buffers (any input without a tab is of
    that kind): when [read_input] returns 0 it has stored between 1 and
    [MAX_LINES] lines, each shorter than [MAX_LINE_LENGTH] and without
    newline or tab, each with its hash in the same row of [hash_cache]; a
    height of 0 has become the number of lines, and nothing else of the
    configuration has changed. *)
Theorem read_input_stores_lines
    (env : Env) (open_r : string -> option string) (stdin : string)
    (config config' : Config) (g g' : Globals) :
  let input_source :=
    if 0 <? C.strlen (input_file config) then open_r (input_file config)
    else Some stdin in
  (forall stream, input_source = Some stream ->
                  expansions_fit stream (tab_size config) = true) ->
  read_input env open_r stdin config g = (0, config', g') ->
  let count := Z.to_nat (input_line_count g') in
  let lines := take count (input_lines g') in
  1 <= input_line_count g' <= MAX_LINES /\
  Forall (fun line => C.mem "010" line = false /\ C.mem "009" line = false /\
                      C.strlen line < MAX_LINE_LENGTH) lines /\
  take count (hash_cache g') = hash_input_lines env lines /\
  config' = (if height config =? 0 then set_height (input_line_count g') config
             else config).
Proof.
  cbn zeta. unfold read_input.
  destruct (if 0 <? C.strlen (input_file config) then open_r (input_file config)
            else Some stdin) as [stream|] eqn:Hsrc; [|discriminate].
  intros Hfit. specialize (Hfit stream eq_refl). unfold expansions_fit in Hfit.
  destruct (read_lines_rows stream (tab_size config)) as (R1 & R2 & _).
  set (lines := read_lines stream (tab_size config) []) in *.
  destruct (Z.eqb_spec (Z.of_nat (length lines)) 0) as [|Hne]; [discriminate|].
  intros [= <- <-]. cbn [input_line_count input_lines hash_cache].
  rewrite Nat2Z.id, take_app_length.
  split; [lia|]. split; [|split].
  - apply Forall_forall. intros line Hin.
    destruct (proj1 (Forall_forall _ _) R2 line Hin) as [H1 H2].
    split; [exact H1|]. split; [exact H2|].
    apply Z.ltb_lt.
    exact (proj1 (forallb_forall _ _) Hfit line (proj1 (list_elem_of_In _ _) Hin)).
  - replace (length lines) with (length (hash_input_lines env lines))
      by (unfold hash_input_lines; apply length_map).
    apply take_app_length.
  - reflexivity.
Qed.

Lemma read_input_stores_lines_witness :
  let config := default_config in
  let g := plain_globals in
  let stdin := "ab" +:+ String "010" (String "009" "cd") in
  let config' := set_height 2 config in
  let g' := snd (read_input plain_env (fun _ => None) stdin config g) in
  let count := Z.to_nat (input_line_count g') in
  let lines := take count (input_lines g') in
  1 <= input_line_count g' <= MAX_LINES /\
  Forall (fun line => C.mem "010" line = false /\ C.mem "009" line = false /\
                      C.strlen line < MAX_LINE_LENGTH) lines /\
  take count (hash_cache g') = hash_input_lines plain_env lines /\
  config' = (if height config =? 0 then set_height (input_line_count g') config
             else config).
Proof.
  intros config g stdin config' g'.
  apply (read_input_stores_lines plain_env (fun _ => None) stdin config config' g g').
  - intros stream [= <-]. vm_compute; reflexivity.
  - vm_compute; reflexivity.
Defined.

Lemma fgets_from_line room line rest :
  C.mem "010" line = false -> (String.length line < room)%nat ->
  fgets_from room (line +:+ String "010" rest) = (line +:+ String "010" "", rest).
Proof.
  revert room; induction line as [|c line IH]; intros [|room] Hnl Hlen;
    cbn [String.length] in Hlen; try lia.
  - reflexivity.
  - cbn [C.mem] in Hnl. apply orb_false_iff in Hnl as [Hc Hl].
    rewrite !append_cons. cbn [fgets_from]. rewrite Hc, (IH room Hl) by lia. reflexivity.
Qed.

Lemma fgets_from_all room s :
  C.mem "010" s = false -> (String.length s <= room)%nat -> fgets_from room s = (s, "").
Proof.
  revert room; induction s as [|c s IH]; intros [|room] Hnl Hlen;
    cbn [String.length] in Hlen; try lia; try reflexivity.
  cbn [C.mem] in Hnl. apply orb_false_iff in Hnl as [Hc Hs].
  cbn [fgets_from]. rewrite Hc, (IH room Hs) by lia. reflexivity.
Qed.

Lemma until_nul_id s : C.mem "000" s = false -> until_nul s = s.
Proof.
  induction s as [|c s IH]; [reflexivity|]. cbn [C.mem until_nul]. intros H.
  apply orb_false_iff in H as [Hc Hs]. now rewrite Hc, (IH Hs).
Qed.

Lemma strip_newline_id s : C.mem "010" s = false -> strip_newline s = s.
Proof.
  induction s as [|c s IH]; [reflexivity|]. cbn [C.mem]. intros H.
  apply orb_false_iff in H as [Hc Hs]. rewrite strip_newline_cons.
  destruct s; [now rewrite Hc | now rewrite (IH Hs)].
Qed.

Lemma strip_newline_line s :
  C.mem "010" s = false -> strip_newline (s +:+ String "010" "") = s.
Proof.
  induction s as [|c s IH]; [reflexivity|]. cbn [C.mem]. intros H.
  apply orb_false_iff in H as [Hc Hs]. rewrite append_cons, strip_newline_cons.
  destruct s as [|d s]; [reflexivity|]. rewrite append_cons in *. now rewrite (IH Hs).
Qed.

Lemma read_line_clean line tab_size :
  clean_line line -> read_line (line +:+ String "010" "") tab_size = line.
Proof.
  intros (Hnl & Htab & Hnul & _). unfold read_line.
  rewrite until_nul_id by (rewrite mem_append, Hnul; reflexivity).
  rewrite strip_newline_line by exact Hnl. now apply expand_tabs_id.
Qed.

Lemma read_line_last line tab_size : clean_line line -> read_line line tab_size = line.
Proof.
  intros (Hnl & Htab & Hnul & _). unfold read_line.
  rewrite until_nul_id, strip_newline_id by assumption. now apply expand_tabs_id.
Qed.

Lemma read_lines_clean tab_size lines last : forall stored,
  Forall clean_line lines -> clean_line last ->
  Z.of_nat (length stored + length lines + length (unterminated last)) <= MAX_LINES ->
  read_lines (join_lines lines +:+ last) tab_size stored
  = (stored ++ lines ++ unterminated last)%list.
Proof.
  induction lines as [|line lines IH]; intros stored Hall Hlast Hcount.
  - cbn [join_lines app]. rewrite append_nil_l. destruct last as [|c last].
    + rewrite read_lines_end. cbn. now rewrite app_nil_r.
    + cbn [unterminated length] in *. rewrite read_lines_step by discriminate.
      destruct (Z.ltb_spec (Z.of_nat (length stored)) MAX_LINES); [|lia].
      unfold fgets. rewrite fgets_from_all.
      * cbn [fst snd]. rewrite read_lines_end, read_line_last by exact Hlast. reflexivity.
      * apply Hlast.
      * destruct Hlast as (_ & _ & _ & Hlen). unfold C.strlen, MAX_LINE_LENGTH in *. lia.
  - apply Forall_cons in Hall as [Hline Hall]. cbn [join_lines length] in *.
    assert (E : (line +:+ String "010" (join_lines lines)) +:+ last
                = line +:+ String "010" (join_lines lines +:+ last)).
    { now rewrite append_assoc, append_cons. }
    rewrite E, read_lines_step by (destruct line; discriminate).
    destruct (Z.ltb_spec (Z.of_nat (length stored)) MAX_LINES); [|lia].
    unfold fgets. rewrite fgets_from_line.
    + cbn [fst snd]. rewrite read_line_clean by exact Hline.
      rewrite IH; [now rewrite <- app_assoc | exact Hall | exact Hlast|].
      rewrite length_app. cbn [length]. lia.
    + apply Hline.
    + destruct Hline as (_ & _ & _ & Hlen). unfold C.strlen, MAX_LINE_LENGTH in *. lia.
Qed.

(** X17.  Lines without newline, tab or NUL byte, each shorter than
    [MAX_LINE_LENGTH - 1] bytes and at most [MAX_LINES] of them, are read
    from the standard input as they are: [read_input] returns 0 and has
    stored exactly these lines, whether or not the last one ends in a
    newline. *)
Theorem read_input_round_trip
    (env : Env) (open_r : string -> option string) (config : Config) (g : Globals)
    (lines : list string) (last : string) :
  let expected := (lines ++ unterminated last)%list in
  input_file config = "" ->
  Forall clean_line lines -> clean_line last ->
  expected <> [] -> Z.of_nat (length expected) <= MAX_LINES ->
  exists config' g',
    read_input env open_r (join_lines lines +:+ last) config g = (0, config', g') /\
    input_line_count g' = Z.of_nat (length expected) /\
    take (length expected) (input_lines g') = expected.
Proof.
  intros expected Hfile Hall Hlast Hne Hcount. unfold read_input. rewrite Hfile.
  change (0 <? C.strlen "") with false. cbn match.
  rewrite (read_lines_clean _ lines last [] Hall Hlast)
    by (subst expected; rewrite length_app in Hcount; cbn [length]; lia).
  cbn [app]. fold expected.
  destruct (Z.eqb_spec (Z.of_nat (length expected)) 0) as [E|_];
    [destruct expected; [congruence | discriminate E]|].
  eexists _, _. split; [reflexivity|]. cbn [input_line_count input_lines].
  split; [reflexivity | apply take_app_length].
Qed.

Lemma read_input_round_trip_witness :
  exists config' g',
    read_input plain_env (fun _ => None)
               (join_lines ["ls -l"; ""; "total 0"] +:+ "$ ") default_config plain_globals
    = (0, config', g') /\
    input_line_count g' = 4 /\
    take 4 (input_lines g') = ["ls -l"; ""; "total 0"; "$ "].
Proof.
  apply (read_input_round_trip plain_env (fun _ => None) default_config plain_globals
           ["ls -l"; ""; "total 0"] "$ ").
  - reflexivity.
  - repeat constructor.
  - repeat constructor.
  - discriminate.
  - vm_compute; discriminate.
Defined.





(** ** The command line *)

Ltac option_case H :=
  match type of H with
  | context [if ?b then _ else _] => destruct b eqn:?; try discriminate H
  | context [match ?l with [] => _ | _ :: _ => _ end] =>
      destruct l as [|? ?]; try discriminate H
  | context [match ?o with Some _ => _ | None => _ end] =>
      destruct o as [?|]; try discriminate H
  end.

Ltac range_facts :=
  repeat match goal with
         | H : (_ || _) = false |- _ => apply orb_false_iff in H as [? ?]
         | H : (_ <? _) = false |- _ => apply Z.ltb_ge in H
         end.

Lemma arguments_in_model_tail atof arg rest :
  arguments_in_model atof (arg :: rest) = true ->
  C.strlen arg < MAX_PATH_LENGTH /\ arguments_in_model atof rest = true.
Proof.
  cbn [arguments_in_model]. intros H.
  apply andb_true_iff in H as [H H4]. apply andb_true_iff in H as [H _].
  apply andb_true_iff in H as [H1 _]. apply Z.ltb_lt in H1. now split.
Qed.

Lemma arguments_in_model_font atof value rest :
  arguments_in_model atof ("--font" :: value :: rest) = true ->
  C.strlen value < MAX_FONT_NAME_LENGTH.
Proof.
  cbn [arguments_in_model]. change (String.eqb "--font" "--font") with true. cbn match.
  intros H. apply andb_true_iff in H as [H _]. apply andb_true_iff in H as [_ H].
  now apply Z.ltb_lt in H.
Qed.

Lemma parse_options_validated atof n : forall args config debug_mode config' debug_mode',
  (length args <= n)%nat ->
  arguments_in_model atof args = true ->
  validated config -> strings_fit config ->
  parse_options atof args config debug_mode = Parsed config' debug_mode' ->
  validated config' /\ strings_fit config'.
Proof.
  induction n as [|n IH]; intros args config dm config' dm' Hlen Hin Hv Hs H.
  - destruct args; [|cbn in Hlen; lia]. cbn in H. now injection H as <- _.
  - destruct args as [|arg rest]; [cbn in H; now injection H as <- _|].
    cbn [parse_options] in H. cbn [length] in Hlen.
    destruct (arguments_in_model_tail _ _ _ Hin) as [_ Hrest].
    assert (Hvalue : forall value rest',
               rest = value :: rest' ->
               C.strlen value < MAX_PATH_LENGTH /\ arguments_in_model atof rest' = true).
    { intros value rest' ->. exact (arguments_in_model_tail _ _ _ Hrest). }
    assert (Hfont : forall value rest',
               String.eqb arg "--font" = true -> rest = value :: rest' ->
               C.strlen value < MAX_FONT_NAME_LENGTH).
    { intros value rest' E ->. apply String.eqb_eq in E. subst arg.
      exact (arguments_in_model_font _ _ _ Hin). }
    destruct Hv as (V1 & V2 & V3 & V4 & V5 & V6 & V7 & V8).
    destruct Hs as (S1 & S2 & S3).
    repeat option_case H;
      cbn [length] in Hlen;
      try (destruct (Hvalue _ _ eq_refl) as [Hlong Hrest']);
      try (pose proof (Hfont _ _ eq_refl eq_refl) as Hname);
      (eapply IH; [| | | |exact H]; [lia | assumption | |]);
      range_facts;
      unfold validated, strings_fit;
      cbn [set_input_file set_output_file set_font_family set_wrap set_int set_double
           set_font_width_explicit set_font_height_explicit
           input_file output_file font_family
           font_size font_weight width height tab_size wrap
           font_width font_height font_width_explicit font_height_explicit];
      repeat split; auto; try lia.
Qed.

Lemma initial_config_validated : validated initial_config /\ strings_fit initial_config.
Proof.
  unfold validated, strings_fit, initial_config. cbn.
  unfold DEFAULT_FONT_SIZE, DEFAULT_FONT_WEIGHT, DEFAULT_WIDTH, DEFAULT_HEIGHT,
    DEFAULT_TAB_SIZE, MAX_PATH_LENGTH, MAX_FONT_NAME_LENGTH.
  repeat split; auto; lia.
Qed.

(** X19.  For arguments that fit the arrays they are copied into and
    that [atof] turns into finite numbers ([arguments_in_model]): a
    configuration that [parse_arguments] returns with 0 has a font size
    from 8 to 72, a font weight from 100 to 900, a width of at least 1, a
    height of 0 (not given) or at least 1, a tab size from 1 to 16, a font
    width and font height of at least 1 where they were given, and strings
    shorter than their arrays.  So the grid has at least one column. *)
Theorem parse_arguments_validates
    (atof : string -> option C.double) (argv : list string) (debug_mode : Z)
    (config : Config) (debug_mode' : Z) :
  arguments_in_model atof (tail argv) = true ->
  parse_arguments atof argv debug_mode = Parsed config debug_mode' ->
  validated config /\ strings_fit config /\
  forall max_width, 1 <= grid_width (width config) max_width.
Proof.
  intros Hin H. unfold parse_arguments in H.
  destruct (parse_options_validated atof (length (tail argv)) _ _ _ _ _
              (le_n _) Hin (proj1 initial_config_validated)
              (proj2 initial_config_validated) H) as [Hv Hs].
  split; [exact Hv|]. split; [exact Hs|]. intros max_width.
  destruct Hv as (_ & _ & Hw & _). unfold grid_width.
  destruct ((width config =? 80) && (80 <? max_width)) eqn:E; [|exact Hw].
  apply andb_true_iff in E as [_ E]. apply Z.ltb_lt in E.
  destruct (100 <? max_width); lia.
Qed.

Lemma parse_arguments_validates_witness :
  let config := set_int TabSize 4 (set_int Width 120 (set_font_family "Fira Code"
                                                        initial_config)) in
  validated config /\ strings_fit config /\
  forall max_width, 1 <= grid_width (width config) max_width.
Proof.
  intros config.
  apply (parse_arguments_validates
           (fun _ => Some {| C.mantissa := 0; C.exponent := 0 |})
           ["Oh"; "--font"; "Fira Code"; "--width"; "120"; "--tab-size"; "4"] 0 config 0).
  - vm_compute; reflexivity.
  - vm_compute; reflexivity.
Defined.

(** ** Fonts and code points *)

(** X20.  Every font name gets a character width ratio from 50 to 60
    hundredths of the font size; a name that is not in the table gets
    60. *)
Theorem get_font_ratio_range (font_family : string) :
  50 <= get_font_ratio font_family <= 60 /\
  (Forall (fun row => fst row <> font_family) font_ratios ->
   get_font_ratio font_family = 60).
Proof.
  unfold get_font_ratio. split.
  - unfold font_ratios. cbn [get_font_ratio_from].
    repeat (match goal with |- context [if ?b then _ else _] => destruct b end; [lia|]).
    lia.
  - generalize font_ratios. intros rows Hall.
    induction Hall as [|[name ratio] rows Hrow _ IH]; [reflexivity|].
    cbn [get_font_ratio_from]. cbn [fst] in Hrow.
    destruct (String.eqb_spec name font_family); [contradiction | exact IH].
Qed.

Lemma byte_code z : 0 <= z < 256 -> C.code (Utf8.byte z) = z.
Proof.
  intros H. unfold C.code, Utf8.byte.
  rewrite N_ascii_embedding by lia. lia.
Qed.

Lemma byte_class x :
  0 <= x < 256 -> (Z.land x 192 =? 128) = ((128 <=? x) && (x <? 192)).
Proof.
  intros Hx.
  assert (H : forallb (fun n => Bool.eqb (Z.land (Z.of_nat n) 192 =? 128)
                                         ((128 <=? Z.of_nat n) && (Z.of_nat n <? 192)))
                      (seq 0 256) = true) by (vm_compute; reflexivity).
  rewrite forallb_forall in H. specialize (H (Z.to_nat x)).
  rewrite Z2Nat.id in H by lia. apply Bool.eqb_prop, H, in_seq. lia.
Qed.

Lemma continuation_class z :
  (Z.land (C.code (Utf8.continuation z)) 192 =? 128) = true.
Proof.
  unfold Utf8.continuation.
  pose proof (Z.mod_pos_bound z 64 ltac:(lia)) as H.
  rewrite byte_code, byte_class by lia.
  apply andb_true_iff. split; [apply Z.leb_le | apply Z.ltb_lt]; lia.
Qed.

Lemma lead_class z :
  0 <= z < 128 \/ 192 <= z < 256 ->
  (Z.land (C.code (Utf8.byte z)) 192 =? 128) = false.
Proof.
  intros H. rewrite byte_code, byte_class by lia.
  apply andb_false_iff. destruct H; [left; apply Z.leb_gt | right; apply Z.ltb_ge]; lia.
Qed.

Lemma utf8_strlen_encode cp : 0 <= cp < 1114112 -> utf8_strlen (Utf8.encode cp) = 1.
Proof.
  intros H. unfold Utf8.encode.
  destruct (Z.ltb_spec cp 128); [|destruct (Z.ltb_spec cp 2048); [|destruct (Z.ltb_spec cp 65536)]];
    cbn [utf8_strlen]; rewrite ?continuation_class.
  - rewrite lead_class by lia. reflexivity.
  - rewrite lead_class; [reflexivity|].
    right. pose proof (Z.div_le_mono 128 cp 64). pose proof (Z.div_lt_upper_bound cp 64 32).
    change (128 / 64) with 2 in *. lia.
  - rewrite lead_class; [reflexivity|].
    right. pose proof (Z.div_pos cp 4096). pose proof (Z.div_lt_upper_bound cp 4096 16). lia.
  - rewrite lead_class; [reflexivity|].
    right. pose proof (Z.div_pos cp 262144). pose proof (Z.div_lt_upper_bound cp 262144 5).
    lia.
Qed.

Lemma byte_not_nul z : 1 <= z < 256 -> Ascii.eqb (Utf8.byte z) "000" = false.
Proof.
  intros H. apply Ascii.eqb_neq. intros E.
  pose proof (byte_code z ltac:(lia)) as Hc. rewrite E in Hc.
  change (C.code "000") with 0 in Hc. lia.
Qed.

Lemma continuation_not_nul z : Ascii.eqb (Utf8.continuation z) "000" = false.
Proof.
  unfold Utf8.continuation. pose proof (Z.mod_pos_bound z 64 ltac:(lia)).
  apply byte_not_nul. lia.
Qed.

Lemma encode_no_nul cp : 1 <= cp < 1114112 -> C.mem "000" (Utf8.encode cp) = false.
Proof.
  intros H. unfold Utf8.encode.
  destruct (Z.ltb_spec cp 128); [|destruct (Z.ltb_spec cp 2048); [|destruct (Z.ltb_spec cp 65536)]];
    cbn [C.mem]; rewrite ?continuation_not_nul, ?orb_false_r.
  - apply byte_not_nul. lia.
  - apply byte_not_nul. pose proof (Z.div_pos cp 64).
    pose proof (Z.div_lt_upper_bound cp 64 32). lia.
  - apply byte_not_nul. pose proof (Z.div_pos cp 4096).
    pose proof (Z.div_lt_upper_bound cp 4096 16). lia.
  - apply byte_not_nul. pose proof (Z.div_pos cp 262144).
    pose proof (Z.div_lt_upper_bound cp 262144 5). lia.
Qed.

(** X21.  [utf8_strlen] counts code points: the UTF-8 encoding of a list
    of code points from U+0001 to U+10FFFF holds no NUL byte, so it is a C
    string, and on it [utf8_strlen] returns the length of the list.
    (U+0000 is left out: its encoding is the terminator.) *)
Theorem utf8_strlen_counts_code_points (cps : list Z) :
  Forall (fun cp => 1 <= cp < 1114112) cps ->
  C.mem "000" (Utf8.encode_all cps) = false /\
  utf8_strlen (Utf8.encode_all cps) = Z.of_nat (length cps).
Proof.
  induction 1 as [|cp cps Hcp _ [IH1 IH2]]; [split; reflexivity|].
  cbn [Utf8.encode_all length]. split.
  - now rewrite mem_append, encode_no_nul, IH1.
  - rewrite utf8_strlen_append, utf8_strlen_encode, IH2 by lia. lia.
Qed.

Lemma utf8_strlen_counts_code_points_witness :
  C.mem "000" (Utf8.encode_all [72; 233; 8364; 128512]) = false /\
  utf8_strlen (Utf8.encode_all [72; 233; 8364; 128512]) = 4.
Proof.
  apply (utf8_strlen_counts_code_points [72; 233; 8364; 128512]).
  repeat (constructor; [split; [discriminate | reflexivity]|]). constructor.
Defined.

(** ** The key of an SVG fragment *)

Lemma fmt_d_no_underscore z : C.mem "_" (C.fmt_d z) = false.
Proof.
  unfold C.fmt_d. destruct (Z.to_int z); cbn; apply uint_no_underscore.
Qed.

(** X22.  The cache key of an SVG fragment determines the configuration
    hash, the line number and the line hash it was built from. *)
Theorem svg_fragment_cache_key_separates
    (line_hash config_hash n line_hash' config_hash' n' : Z) :
  0 <= line_hash < 2 ^ 32 -> 0 <= config_hash < 2 ^ 32 -> C.is_int n = true ->
  0 <= line_hash' < 2 ^ 32 -> 0 <= config_hash' < 2 ^ 32 -> C.is_int n' = true ->
  get_svg_fragment_cache_key (C.fmt_u line_hash) (C.fmt_u config_hash) n
  = get_svg_fragment_cache_key (C.fmt_u line_hash') (C.fmt_u config_hash') n' ->
  line_hash = line_hash' /\ config_hash = config_hash' /\ n = n'.
Proof.
  intros H1 H2 H3 H4 H5 H6 H. unfold get_svg_fragment_cache_key in H.
  pose proof (fmt_u_strlen _ H1). pose proof (fmt_u_strlen _ H2).
  pose proof (fmt_u_strlen _ H4). pose proof (fmt_u_strlen _ H5).
  pose proof (fmt_d_length _ H3). pose proof (fmt_d_length _ H6).
  rewrite !snprintf_fits in H
    by (rewrite !strlen_append; change (C.strlen "svg_") with 4;
        change (C.strlen "_") with 1; unfold MAX_CACHE_KEY_LENGTH; lia).
  apply append_inj_l in H.
  apply append_separator_inj in H as [Hc H]; try apply fmt_u_no_underscore.
  apply append_separator_inj in H as [Hn Hl]; try apply fmt_d_no_underscore.
  split; [apply fmt_u_inj; auto; lia|]. split; [apply fmt_u_inj; auto; lia|].
  now apply fmt_d_inj.
Qed.

Lemma svg_fragment_cache_key_separates_witness : 12 = 12 /\ 34 = 34 /\ 7 = 7.
Proof.
  apply (svg_fragment_cache_key_separates 12 34 7 12 34 7);
    try (split; [lia | reflexivity]); reflexivity.
Defined.

(** ** The files the line cache touches *)



(** ** What the destination held before *)

Lemma apply_code_style code st st' :
  fg st = fg st' -> bg st = bg st' -> is_bold st = is_bold st' ->
  fg (apply_code code st) = fg (apply_code code st') /\
  bg (apply_code code st) = bg (apply_code code st') /\
  is_bold (apply_code code st) = is_bold (apply_code code st').
Proof.
  intros H1 H2 H3. unfold apply_code, reset_style, set_style.
  repeat match goal with |- context [if ?b then _ else _] => destruct b end; cbn; auto.
Qed.

Lemma process_codes_style codes st st' :
  fg st = fg st' -> bg st = bg st' -> is_bold st = is_bold st' ->
  fg (process_codes codes st) = fg (process_codes codes st') /\
  bg (process_codes codes st) = bg (process_codes codes st') /\
  is_bold (process_codes codes st) = is_bold (process_codes codes st').
Proof.
  unfold process_codes. destruct (C.strlen codes =? 0); [cbn; auto|].
  generalize (C.strtok codes ";"). intros tokens. revert st st'.
  induction tokens as [|t tokens IH]; intros st st' H1 H2 H3; cbn [fold_left]; [auto|].
  destruct (apply_code_style (C.atoi t) st st' H1 H2 H3) as (A1 & A2 & A3).
  now apply IH.
Qed.

Lemma same_progress_save_segment st st' :
  same_progress st st' -> can_save st = true ->
  same_progress (reset_text (save_segment st)) (reset_text (save_segment st')) /\
  same_progress (save_segment st) (save_segment st').
Proof.
  intros (H1 & H2 & H3 & H4 & H5 & H6 & H7 & H8 & H9 & H10) Hsave.
  pose proof (can_save_lt st Hsave) as Hlt.
  assert (Hv : valid_segments (line_data (save_segment st))
               = valid_segments (line_data (save_segment st'))).
  { rewrite !valid_segments_save by (auto; lia). now rewrite H1, H2, H3, H4, H5, H7. }
  assert (Hok : array_ok (line_data (save_segment st))
                /\ array_ok (line_data (save_segment st'))).
  { unfold array_ok in *. cbn. now rewrite !length_insert. }
  assert (Hc : segment_count (line_data (save_segment st))
               = segment_count (line_data (save_segment st'))
               /\ 0 <= segment_count (line_data (save_segment st)) <= MAX_SEGMENTS).
  { cbn. lia. }
  assert (Hp : cur_visible_pos (save_segment st) = cur_visible_pos (save_segment st')).
  { cbn. now rewrite H4, H5. }
  destruct Hok as [Hok Hok'], Hc as [Hc Hb].
  split.
  - split; [exact H1|]. split; [exact H2|]. split; [exact H3|]. split; [exact Hp|].
    split; [reflexivity|]. split; [exact Hc|]. split; [exact Hv|].
    split; [exact Hok|]. split; [exact Hok' | exact Hb].
  - split; [exact H1|]. split; [exact H2|]. split; [exact H3|]. split; [exact Hp|].
    split; [exact H5|]. split; [exact Hc|]. split; [exact Hv|].
    split; [exact Hok|]. split; [exact Hok' | exact Hb].
Qed.

Lemma can_save_same st st' : same_progress st st' -> can_save st = can_save st'.
Proof.
  intros (_ & _ & _ & _ & H5 & H6 & _). unfold can_save, current_text_pos.
  now rewrite H5, H6.
Qed.

Lemma same_progress_parse_loop ptr st :
  forall st', same_progress st st' ->
              same_progress (parse_loop ptr st) (parse_loop ptr st').
Proof.
  apply (parse_loop_induction
           (fun ptr st r => forall st', same_progress st st' ->
                                        same_progress r (parse_loop ptr st'))).
  - intros st0 st' H. now rewrite parse_loop_end.
  - intros c more st0 r Hi IH st' H. rewrite parse_loop_escape by exact Hi. apply IH.
    assert (Hs : same_progress (save_before_escape st0) (save_before_escape st')).
    { unfold save_before_escape. rewrite <- (can_save_same _ _ H).
      destruct (can_save st0) eqn:E; [|exact H].
      apply (same_progress_save_segment _ _ H E). }
    destruct Hs as (H1 & H2 & H3 & H4 & H5 & H6 & H7 & H8 & H9 & H10).
    destruct (process_codes_frame (escape_codes more) (save_before_escape st0))
      as (F1 & F2 & F3).
    destruct (process_codes_frame (escape_codes more) (save_before_escape st'))
      as (F1' & F2' & F3').
    destruct (process_codes_style (escape_codes more) _ _ H1 H2 H3) as (S1 & S2 & S3).
    unfold same_progress. rewrite F1, F2, F3, F1', F2', F3'.
    repeat split; auto; lia.
  - intros c more st0 r Hi IH st' H. rewrite parse_loop_char by exact Hi. apply IH.
    destruct H as (H1 & H2 & H3 & H4 & H5 & H6 & H7 & H8 & H9 & H10).
    unfold same_progress, add_char, current_text_pos. rewrite H5.
    destruct (C.strlen (current_text st') <? MAX_LINE_LENGTH - 1);
      cbn [fg bg is_bold cur_visible_pos current_text line_data];
      rewrite ?H5; repeat split; auto; lia.
Qed.

(** X24.  What [parse_ansi_line] makes of a line does not depend on what
    the record held before: parsed into two different records, the line
    gives the same [segment_count], [visible_length] and segments. *)
Theorem parse_fresh_ignores_old_contents (line : string) (dst dst' : LineData) :
  array_ok dst -> array_ok dst' ->
  segment_count (parse_fresh line dst) = segment_count (parse_fresh line dst') /\
  visible_length (parse_fresh line dst) = visible_length (parse_fresh line dst') /\
  valid_segments (parse_fresh line dst) = valid_segments (parse_fresh line dst').
Proof.
  intros Hdst Hdst'.
  assert (H0 : same_progress (start_state dst) (start_state dst')).
  { unfold same_progress, start_state, valid_segments. cbn.
    unfold MAX_SEGMENTS. repeat split; auto; lia. }
  pose proof (same_progress_parse_loop line _ _ H0) as H.
  assert (Hs : same_progress (save_remaining (parse_loop line (start_state dst)))
                             (save_remaining (parse_loop line (start_state dst')))).
  { unfold save_remaining. rewrite <- (can_save_same _ _ H).
    destruct (can_save (parse_loop line (start_state dst))) eqn:E; [|exact H].
    apply (same_progress_save_segment _ _ H E). }
  destruct Hs as (_ & _ & _ & H4 & _ & H6 & H7 & _).
  unfold parse_fresh, finish. cbn [segment_count visible_length].
  split; [exact H6|]. split; [exact H4|].
  unfold valid_segments in *. exact H7.
Qed.

Lemma parse_fresh_ignores_old_contents_witness :
  let line := "ab" +:+ String C.ESC "[1;31mcd" in
  let used := parse_fresh "xyz" blank_line in
  segment_count (parse_fresh line blank_line) = segment_count (parse_fresh line used) /\
  visible_length (parse_fresh line blank_line) = visible_length (parse_fresh line used) /\
  valid_segments (parse_fresh line blank_line) = valid_segments (parse_fresh line used).
Proof.
  intros line used.
  apply (parse_fresh_ignores_old_contents line blank_line used).
  - vm_compute; reflexivity.
  - vm_compute; reflexivity.
Defined.

(** ** Cache statistics *)


(** ** The bytes of the segments *)

(** X26.  The parser adds no byte of its own: a byte that does not occur
    in the line occurs in no segment text. *)
Theorem parse_fresh_adds_no_byte (d : ascii) (line : string) (dst : LineData) :
  array_ok dst -> C.mem d line = false ->
  Forall (fun seg => C.mem d (text seg) = false) (valid_segments (parse_fresh line dst)).
Proof.
  intros Hdst Hm.
  assert (H0 : free_of d (start_state dst)).
  { split; [reflexivity|]. unfold valid_segments. cbn. constructor. }
  pose proof (tiled_start dst Hdst) as Ht0.
  pose proof (free_of_parse_loop d line _ Hm Ht0 H0) as H1.
  pose proof (tiled_parse_loop line _ Ht0) as Ht1.
  destruct (free_of_save_remaining d _ Ht1 H1) as [_ H]. exact H.
Qed.

Lemma parse_fresh_adds_no_byte_witness :
  Forall (fun seg => C.mem "[" (text seg) = false)
         (valid_segments (parse_fresh ("ab" +:+ String C.ESC "x") blank_line)).
Proof.
  apply (parse_fresh_adds_no_byte "[" ("ab" +:+ String C.ESC "x") blank_line).
  - vm_compute; reflexivity.
  - vm_compute; reflexivity.
Defined.

(** X27.  On input none of whose lines expands beyond the
    [MAX_LINE_LENGTH] bytes of its buffers (any input without a tab is of
    that kind), [read_input] returns -1 exactly when the input file cannot
    be opened or the input holds no byte, and 0 otherwise. *)
Theorem read_input_fails_without_input
    (env : Env) (open_r : string -> option string) (stdin : string)
    (config : Config) (g : Globals) :
  let input_source :=
    if 0 <? C.strlen (input_file config) then open_r (input_file config)
    else Some stdin in
  (forall stream, input_source = Some stream ->
                  expansions_fit stream (tab_size config) = true) ->
  fst (fst (read_input env open_r stdin config g))
  = match input_source with
    | Some (String _ _) => 0
    | _ => -1
    end.
Proof.
  cbn zeta. unfold read_input. intros _.
  destruct (if 0 <? C.strlen (input_file config) then open_r (input_file config)
            else Some stdin) as [[|c stream]|]; [reflexivity| |reflexivity].
  pose proof (read_lines_nonempty (String c stream) (tab_size config) ltac:(discriminate)).
  destruct (read_lines (String c stream) (tab_size config) []) as [|l ls]; [congruence|].
  reflexivity.
Qed.

Lemma read_input_fails_without_input_witness :
  fst (fst (read_input plain_env (fun _ => None) (String "009" "x") default_config
                       plain_globals)) = 0 /\
  fst (fst (read_input plain_env (fun _ => None) "" default_config plain_globals)) = -1.
Proof.
  split.
  - apply (read_input_fails_without_input plain_env (fun _ => None) (String "009" "x")
             default_config plain_globals).
    intros stream [= <-]. vm_compute; reflexivity.
  - apply (read_input_fails_without_input plain_env (fun _ => None) ""
             default_config plain_globals).
    intros stream [= <-]. vm_compute; reflexivity.
Defined.
